(** * Verification of the Chrome DevTools adapter (src/adapter.ts)

    A shallow embedding of the protocol adapter of the Stackdriver Debugger
    proxy for Chrome DevTools: the line-number translation, the status
    logger, the value parser, the request router [processRequest] and the
    snapshot translation [loadSnapshot], followed by theorems about them.

    Modelling conventions.
    - Strings are [string]; a JavaScript code unit is one [ascii].
    - Line numbers and variable-table indices are integral JavaScript
      numbers and are modelled as [Z]; where the code adds or subtracts,
      the rounding of the doubles is written out ([JS.nearest]).
    - An optional field ([x?: T]) is an [option]; JavaScript truthiness is
      written out: a string is truthy when present and non-empty, a number
      when present and non-zero, an array or object when present.
    - The adapter's mutable state (the property descriptor list map, the
      logger output, the emitted events and the state of the external
      debug proxy) is threaded explicitly; a [throw] keeps the state that
      was reached, as the [Map] mutations of the source do. *)

From Stdlib Require Import ZArith String Ascii List.
From stdpp Require Import base option list strings gmap pretty.

Local Open Scope Z_scope.

(** ** JavaScript string primitives *)

Module JS.

(** [s.startsWith(p)] *)
Definition startsWith (p s : string) : bool := String.prefix p s.

(** [s.endsWith(p)] *)
Definition endsWith (p s : string) : bool :=
  let n := String.length s in
  let k := String.length p in
  (k <=? n)%nat && String.eqb (String.substring (n - k) k s) p.

(** [s.substr(start, len)] for a non-negative [start] and [len]. *)
Definition substr (start len : nat) (s : string) : string :=
  String.substring start len s.

Definition lower (c : ascii) : ascii :=
  let n := nat_of_ascii c in
  if ((65 <=? n) && (n <=? 90))%nat then ascii_of_nat (n + 32) else c.

(** [s.toLowerCase()] on the ASCII letters. *)
Fixpoint toLowerCase (s : string) : string :=
  match s with
  | EmptyString => EmptyString
  | String c r => String (lower c) (toLowerCase r)
  end.

(** [s.split(sep)] for a one-character separator: the pieces between the
    occurrences of [sep]; never the empty list. *)
Fixpoint pieces (sep : ascii) (s : string) : list string :=
  match s with
  | EmptyString => [EmptyString]
  | String c r =>
      if Ascii.eqb c sep then EmptyString :: pieces sep r
      else match pieces sep r with
           | h :: t => String c h :: t
           | [] => [String c EmptyString]
           end
  end.

(** [s.split(sep, limit)] *)
Definition split (sep : ascii) (limit : nat) (s : string) : list string :=
  take limit (pieces sep s).

(** Truthiness of an optional string, number, boolean, array or object. *)
Definition truthyS (o : option string) : bool :=
  match o with Some s => negb (String.eqb s "") | None => false end.
Definition truthyN (o : option Z) : bool :=
  match o with Some n => negb (n =? 0) | None => false end.
Definition truthyB (o : option bool) : bool :=
  match o with Some b => b | None => false end.
Definition present {A} (o : option A) : bool :=
  match o with Some _ => true | None => false end.

(** A template literal prints a missing value as [undefined]. *)
Definition show (o : option string) : string := default "undefined" o.

(** A number is an IEEE 754 double. On integers, [x + y] and [x - y] are
    the exact result rounded to the nearest double, ties to the even
    significand: every integer up to [2^53] in magnitude is a double, and
    from there on the doubles are integers, [2^(e-52)] apart between
    [2^e] and [2^(e+1)]. *)

(** [Number.MAX_SAFE_INTEGER], which is [2^53 - 1]. *)
Definition MAX_SAFE_INTEGER : Z := 9007199254740991.

(** [Number.isSafeInteger(z)] for an integer [z]. *)
Definition isSafeInteger (z : Z) : Prop := Z.abs z ≤ MAX_SAFE_INTEGER.

(** The double nearest to the integer [z]. One more or one less than a
    double is below the largest double, or rounds to it: the rounding
    never gives an infinity there. *)
Definition nearest (z : Z) : Z :=
  let a := Z.abs z in
  if a <=? MAX_SAFE_INTEGER + 1 then z
  else
    let ulp := 2 ^ (Z.log2 a - 52) in
    let q := a / ulp in
    let r := a mod ulp in
    let up :=
      if 2 * r <? ulp then false
      else if ulp <? 2 * r then true
      else Z.odd q in
    Z.sgn z * ((if up then q + 1 else q) * ulp).

Arguments nearest : simpl never.

End JS.

(** ** Data model of the debug proxy (package debug-proxy-common) *)

Record FormatMessage := {
  format : option string;
}.

Record StatusMessage := {
  isError : option bool;
  refersTo : option string;
  st_description : option FormatMessage;
}.

(** [stackdriver.Variable]: a row of the variable table, or a named local
    or member. *)
#[local] Set Warnings "-register-all".
Inductive Var : Type := mkVar {
  v_name : option string;
  v_value : option string;
  v_type : option string;
  v_varTableIndex : option Z;
  v_members : option (list Var);
  v_status : option StatusMessage;
}.

Record SourceLocation := {
  loc_path : string;
  loc_line : Z;
}.

Record StackFrame := {
  sf_function : string;
  sf_location : SourceLocation;
  sf_arguments : option (list Var);
  sf_locals : option (list Var);
}.

Inductive Action := CAPTURE | LOG.

Record Breakpoint := {
  bp_id : string;
  bp_location : SourceLocation;
  bp_condition : option string;
  bp_action : option Action;
  bp_isFinalState : option bool;
  bp_stackFrames : option (list StackFrame);
  bp_variableTable : option (list Var);
}.

(** ** Errors

    One constructor per [throw] site of adapter.ts, carrying the value the
    message prints. [TypeError] is the error the JavaScript runtime raises
    when a property of [undefined] is read; [External] is a rejection of
    the debug proxy or of the file system. *)
Inductive Error :=
| InvalidLineNumber (line : Z)
| UnexpectedStatusFormat (v : Var)
| MissingUrl
| NotSupported (method : string)
| UnrecognizedDebuggerMethod (method : option string)
| UnrecognizedRuntimeMethod (method : option string)
| ObjectNotFound (objectId : option string)
| NotCapturedSnapshot (b : Breakpoint)
| VariableHasTypeOrMembers (v : Var)
| VariableHasValueAndIndex (v : Var)
| VariableWithoutName (v : Var)
| TableEntryHasNameTypeIndex (v : Var)
| ArrayWithoutLength (v : Var)
| ErrorWithoutStack (v : Var)
| UnexpectedValue (v : Var)
| TableEntryHasTypeIndex (v : Var)
| FrameHasArguments (f : StackFrame)
| TypeError (what : string)
| External (what : string).

(** The data-shape violations of a snapshot: the captured data does not
    have the variable-table or stack-frame shape the translation assumes. *)
Definition dataShape (e : Error) : bool :=
  match e with
  | UnexpectedStatusFormat _ | VariableHasTypeOrMembers _
  | VariableHasValueAndIndex _ | VariableWithoutName _
  | TableEntryHasNameTypeIndex _ | ArrayWithoutLength _
  | ErrorWithoutStack _ | UnexpectedValue _ | TableEntryHasTypeIndex _
  | FrameHasArguments _ => true
  | _ => false
  end.

(** ** Line-number translation (adapter.ts, lines 155-166)

    [line + 1] and [line - 1] are operations on doubles: the exact
    result, rounded. The comparison [line < 1] is exact. *)

Definition devToolsToStackdriverLine (line : Z) : Z := JS.nearest (line + 1).

Definition stackdriverToDevToolsLine (line : Z) : Error + Z :=
  if line <? 1 then inl (InvalidLineNumber line)
  else inr (JS.nearest (line - 1)).

(** ** The platform: built-ins the adapter calls *)

Class Host := {
  (** the type of JavaScript numbers that [Number(s)] produces *)
  number : Type;
  Number_ : string → number;
  Number_isNaN : number → bool;
  (** [Date.parse]; [None] stands for [NaN] *)
  Date_parse : string → option Z;
  Date_toISOString : Z → string;
  Date_toString : Z → string;
  path_resolve : string → string → string;
  (** [util.promisify(fs.readFile)(path, 'utf8')] *)
  readFileP : option string → Error + string;
}.

(** ** Chrome DevTools protocol values (module inspector) *)

Section Protocol.
Context `{H : Host}.

Inductive JSValue :=
| VNull
| VBool (b : bool)
| VNumber (n : number)
| VString (s : string).

(** [Runtime.RemoteObject] *)
Record RemoteObject := {
  ro_type : string;
  ro_subtype : option string;
  ro_className : option string;
  ro_description : option string;
  ro_objectId : option string;
  ro_value : option JSValue;
  ro_unserializableValue : option string;
}.

(** [Runtime.PropertyDescriptor]; [pd_value] is missing when the
    back-reference of a variable has no entry in the remote object map. *)
Record PropertyDescriptor := {
  pd_name : string;
  pd_value : option RemoteObject;
  pd_configurable : bool;
  pd_enumerable : bool;
}.

Record Location := {
  scriptId : string;
  lineNumber : Z;
  columnNumber : option Z;
}.

Record Scope := {
  scope_type : string;
  scope_object : RemoteObject;
}.

(** [Debugger.CallFrame] *)
Record CallFrame := {
  callFrameId : string;
  functionName : string;
  cf_location : Location;
  scopeChain : list Scope;
  cf_this : RemoteObject;
}.

(** [Debugger.PausedEventDataType] *)
Record PausedEvent := {
  reason : string;
  hitBreakpoints : list string;
  callFrames : list CallFrame;
}.

(** An object literal of type [RemoteObject] with only its [type]. *)
Definition plain (type : string) : RemoteObject :=
  {| ro_type := type; ro_subtype := None; ro_className := None;
     ro_description := None; ro_objectId := None; ro_value := None;
     ro_unserializableValue := None |}.

(** *** Value parser: [parseVariableValue] (lines 231-287) *)
Definition parseVariableValue (value : string) : RemoteObject :=
  if String.eqb value "undefined" then plain "undefined"
  else if String.eqb value "null" then
    {| ro_type := "object"; ro_subtype := Some "null"; ro_className := None;
       ro_description := None; ro_objectId := None; ro_value := Some VNull;
       ro_unserializableValue := None |}
  else if String.eqb value "true" then
    {| ro_type := "boolean"; ro_subtype := None; ro_className := None;
       ro_description := None; ro_objectId := None;
       ro_value := Some (VBool true); ro_unserializableValue := None |}
  else if String.eqb value "false" then
    {| ro_type := "boolean"; ro_subtype := None; ro_className := None;
       ro_description := None; ro_objectId := None;
       ro_value := Some (VBool false); ro_unserializableValue := None |}
  else if String.eqb value "NaN" || String.eqb value "Infinity"
          || String.eqb value "-Infinity" then
    {| ro_type := "number"; ro_subtype := None; ro_className := None;
       ro_description := Some value; ro_objectId := None; ro_value := None;
       ro_unserializableValue := Some value |}
  else if JS.startsWith "Symbol(" value && JS.endsWith ")" value then
    {| ro_type := "symbol"; ro_subtype := None; ro_className := None;
       ro_description := Some value; ro_objectId := None; ro_value := None;
       ro_unserializableValue := None |}
  else if JS.startsWith "function " value && JS.endsWith "()" value then
    {| ro_type := "function"; ro_subtype := None;
       ro_className := Some "Function";
       ro_description := Some (value +:+ "{}"); ro_objectId := None;
       ro_value := None; ro_unserializableValue := None |}
  else if JS.startsWith "/" value && JS.endsWith "/" value then
    {| ro_type := "object"; ro_subtype := Some "regexp";
       ro_className := Some "RegExp"; ro_description := Some value;
       ro_objectId := None; ro_value := None;
       ro_unserializableValue := None |}
  else if negb (Number_isNaN (Number_ value)) then
    {| ro_type := "number"; ro_subtype := None; ro_className := None;
       ro_description := Some value; ro_objectId := None;
       ro_value := Some (VNumber (Number_ value));
       ro_unserializableValue := None |}
  else
    {| ro_type := "string"; ro_subtype := None; ro_className := None;
       ro_description := None; ro_objectId := None;
       ro_value := Some (VString value); ro_unserializableValue := None |}.

End Protocol.

(** ** The debug proxy (class [DebugProxy] of debug-proxy-common)

    The external client, over a state [P] of its own. *)

Record BreakpointRequest := {
  req_action : Action;
  req_location : SourceLocation;
  req_condition : option string;
}.

Class DebugProxy (P : Type) := {
  getDebuggerId : P → string;
  (** [options.sourceDirectory] *)
  sourceDirectory : P → string;
  setBreakpoint : BreakpointRequest → P → P * (Error + Breakpoint);
  removeBreakpoint : option string → P → P * (Error + unit);
  getBreakpoint : string → P → P * (Error + Breakpoint);
  getBreakpointList : bool → P → list Breakpoint;
}.

Record BreakpointInfo := {
  bi_name : string;
  bi_id : string;
}.

Definition breakpointToBreakpointInfo (breakpoint : Breakpoint)
  : BreakpointInfo :=
  {| bi_name := loc_path (bp_location breakpoint) +:+ ":"
                +:+ pretty (loc_line (bp_location breakpoint));
     bi_id := bp_id breakpoint |}.

(** ** The logger and the emitted events *)

Inductive Level := silly | info | verbose.

Inductive LogMessage :=
| ErrorInVariable (name : option string) (fmt : string)
| StatusMessageOf (v : Var).

Record LogRecord := {
  level : Level;
  origin : string;
  message : LogMessage;
}.

Inductive Emitted :=
| EmitResume
| EmitLoadSnapshot (snapshotId : string)
| EmitUpdateBreakpointList (pending captured : list BreakpointInfo).

(** The receiver of a method call: [this] is the adapter when the method
    is called on it ([this.logVariableStatus(v)]) and [undefined] when the
    method was first read into a constant and is then called as a plain
    function ([const f = this.logVariableStatus; f(v)]): class bodies are
    strict-mode code. *)
Inductive Receiver := ThisAdapter | ThisUndefined.

(** [STATUS_MESSAGE_SET] (lines 120-121) *)
Definition STATUS_MESSAGE_SET : gset string :=
  {[ "baseUrl"; "_pendingEncoding"; "search"; "_trailer"; "_url" ]}.

(** [REMOTE_OBJECT_SUBTYPE_SET] (lines 88-104) *)
Definition REMOTE_OBJECT_SUBTYPE_SET : gset string :=
  {[ "array"; "null"; "node"; "regexp"; "date"; "map"; "set"; "weakmap";
     "weakset"; "iterator"; "generator"; "error"; "proxy"; "promise";
     "typedarray" ]}.

(** [TYPED_ARRAY_SET] (lines 107-117) *)
Definition TYPED_ARRAY_SET : gset string :=
  {[ "Int8Array"; "Uint8Array"; "Uint8ClampedArray"; "Int16Array";
     "Uint16Array"; "Int32Array"; "Uint32Array"; "Float32Array";
     "Float64Array" ]}.

(** [set.has(x)] *)
Definition has (set : gset string) (x : string) : bool :=
  bool_decide (x ∈ set).

(** ** Requests of Chrome DevTools *)

(** The parameter types a request may carry (the union in the type of
    [MessageRequest.params]); [NoFields] is the object without any of the
    fields read by the adapter. *)
Inductive Params :=
| NoFields
| GetPropertiesParams (objectId : string)
| RemoveBreakpointParams (breakpointId : string)
| GetScriptSourceParams (scriptId : string)
| SetBreakpointByUrlParams (lineNumber : Z)
    (url urlRegex scriptHash : option string) (columnNumber : option Z)
    (condition : option string).

Record MessageRequest := {
  rq_id : Z;
  rq_method : string;
  rq_params : option Params;
}.

(** Reading a field of the parameters after the cast [request.params as T]:
    [undefined] when the object has no such field. *)
Definition p_objectId (p : Params) : option string :=
  match p with GetPropertiesParams o => Some o | _ => None end.
Definition p_breakpointId (p : Params) : option string :=
  match p with RemoveBreakpointParams b => Some b | _ => None end.
Definition p_scriptId (p : Params) : option string :=
  match p with GetScriptSourceParams i => Some i | _ => None end.
Definition p_url (p : Params) : option string :=
  match p with SetBreakpointByUrlParams _ u _ _ _ _ => u | _ => None end.
Definition p_condition (p : Params) : option string :=
  match p with SetBreakpointByUrlParams _ _ _ _ _ c => c | _ => None end.
(** [lineNumber] is read only after [url] was found, so from a
    [SetBreakpointByUrlParams]. *)
Definition p_lineNumber (p : Params) : option Z :=
  match p with SetBreakpointByUrlParams l _ _ _ _ _ => Some l | _ => None end.

(** [type DebuggerMethod] (lines 27-35) *)
Module DebuggerMethod.
Inductive t :=
| continueToLocation | disable | enable | evaluateOnCallFrame
| getPossibleBreakpoints | getScriptSource | getStackTrace | pause
| pauseOnAsyncCall | removeBreakpoint | restartFrame | resume
| scheduleStepIntoAsync | searchInContent | setAsyncCallStackDepth
| setBlackboxPatterns | setBlackboxedRanges | setBreakpoint
| setBreakpointByUrl | setBreakpointOnFunctionCall | setBreakpointsActive
| setPauseOnExceptions | setReturnValue | setScriptSource
| setSkipAllPauses | setVariableValue | stepInto | stepOut | stepOver.

Definition names : list (string * t) :=
  [ ("continueToLocation", continueToLocation); ("disable", disable);
    ("enable", enable); ("evaluateOnCallFrame", evaluateOnCallFrame);
    ("getPossibleBreakpoints", getPossibleBreakpoints);
    ("getScriptSource", getScriptSource); ("getStackTrace", getStackTrace);
    ("pause", pause); ("pauseOnAsyncCall", pauseOnAsyncCall);
    ("removeBreakpoint", removeBreakpoint); ("restartFrame", restartFrame);
    ("resume", resume); ("scheduleStepIntoAsync", scheduleStepIntoAsync);
    ("searchInContent", searchInContent);
    ("setAsyncCallStackDepth", setAsyncCallStackDepth);
    ("setBlackboxPatterns", setBlackboxPatterns);
    ("setBlackboxedRanges", setBlackboxedRanges);
    ("setBreakpoint", setBreakpoint);
    ("setBreakpointByUrl", setBreakpointByUrl);
    ("setBreakpointOnFunctionCall", setBreakpointOnFunctionCall);
    ("setBreakpointsActive", setBreakpointsActive);
    ("setPauseOnExceptions", setPauseOnExceptions);
    ("setReturnValue", setReturnValue); ("setScriptSource", setScriptSource);
    ("setSkipAllPauses", setSkipAllPauses);
    ("setVariableValue", setVariableValue); ("stepInto", stepInto);
    ("stepOut", stepOut); ("stepOver", stepOver) ].
End DebuggerMethod.

(** [type RuntimeMethod] (lines 36-42) *)
Module RuntimeMethod.
Inductive t :=
| addBinding | awaitPromise | callFunctionOn | compileScript | disable
| discardConsoleEntries | enable | evaluate | getIsolateId | getHeapUsage
| getProperties | globalLexicalScopeNames | queryObjects | releaseObject
| releaseObjectGroup | removeBinding | runIfWaitingForDebugger | runScript
| setAsyncCallStackDepth | setCustomObjectFormatterEnabled
| setMaxCallStackSizeToCapture | terminateExecution.

Definition names : list (string * t) :=
  [ ("addBinding", addBinding); ("awaitPromise", awaitPromise);
    ("callFunctionOn", callFunctionOn); ("compileScript", compileScript);
    ("disable", disable); ("discardConsoleEntries", discardConsoleEntries);
    ("enable", enable); ("evaluate", evaluate);
    ("getIsolateId", getIsolateId); ("getHeapUsage", getHeapUsage);
    ("getProperties", getProperties);
    ("globalLexicalScopeNames", globalLexicalScopeNames);
    ("queryObjects", queryObjects); ("releaseObject", releaseObject);
    ("releaseObjectGroup", releaseObjectGroup);
    ("removeBinding", removeBinding);
    ("runIfWaitingForDebugger", runIfWaitingForDebugger);
    ("runScript", runScript);
    ("setAsyncCallStackDepth", setAsyncCallStackDepth);
    ("setCustomObjectFormatterEnabled", setCustomObjectFormatterEnabled);
    ("setMaxCallStackSizeToCapture", setMaxCallStackSizeToCapture);
    ("terminateExecution", terminateExecution) ].
End RuntimeMethod.

(** The case of a [switch] over method names that a string selects; [None]
    is the [default] case. *)
Fixpoint selectCase {T} (names : list (string * T)) (method : option string)
  : option T :=
  match names, method with
  | (n, c) :: rest, Some m =>
      if String.eqb m n then Some c else selectCase rest method
  | _, _ => None
  end.

(** [ProcessedResponse] (lines 63-65), with the result of
    [getScriptSource]. *)
Section Responses.
Context `{H : Host}.

Inductive ProcessedResponse :=
| EmptyResponse
| EnableReturn (debuggerId : string)
| GetScriptSourceReturn (scriptSource : string)
| GetPropertiesReturn (result : list PropertyDescriptor)
| SetBreakpointByUrlReturn (breakpointId : string)
    (locations : list Location).

End Responses.

(** ** The adapter *)

Section Adapter.
Context `{H : Host} {P : Type} `{DP : !DebugProxy P}.

(** The fields of class [Adapter] that change, with the output of its
    logger and the events it has emitted. *)
Record Adapter := {
  propertyDescriptorListMap : gmap string (list PropertyDescriptor);
  logger : list LogRecord;
  emitted : list Emitted;
  debugProxy : P;
}.

(** A method body: it runs on the adapter and returns normally or throws;
    in both cases the adapter is left as the body made it. *)
Definition M (A : Type) : Type := Adapter → Adapter * (Error + A).

Definition ret {A} (a : A) : M A := λ s, (s, inr a).

Definition throw {A} (e : Error) : M A := λ s, (s, inl e).

Definition bind {A B} (m : M A) (k : A → M B) : M B :=
  λ s, match m s with
       | (s', inr a) => k a s'
       | (s', inl e) => (s', inl e)
       end.

Notation "'let*' x := m 'in' k" := (bind m (λ x, k))
  (at level 10, x binder, m at level 100, k at level 200).

(** Lifting of a pure computation that may fail. *)
Definition lift {A} (r : Error + A) : M A := λ s, (s, r).

(** [this.logger.<level>({origin, message})]: reading [this.logger] throws
    when [this] is [undefined]. *)
Definition log (this : Receiver) (l : Level) (o : string) (m : LogMessage)
  : M unit :=
  match this with
  | ThisAdapter => λ s,
      ({| propertyDescriptorListMap := propertyDescriptorListMap s;
          logger := logger s ++ [{| level := l; origin := o; message := m |}];
          emitted := emitted s;
          debugProxy := debugProxy s |}, inr tt)
  | ThisUndefined =>
      throw (TypeError "Cannot read property 'logger' of undefined")
  end.

(** [this.emit(event)] *)
Definition emit (e : Emitted) : M unit := λ s,
  ({| propertyDescriptorListMap := propertyDescriptorListMap s;
      logger := logger s;
      emitted := emitted s ++ [e];
      debugProxy := debugProxy s |}, inr tt).

(** [this.propertyDescriptorListMap.set(key, list)] *)
Definition setProperties (key : string) (l : list PropertyDescriptor)
  : M unit := λ s,
  ({| propertyDescriptorListMap := <[key := l]> (propertyDescriptorListMap s);
      logger := logger s;
      emitted := emitted s;
      debugProxy := debugProxy s |}, inr tt).

(** A call of the debug proxy, which runs on the proxy's own state. *)
Definition callProxy {A} (op : P → P * (Error + A)) : M A := λ s,
  let '(p, r) := op (debugProxy s) in
  ({| propertyDescriptorListMap := propertyDescriptorListMap s;
      logger := logger s;
      emitted := emitted s;
      debugProxy := p |}, r).

(** The status description has the expected format (lines 190-192). *)
Definition statusWellFormed (variable : Var) (status : StatusMessage)
  : bool :=
  negb (JS.truthyN (v_varTableIndex variable))
  && bool_decide (isError status = Some true)
  && bool_decide (refersTo status = Some "VARIABLE_VALUE")
  && match st_description status with
     | Some d => JS.truthyS (format d)
     | None => false
     end.

(** *** Status logger: [logVariableStatus] (lines 185-219) *)
Definition logVariableStatus (this : Receiver) (variable : Var) : M unit :=
  match v_status variable with
  | Some status =>
      if statusWellFormed variable status then
        log this silly "adapter-parse"
          (ErrorInVariable (v_name variable)
             (default "" (st_description status ≫= format)))
      else throw (UnexpectedStatusFormat variable)
  | None =>
      if JS.truthyS (v_name variable)
         && has STATUS_MESSAGE_SET (default "" (v_name variable))
      then log this silly "adapter-parse" (StatusMessageOf variable)
      else log this info "adapter-parse" (StatusMessageOf variable)
  end.

(** [getSourceDirectory] (lines 297-299) *)
Definition getSourceDirectory (s : Adapter) : string :=
  sourceDirectory (debugProxy s).

(** [emitLoadSnapshot] (lines 302-304) *)
Definition emitLoadSnapshot (snapshotId : string) : M unit :=
  emit (EmitLoadSnapshot snapshotId).

(** [emitUpdateBreakpointList] (lines 307-318) *)
Definition emitUpdateBreakpointList : M unit := λ s,
  emit (EmitUpdateBreakpointList
          (breakpointToBreakpointInfo <$> getBreakpointList false (debugProxy s))
          (breakpointToBreakpointInfo <$> getBreakpointList true (debugProxy s)))
       s.

(** *** Request router: [processRequest] (lines 326-467) *)

(** [const x = request.params as T; ... x.field]: reading a field of
    missing parameters throws. *)
Definition paramsOf (request : MessageRequest) : M Params :=
  match rq_params request with
  | Some p => ret p
  | None => throw (TypeError "Cannot read property of undefined")
  end.

Definition processDebugger (request : MessageRequest)
  (method : option string) : M ProcessedResponse :=
  match selectCase DebuggerMethod.names method with
  | Some DebuggerMethod.enable =>
      λ s, ret (EnableReturn (getDebuggerId (debugProxy s))) s
  | Some DebuggerMethod.getScriptSource =>
      let* p := paramsOf request in
      let* source := lift (readFileP (p_scriptId p)) in
      ret (GetScriptSourceReturn source)
  | Some DebuggerMethod.removeBreakpoint =>
      let* p := paramsOf request in
      let* _ := callProxy (removeBreakpoint (p_breakpointId p)) in
      ret EmptyResponse
  | Some DebuggerMethod.resume =>
      let* _ := emit EmitResume in
      ret EmptyResponse
  | Some DebuggerMethod.setBreakpointByUrl =>
      let* p := paramsOf request in
      if negb (JS.truthyS (p_url p)) then throw MissingUrl
      else
        let* breakpoint :=
          callProxy (setBreakpoint
            {| req_action := CAPTURE;
               req_location :=
                 {| loc_path := default "" (p_url p);
                    loc_line := devToolsToStackdriverLine
                                  (default 0 (p_lineNumber p)) |};
               req_condition := p_condition p |}) in
        let* _ := emitUpdateBreakpointList in
        let* line :=
          lift (stackdriverToDevToolsLine
                  (loc_line (bp_location breakpoint))) in
        ret (SetBreakpointByUrlReturn (bp_id breakpoint)
               [ {| scriptId := loc_path (bp_location breakpoint);
                    lineNumber := line;
                    columnNumber := Some 0 |} ])
  | Some DebuggerMethod.continueToLocation
  | Some DebuggerMethod.evaluateOnCallFrame
  | Some DebuggerMethod.restartFrame
  | Some DebuggerMethod.scheduleStepIntoAsync
  | Some DebuggerMethod.setReturnValue
  | Some DebuggerMethod.setScriptSource
  | Some DebuggerMethod.setVariableValue
  | Some DebuggerMethod.stepInto
  | Some DebuggerMethod.stepOut
  | Some DebuggerMethod.stepOver =>
      throw (NotSupported (rq_method request))
  | Some DebuggerMethod.disable
  | Some DebuggerMethod.pause
  | Some DebuggerMethod.pauseOnAsyncCall
  | Some DebuggerMethod.setAsyncCallStackDepth
  | Some DebuggerMethod.setBlackboxedRanges
  | Some DebuggerMethod.setBlackboxPatterns
  | Some DebuggerMethod.setBreakpointsActive
  | Some DebuggerMethod.setPauseOnExceptions
  | Some DebuggerMethod.setSkipAllPauses =>
      ret EmptyResponse
  | Some DebuggerMethod.getPossibleBreakpoints
  | Some DebuggerMethod.getStackTrace
  | Some DebuggerMethod.searchInContent
  | Some DebuggerMethod.setBreakpoint
  | Some DebuggerMethod.setBreakpointOnFunctionCall =>
      ret EmptyResponse
  | None => throw (UnrecognizedDebuggerMethod method)
  end.

Definition processRuntime (request : MessageRequest)
  (method : option string) : M ProcessedResponse :=
  match selectCase RuntimeMethod.names method with
  | Some RuntimeMethod.getProperties =>
      let* p := paramsOf request in
      λ s,
        match p_objectId p ≫= λ k, propertyDescriptorListMap s !! k with
        | None => throw (ObjectNotFound (p_objectId p)) s
        | Some propertyDescriptorList =>
            ret (GetPropertiesReturn propertyDescriptorList) s
        end
  | Some RuntimeMethod.addBinding
  | Some RuntimeMethod.awaitPromise
  | Some RuntimeMethod.callFunctionOn
  | Some RuntimeMethod.compileScript
  | Some RuntimeMethod.evaluate
  | Some RuntimeMethod.getIsolateId
  | Some RuntimeMethod.getHeapUsage
  | Some RuntimeMethod.globalLexicalScopeNames
  | Some RuntimeMethod.queryObjects
  | Some RuntimeMethod.removeBinding
  | Some RuntimeMethod.runScript
  | Some RuntimeMethod.terminateExecution =>
      throw (NotSupported (rq_method request))
  | Some RuntimeMethod.disable
  | Some RuntimeMethod.discardConsoleEntries
  | Some RuntimeMethod.enable
  | Some RuntimeMethod.releaseObject
  | Some RuntimeMethod.releaseObjectGroup
  | Some RuntimeMethod.runIfWaitingForDebugger
  | Some RuntimeMethod.setAsyncCallStackDepth
  | Some RuntimeMethod.setCustomObjectFormatterEnabled
  | Some RuntimeMethod.setMaxCallStackSizeToCapture =>
      ret EmptyResponse
  | None => throw (UnrecognizedRuntimeMethod method)
  end.

Definition processRequest (request : MessageRequest) : M ProcessedResponse :=
  let parts := JS.split "." 2 (rq_method request) in
  let domain := parts !! 0%nat in
  let method := parts !! 1%nat in
  if bool_decide (domain = Some "Debugger") then
    processDebugger request method
  else if bool_decide (domain = Some "Runtime") then
    processRuntime request method
  else ret EmptyResponse.

(** *** Snapshot translation: [loadSnapshot] (lines 475-696) *)

(** [array.forEach((x, index) => ...)] for a callback that updates a local
    variable of the enclosing function, here passed along as [acc]. *)
Fixpoint forEach {A T} (f : A → nat → T → M T) (l : list A) (index : nat)
  (acc : T) : M T :=
  match l with
  | [] => ret acc
  | x :: rest => let* acc' := f x index acc in forEach f rest (S index) acc'
  end.

(** [array.map((x, index) => ...)] *)
Fixpoint mapIndexed {A B} (f : A → nat → M B) (l : list A) (index : nat)
  : M (list B) :=
  match l with
  | [] => ret []
  | x :: rest =>
      let* y := f x index in
      let* ys := mapIndexed f rest (S index) in
      ret (y :: ys)
  end.

(** [getObjectId] (lines 492-494) *)
Definition getObjectId (snapshotId : string) (varTableIndex : nat) : string :=
  snapshotId +:+ "-object-" +:+ pretty varTableIndex.

Definition emptyObjectId (snapshotId : string) (index : nat) : string :=
  snapshotId +:+ "-empty-" +:+ pretty index.

Definition scopeIdOf (snapshotId : string) (index : nat) : string :=
  snapshotId +:+ "-scope-" +:+ pretty index.

(** [varTableIndexToRemoteObjectMap.get(k)] *)
Definition lookupRemoteObject (map : gmap Z RemoteObject) (k : option Z)
  : option RemoteObject :=
  k ≫= λ i, map !! i.

(** [parseVariable] (lines 496-527). The status logger is called through
    the constant of line 478, [const logVariableStatus =
    this.logVariableStatus], so without a receiver. *)
Definition parseVariable (map : gmap Z RemoteObject) (variable : Var)
  : M (option PropertyDescriptor) :=
  if JS.truthyS (v_type variable) || JS.present (v_members variable) then
    throw (VariableHasTypeOrMembers variable)
  else if JS.truthyS (v_value variable)
          && JS.truthyN (v_varTableIndex variable) then
    throw (VariableHasValueAndIndex variable)
  else if JS.truthyS (v_value variable)
          || JS.truthyN (v_varTableIndex variable) then
    if negb (JS.truthyS (v_name variable)) then
      throw (VariableWithoutName variable)
    else
      ret (Some
        {| pd_name := default "" (v_name variable);
           pd_configurable := false;
           pd_enumerable := true;
           pd_value :=
             if JS.truthyS (v_value variable)
             then Some (parseVariableValue (default "" (v_value variable)))
             else lookupRemoteObject map (v_varTableIndex variable) |})
  else
    let* _ := logVariableStatus ThisUndefined variable in
    ret None.

(** [list.map(f)] for a callback that ignores the index. *)
Fixpoint mapM {A B} (f : A → M B) (l : list A) : M (list B) :=
  match l with
  | [] => ret []
  | x :: rest =>
      let* y := f x in
      let* ys := mapM f rest in
      ret (y :: ys)
  end.

(** [parseVariableList] (lines 529-532); [omap id] is [filter(nonNull)]. *)
Definition parseVariableList (map : gmap Z RemoteObject) (l : list Var)
  : M (list PropertyDescriptor) :=
  let* parsed := mapM (parseVariable map) l in
  ret (omap id parsed).

(** The [className], [subtype] and [description] that the first pass
    computes from the value of a table entry (lines 546-608). *)
Record Shape := {
  sh_className : option string;
  sh_subtype : option string;
  sh_description : option string;
}.

Definition named (n : string) (member : Var) : bool :=
  bool_decide (v_name member = Some n).

Definition shapeOf (variable : Var) (value : string) : Error + Shape :=
  if JS.startsWith "#<" value && JS.endsWith ">" value then
    let className := JS.substr 2 (String.length value - 3) value in
    if has REMOTE_OBJECT_SUBTYPE_SET (JS.toLowerCase className) then
      let subtype := JS.toLowerCase className in
      if String.eqb subtype "array" then
        match List.find (named "length") (default [] (v_members variable)) with
        | Some member =>
            inr {| sh_className := Some className;
                   sh_subtype := Some subtype;
                   sh_description :=
                     Some ("Array(" +:+ JS.show (v_value member) +:+ ")") |}
        | None => inl (ArrayWithoutLength variable)
        end
      else
        inr {| sh_className := Some className; sh_subtype := Some subtype;
               sh_description := Some className |}
    else
      inr {| sh_className := Some className;
             sh_subtype :=
               if has TYPED_ARRAY_SET className then Some "typedarray"
               else None;
             sh_description := Some className |}
  else if JS.startsWith "Error" value then
    match v_members variable with
    | Some members =>
        inr {| sh_className := Some "Error"; sh_subtype := Some "error";
               sh_description :=
                 match List.find (λ member, named "stack" member
                                            && JS.truthyS (v_value member))
                         members with
                 | Some member => v_value member
                 | None => Some "Error"
                 end |}
    | None => inl (ErrorWithoutStack variable)
    end
  else
    match Date_parse value with
    | Some possibleDateMs =>
        if String.eqb value (Date_toISOString possibleDateMs) then
          inr {| sh_className := Some "Date"; sh_subtype := Some "date";
                 sh_description := Some (Date_toString possibleDateMs) |}
        else inl (UnexpectedValue variable)
    | None => inl (UnexpectedValue variable)
    end.

(** The callback of the first [forEach] (lines 535-626): it fills
    [varTableIndexToRemoteObjectMap], here [map]. *)
Definition describeEntry (snapshotId : string) (variable : Var)
  (index : nat) (map : gmap Z RemoteObject) : M (gmap Z RemoteObject) :=
  if JS.truthyS (v_name variable) || JS.truthyS (v_type variable)
     || JS.truthyN (v_varTableIndex variable) then
    throw (TableEntryHasNameTypeIndex variable)
  else if JS.truthyS (v_value variable) then
    let* shape := lift (shapeOf variable (default "" (v_value variable))) in
    let* objectId :=
      if JS.present (v_members variable) then
        ret (Some (getObjectId snapshotId index))
      else if bool_decide (sh_className shape = Some "Object") then
        let* _ := setProperties (emptyObjectId snapshotId index) [] in
        ret (Some (emptyObjectId snapshotId index))
      else ret None in
    ret (<[ Z.of_nat index :=
              {| ro_type := "object";
                 ro_className := sh_className shape;
                 ro_subtype := sh_subtype shape;
                 ro_description := sh_description shape;
                 ro_objectId := objectId;
                 ro_value := None;
                 ro_unserializableValue := None |} ]> map)
  else
    let* _ := logVariableStatus ThisAdapter variable in
    ret map.

(** The property list that the second pass builds for an entry without
    members (lines 638-643). *)
Definition selfProperty (map : gmap Z RemoteObject) (variable : Var)
  (index : nat) : PropertyDescriptor :=
  {| pd_name := default "" (v_value variable);
     pd_value := lookupRemoteObject map (Some (Z.of_nat index));
     pd_configurable := false;
     pd_enumerable := true |}.

(** The callback of the second [forEach] (lines 629-647). *)
Definition listEntry (snapshotId : string) (map : gmap Z RemoteObject)
  (variable : Var) (index : nat) (_ : unit) : M unit :=
  if JS.truthyS (v_type variable) || JS.truthyN (v_varTableIndex variable)
  then throw (TableEntryHasTypeIndex variable)
  else if JS.truthyS (v_value variable) then
    let* propertyDescriptorList :=
      match v_members variable with
      | Some members => parseVariableList map members
      | None => ret [selfProperty map variable index]
      end in
    setProperties (getObjectId snapshotId index) propertyDescriptorList
  else ret tt.

(** The guard of lines 660-664: the last local is the context. *)
Definition contextLocal (locals : list Var) : bool :=
  match last locals with
  | Some contextVariable =>
      bool_decide (v_name contextVariable = Some "context")
      && JS.truthyN (v_varTableIndex contextVariable)
  | None => false
  end.

(** The [this] binding and the remaining locals of a frame (lines
    660-669): a last local named [context] with a truthy back-reference is
    popped and looked up. *)
Definition takeContext (map : gmap Z RemoteObject) (locals : list Var)
  : option RemoteObject * list Var :=
  match last locals with
  | Some contextVariable =>
      if bool_decide (v_name contextVariable = Some "context")
         && JS.truthyN (v_varTableIndex contextVariable)
      then (lookupRemoteObject map (v_varTableIndex contextVariable),
            removelast locals)
      else (None, locals)
  | None => (None, locals)
  end.

(** The stack frame as line 667 leaves it: [locals.pop()] takes the
    context local out of the frame itself. *)
Definition popped (stackFrame : StackFrame) : StackFrame :=
  {| sf_function := sf_function stackFrame;
     sf_location := sf_location stackFrame;
     sf_arguments := sf_arguments stackFrame;
     sf_locals :=
       (λ locals, if contextLocal locals then removelast locals else locals)
         <$> sf_locals stackFrame |}.

(** The callback of [stackFrames.map] (lines 653-694). *)
Definition callFrameOf (snapshotId : string) (map : gmap Z RemoteObject)
  (stackFrame : StackFrame) (index : nat) : M CallFrame :=
  let scopeId := scopeIdOf snapshotId index in
  let* '(contextRemoteObject, propertyList) :=
    match sf_locals stackFrame with
    | Some locals =>
        let '(context, rest) := takeContext map locals in
        let* parsed := parseVariableList map rest in
        ret (context, parsed)
    | None => ret (None, [])
    end in
  if JS.present (sf_arguments stackFrame) then
    throw (FrameHasArguments (popped stackFrame))
  else
    let* _ := setProperties scopeId propertyList in
    let* directory := (λ s, ret (sourceDirectory (debugProxy s)) s) in
    let* line :=
      lift (stackdriverToDevToolsLine (loc_line (sf_location stackFrame))) in
    ret {| callFrameId := snapshotId +:+ "-frame-" +:+ pretty index;
           functionName := sf_function stackFrame;
           cf_location :=
             {| scriptId :=
                  path_resolve directory (loc_path (sf_location stackFrame));
                lineNumber := line;
                columnNumber := None |};
           scopeChain :=
             [ {| scope_type := "local";
                  scope_object :=
                    {| ro_type := "object"; ro_subtype := None;
                       ro_className := None; ro_description := None;
                       ro_objectId := Some scopeId; ro_value := None;
                       ro_unserializableValue := None |} |} ];
           cf_this := default (plain "undefined") contextRemoteObject |}.

(** The snapshot as lines 484-485 leave it: a missing list of stack
    frames or variable table is the empty list. *)
Definition defaulted (snapshot : Breakpoint) : Breakpoint :=
  {| bp_id := bp_id snapshot;
     bp_location := bp_location snapshot;
     bp_condition := bp_condition snapshot;
     bp_action := bp_action snapshot;
     bp_isFinalState := bp_isFinalState snapshot;
     bp_stackFrames := Some (default [] (bp_stackFrames snapshot));
     bp_variableTable := Some (default [] (bp_variableTable snapshot)) |}.

(** The body of [loadSnapshot] once the snapshot has been fetched (lines
    484-696). *)
Definition translateSnapshot (snapshot : Breakpoint) : M PausedEvent :=
  let stackFrames := default [] (bp_stackFrames snapshot) in
  let variableTable := default [] (bp_variableTable snapshot) in
  if negb (JS.truthyB (bp_isFinalState snapshot)) then
    throw (NotCapturedSnapshot (defaulted snapshot))
  else
    let id := bp_id snapshot in
    let* map := forEach (describeEntry id) variableTable 0%nat ∅ in
    let* _ := forEach (listEntry id map) variableTable 0%nat tt in
    let* frames := mapIndexed (callFrameOf id map) stackFrames 0%nat in
    ret {| reason := "other";
           hitBreakpoints := [id];
           callFrames := frames |}.

Definition loadSnapshot (snapshotId : string) : M PausedEvent :=
  let* snapshot := callProxy (getBreakpoint snapshotId) in
  translateSnapshot snapshot.

(** *** Vocabulary of the theorems *)

(** The adapter after one more record of the status logger. *)
Definition logged (s : Adapter) (l : Level) (m : LogMessage) : Adapter :=
  {| propertyDescriptorListMap := propertyDescriptorListMap s;
     logger := logger s ++ [ {| level := l; origin := "adapter-parse";
                                message := m |} ];
     emitted := emitted s;
     debugProxy := debugProxy s |}.

(** The name of the entry is in the allow-list of line 203. *)
Definition allowListed (variable : Var) : bool :=
  JS.truthyS (v_name variable)
  && has STATUS_MESSAGE_SET (default "" (v_name variable)).

(** [result] is the list that [parseVariableList] computes from [l]. *)
Definition parsedFrom (map : gmap Z RemoteObject) (l : list Var)
  (result : list PropertyDescriptor) : Prop :=
  ∃ s s', parseVariableList map l s = (s', inr result).

(** [result] is the property list that the second pass computes for the
    table entry [variable] at [index] (lines 637-643). *)
Definition listOfEntry (map : gmap Z RemoteObject) (variable : Var)
  (index : nat) (result : list PropertyDescriptor) : Prop :=
  match v_members variable with
  | Some members => parsedFrom map members result
  | None => result = [selfProperty map variable index]
  end.

(** The object identifier that the first pass assigns to the table entry
    [variable] at [index], given its class name (lines 609-615). *)
Definition assignedId (snapshotId : string) (variable : Var) (index : nat)
  (className : option string) : option string :=
  if JS.present (v_members variable) then
    Some (getObjectId snapshotId index)
  else if bool_decide (className = Some "Object") then
    Some (emptyObjectId snapshotId index)
  else None.

(** The adapter once the debug proxy has answered and is in state [p]. *)
Definition fetched (s : Adapter) (p : P) : Adapter :=
  {| propertyDescriptorListMap := propertyDescriptorListMap s;
     logger := logger s;
     emitted := emitted s;
     debugProxy := p |}.

(** The variable table and the stack frames that [loadSnapshot] walks
    (lines 484-485). *)
Definition tableOf (snapshot : Breakpoint) : list Var :=
  default [] (bp_variableTable snapshot).

Definition framesOf (snapshot : Breakpoint) : list StackFrame :=
  default [] (bp_stackFrames snapshot).

(** The first pass of [loadSnapshot] over the table of [snapshot]. *)
Definition firstPass (snapshot : Breakpoint) : M (gmap Z RemoteObject) :=
  forEach (describeEntry (bp_id snapshot)) (tableOf snapshot) 0%nat ∅.



End Adapter.

Notation "'let*' x := m 'in' k" := (bind m (λ x, k))
  (at level 10, x binder, m at level 100, k at level 200).

(** ** The method sets of the request router *)

(** The methods that need a live debuggee (lines 381-390 and 432-443). *)
Definition unsupportedMethods : list string :=
  (String.append "Debugger." <$>
     [ "continueToLocation"; "evaluateOnCallFrame"; "restartFrame";
       "scheduleStepIntoAsync"; "setReturnValue"; "setScriptSource";
       "setVariableValue"; "stepInto"; "stepOut"; "stepOver" ])
  ++ (String.append "Runtime." <$>
     [ "addBinding"; "awaitPromise"; "callFunctionOn"; "compileScript";
       "evaluate"; "getIsolateId"; "getHeapUsage";
       "globalLexicalScopeNames"; "queryObjects"; "removeBinding";
       "runScript"; "terminateExecution" ]).

(** The methods without effect (lines 395-403 and 448-456). *)
Definition noopMethods : list string :=
  (String.append "Debugger." <$>
     [ "disable"; "pause"; "pauseOnAsyncCall"; "setAsyncCallStackDepth";
       "setBlackboxedRanges"; "setBlackboxPatterns"; "setBreakpointsActive";
       "setPauseOnExceptions"; "setSkipAllPauses" ])
  ++ (String.append "Runtime." <$>
     [ "disable"; "discardConsoleEntries"; "enable"; "releaseObject";
       "releaseObjectGroup"; "runIfWaitingForDebugger";
       "setAsyncCallStackDepth"; "setCustomObjectFormatterEnabled";
       "setMaxCallStackSizeToCapture" ]).

(** ** A concrete platform and debug proxy

    An in-memory debug service, on which the adapter can be run: the
    proxy state is the list of breakpoints the service holds. *)

Module Example.

#[export] Instance host : Host := {|
  number := Z;
  Number_ := λ _, 0;
  Number_isNaN := λ _, true;
  Date_parse := λ _, None;
  Date_toISOString := λ _, "";
  Date_toString := λ _, "";
  path_resolve := λ directory file, directory +:+ "/" +:+ file;
  readFileP := λ _, inl (External "ENOENT");
|}.

Definition service := list Breakpoint.

Definition created (r : BreakpointRequest) (p : service) : Breakpoint :=
  {| bp_id := "breakpoint-" +:+ pretty (length p);
     bp_location := req_location r;
     bp_condition := req_condition r;
     bp_action := Some (req_action r);
     bp_isFinalState := None;
     bp_stackFrames := None;
     bp_variableTable := None |}.

#[export] Instance memory : DebugProxy service := {|
  getDebuggerId := λ _, "debugger";
  sourceDirectory := λ _, "/src";
  setBreakpoint := λ r p, (p ++ [created r p], inr (created r p));
  removeBreakpoint := λ i p,
    (List.filter (λ b, negb (bool_decide (Some (bp_id b) = i))) p, inr tt);
  getBreakpoint := λ i p,
    match List.find (λ b, String.eqb (bp_id b) i) p with
    | Some b => (p, inr b)
    | None => (p, inl (External "breakpoint not found"))
    end;
  getBreakpointList := λ final p,
    List.filter (λ b, Bool.eqb (JS.truthyB (bp_isFinalState b)) final) p;
|}.

(** A fresh adapter over the service. *)
Definition adapter (p : service) : Adapter :=
  {| propertyDescriptorListMap := ∅; logger := []; emitted := [];
     debugProxy := p |}.

(** A table entry with a value, and a named member with a back-reference. *)
Definition entry (value : string) (members : option (list Var)) : Var :=
  {| v_name := None; v_value := Some value; v_type := None;
     v_varTableIndex := None; v_members := members; v_status := None |}.

Definition reference (name : string) (k : Z) : Var :=
  {| v_name := Some name; v_value := None; v_type := None;
     v_varTableIndex := Some k; v_members := None; v_status := None |}.

Definition frame (locals arguments : option (list Var)) : StackFrame :=
  {| sf_function := "main";
     sf_location := {| loc_path := "app.js"; loc_line := 3 |};
     sf_arguments := arguments;
     sf_locals := locals |}.

(** A captured snapshot with identifier [s]. *)
Definition snapshot (table : list Var) (frames : list StackFrame)
  : Breakpoint :=
  {| bp_id := "s";
     bp_location := {| loc_path := "app.js"; loc_line := 3 |};
     bp_condition := None;
     bp_action := Some CAPTURE;
     bp_isFinalState := Some true;
     bp_stackFrames := Some frames;
     bp_variableTable := Some table |}.

(** An adapter that holds one (empty) property list, under [s-scope-0]. *)
Definition withScope : @Adapter host service :=
  {| propertyDescriptorListMap := {[ "s-scope-0" := [] ]};
     logger := []; emitted := []; debugProxy := [] |}.

(** The breakpoint that the service files for the first request, when it
    is for line 1338 of [/path]. *)
Definition atLine1338 : Breakpoint :=
  {| bp_id := "breakpoint-0";
     bp_location := {| loc_path := "/path"; loc_line := 1338 |};
     bp_condition := None; bp_action := Some CAPTURE;
     bp_isFinalState := None; bp_stackFrames := None;
     bp_variableTable := None |}.

(** A table entry without a value that carries a status. *)
Definition statusEntry (name : option string) (status : StatusMessage)
  : Var :=
  {| v_name := name; v_value := None; v_type := None;
     v_varTableIndex := None; v_members := None; v_status := Some status |}.

(** A named member with a value. *)
Definition field (name value : string) : Var :=
  {| v_name := Some name; v_value := Some value; v_type := None;
     v_varTableIndex := None; v_members := None; v_status := None |}.

(** A member without value, back-reference or status. *)
Definition note (name : string) : Var :=
  {| v_name := Some name; v_value := None; v_type := None;
     v_varTableIndex := None; v_members := None; v_status := None |}.

Definition errorStatus (isError : bool) : StatusMessage :=
  {| isError := Some isError; refersTo := Some "VARIABLE_VALUE";
     st_description := Some {| format := Some "Max data size reached" |} |}.

(** Captured snapshots. [plainObject]: one object without members.
    [twoObjects]: an object with a member that refers to the second
    entry, and a frame whose last local is the context. *)
Definition plainObject : Breakpoint :=
  snapshot [entry "#<Object>" None] [].

Definition twoObjects : Breakpoint :=
  snapshot
    [ entry "#<Object>" (Some [reference "next" 1]);
      entry "#<Buffer>" None ]
    [ frame (Some [reference "first" 1; reference "context" 1]) None ].

Definition errorWithoutMembers : Breakpoint :=
  snapshot [entry "Error: boom" None] [].

Definition errorWithoutStack : Breakpoint :=
  snapshot [entry "Error: boom" (Some [field "message" "boom"])] [].

Definition contextAtZero : Breakpoint :=
  snapshot [entry "#<Object>" (Some [])]
    [ frame (Some [reference "context" 0]) None ].

Definition memberAtZero : Breakpoint :=
  snapshot [entry "#<Object>" (Some [reference "first" 0])] [].

Definition badStatus : Breakpoint :=
  snapshot [statusEntry None (errorStatus false)] [].




End Example.

(** ** Further vocabulary *)

(** [!s.includes('.')] *)
Fixpoint dotless (s : string) : bool :=
  match s with
  | EmptyString => true
  | String c r => negb (Ascii.eqb c ".") && dotless r
  end.

(** The value of a table entry for an object of class [className]. *)
Definition wrapped (className : string) : string :=
  "#<" +:+ className +:+ ">".

(** A table entry that the first pass rejects at once (line 536). *)
Definition rejectedEntry (variable : Var) : bool :=
  JS.truthyS (v_name variable) || JS.truthyS (v_type variable)
  || JS.truthyN (v_varTableIndex variable).

(** A member or local that [parseVariable] rejects (lines 498-515): it
    has a type or members, both a value and a back-reference, or one of
    them and no name. *)
Definition malformedMember (member : Var) : bool :=
  JS.truthyS (v_type member) || JS.present (v_members member)
  || JS.truthyS (v_value member) && JS.truthyN (v_varTableIndex member)
  || (JS.truthyS (v_value member) || JS.truthyN (v_varTableIndex member))
     && negb (JS.truthyS (v_name member)).

(** A member or local with a name and either a value or a back-reference
    other than 0, and nothing else. *)
Definition wellFormedMember (member : Var) : bool :=
  negb (JS.truthyS (v_type member)) && negb (JS.present (v_members member))
  && JS.truthyS (v_name member)
  && xorb (JS.truthyS (v_value member))
          (JS.truthyN (v_varTableIndex member)).

(** The errors with which the translation of a fetched snapshot can
    fail. *)
Definition translationError (e : Error) : bool :=
  match e with
  | NotCapturedSnapshot _ | InvalidLineNumber _
  | UnexpectedStatusFormat _ | VariableHasTypeOrMembers _
  | VariableHasValueAndIndex _ | VariableWithoutName _
  | TableEntryHasNameTypeIndex _ | ArrayWithoutLength _
  | ErrorWithoutStack _ | UnexpectedValue _ | FrameHasArguments _ => true
  | TypeError what =>
      String.eqb what "Cannot read property 'logger' of undefined"
  | _ => false
  end.

(** ** The command line (index.ts) *)

(** The test of lines 95-96 of index.ts on the flags [keyfile], [project]
    and [default]: the credentials are given in more than one way. *)
Definition conflictingCredentials (keyfile project : option string)
  (default_ : option bool) : bool :=
  JS.truthyS keyfile && JS.truthyS project
  || JS.truthyB default_ && (JS.truthyS keyfile || JS.truthyS project).

(** ** The log lines (logger.ts) *)

(** [s.replace(c, d)] for one-character texts: the first [c] becomes
    [d]. *)
Fixpoint replaceFirst (c d : ascii) (s : string) : string :=
  match s with
  | EmptyString => EmptyString
  | String x r =>
      if Ascii.eqb x c then String d r else String x (replaceFirst c d r)
  end.

(** The line that [winstonFormatPrintf] prints (lines 20-23 of
    logger.ts). *)
Definition logTime (timestamp : string) : string :=
  replaceFirst "T" " " (String.substring 0 19 timestamp).

Definition logLine (timestamp origin level message : string) : string :=
  logTime timestamp +:+ " [" +:+ origin +:+ ", " +:+ level +:+ "] "
  +:+ message.

Section Vocabulary.
Context `{H : Host} {P : Type} `{DP : !DebugProxy P}.

(** The adapter once the debug proxy is in state [p] and the change of
    its breakpoint list has been announced (line 371). *)
Definition announced (s : @Adapter H P) (p : P) : @Adapter H P :=
  {| propertyDescriptorListMap := propertyDescriptorListMap s;
     logger := logger s;
     emitted :=
       emitted s
       ++ [ EmitUpdateBreakpointList
              (breakpointToBreakpointInfo <$> getBreakpointList false p)
              (breakpointToBreakpointInfo <$> getBreakpointList true p) ];
     debugProxy := p |}.

(** The request that [setBreakpointByUrl] sends to the debug proxy
    (lines 361-369), for the one-indexed line [line]. *)
Definition captureAt (url : string) (line : Z)
  (condition : option string) : BreakpointRequest :=
  {| req_action := CAPTURE;
     req_location := {| loc_path := url; loc_line := line |};
     req_condition := condition |}.

(** [s'] holds every property list key of [s], has emitted what [s] has
    and has the debug proxy in the state it has in [s]. *)
Definition grows (s s' : @Adapter H P) : Prop :=
  debugProxy s' = debugProxy s
  ∧ emitted s' = emitted s
  ∧ ∀ k, is_Some (propertyDescriptorListMap s !! k) →
         is_Some (propertyDescriptorListMap s' !! k).

(** The identifier of [object], if it has one, is a key of [lists]: a
    [getProperties] request for it is answered. *)
Definition resolves (lists : gmap string (list PropertyDescriptor))
  (object : RemoteObject) : Prop :=
  ∀ key, ro_objectId object = Some key → is_Some (lists !! key).

(** Every object in the property lists resolves. *)
Definition closed (lists : gmap string (list PropertyDescriptor)) : Prop :=
  ∀ key l pd object,
    lists !! key = Some l → pd ∈ l → pd_value pd = Some object →
    resolves lists object.

(** The objects of the list [l] are primitive values or descriptors of
    the first pass. *)
Definition fromMap (map : gmap Z RemoteObject) (l : list PropertyDescriptor)
  : Prop :=
  ∀ pd object, pd ∈ l → pd_value pd = Some object →
    ro_objectId object = None ∨ ∃ k, map !! k = Some object.

(** The lists of [lists] are those of [lists0] or built from [map]. *)
Definition listsFrom (lists0 : gmap string (list PropertyDescriptor))
  (map : gmap Z RemoteObject)
  (lists : gmap string (list PropertyDescriptor)) : Prop :=
  ∀ key l, lists !! key = Some l → lists0 !! key = Some l ∨ fromMap map l.

End Vocabulary.

(** ** More captured snapshots for the in-memory service *)

Module Sample.
Import Example.

(** A local or member with a value and a back-reference at once. *)
Definition collidingMember : Var :=
  {| v_name := Some "both"; v_value := Some "1"; v_type := None;
     v_varTableIndex := Some 1; v_members := None; v_status := None |}.

(** A table entry that carries a name. *)
Definition namedEntry : Var :=
  {| v_name := Some "request"; v_value := Some "#<Object>"; v_type := None;
     v_varTableIndex := None; v_members := None; v_status := None |}.

Definition frameAtLine (line : Z) (locals : option (list Var)) : StackFrame :=
  {| sf_function := "main";
     sf_location := {| loc_path := "app.js"; loc_line := line |};
     sf_arguments := None;
     sf_locals := locals |}.

Definition lineZero : Breakpoint := snapshot [] [frameAtLine 0 None].

Definition withNamedEntry : Breakpoint := snapshot [namedEntry] [].

Definition arrayWithoutLength : Breakpoint :=
  snapshot [entry "#<Array>" (Some [field "0" "first"])] [].

Definition plainText : Breakpoint := snapshot [entry "hello" None] [].

Definition withCollision : Breakpoint :=
  snapshot [entry "#<Object>" (Some [collidingMember])] [].

Definition withoutContext : Breakpoint :=
  snapshot [entry "#<Object>" (Some [])]
    [frameAtLine 3 (Some [field "count" "1"])].

End Sample.

(** * Properties *)

Section Properties.
Context `{H : Host} {P : Type} `{DP : !DebugProxy P}.

Implicit Types (s : @Adapter H P) (variable : Var)
  (map : gmap Z RemoteObject).

Local Abbreviation parsedFrom := (parsedFrom (P:=P)).
Local Abbreviation listOfEntry := (listOfEntry (P:=P)).

(** ** Running a method body *)

Lemma bind_inr {A B} (m : M A) (k : A → M B) s s' b :
  bind m k s = (s', inr b) →
  ∃ s1 a, m s = (s1, inr a) ∧ k a s1 = (s', inr b).
Proof.
  unfold bind. destruct (m s) as [s1 [e|a]]; [discriminate|eauto].
Qed.

Lemma bind_inl {A B} (m : M A) (k : A → M B) s s' e :
  m s = (s', inl e) → bind m k s = (s', inl e).
Proof. unfold bind. by intros ->. Qed.

Lemma bind_step {A B} (m : M A) (k : A → M B) s s1 a :
  m s = (s1, inr a) → bind m k s = k a s1.
Proof. unfold bind. by intros ->. Qed.

(** ** Line numbers *)

Lemma nearest_exact (z : Z) :
  Z.abs z ≤ JS.MAX_SAFE_INTEGER + 1 → JS.nearest z = z.
Proof.
  intros Hz. unfold JS.nearest.
  by destruct (Z.leb_spec (Z.abs z) (JS.MAX_SAFE_INTEGER + 1)); [|lia].
Qed.

(** C8, as the code has it. For every integer line number [n] from 1 to
    [Number.MAX_SAFE_INTEGER], translating to zero-indexed and back to
    one-indexed gives [n], and so does translating to one-indexed and
    back; the translation to zero-indexed fails for every input
    below 1. *)
Theorem line_translations_inverse (n : Z) :
  (1 ≤ n ≤ JS.MAX_SAFE_INTEGER →
     (∃ z, stackdriverToDevToolsLine n = inr z
           ∧ devToolsToStackdriverLine z = n)
     ∧ stackdriverToDevToolsLine (devToolsToStackdriverLine n) = inr n)
  ∧ (n < 1 → stackdriverToDevToolsLine n = inl (InvalidLineNumber n)).
Proof.
  unfold stackdriverToDevToolsLine, devToolsToStackdriverLine.
  split.
  - unfold JS.MAX_SAFE_INTEGER. intros Hn. split.
    + exists (n - 1). destruct (Z.ltb_spec n 1); [lia|].
      rewrite !nearest_exact by (unfold JS.MAX_SAFE_INTEGER; lia).
      split; [done|lia].
    + rewrite (nearest_exact (n + 1)) by (unfold JS.MAX_SAFE_INTEGER; lia).
      destruct (Z.ltb_spec (n + 1) 1); [lia|].
      rewrite nearest_exact by (unfold JS.MAX_SAFE_INTEGER; lia).
      f_equal. lia.
  - intros Hn. by destruct (Z.ltb_spec n 1); [|lia].
Qed.

(** Within the safe integers the translations are [n + 1] and
    [n - 1]. *)
Lemma devToolsToStackdriverLine_safe (n : Z) :
  JS.isSafeInteger n → devToolsToStackdriverLine n = n + 1.
Proof.
  unfold JS.isSafeInteger, devToolsToStackdriverLine. intros Hn.
  apply nearest_exact. lia.
Qed.

Lemma stackdriverToDevToolsLine_safe (n : Z) :
  1 ≤ n ≤ JS.MAX_SAFE_INTEGER → stackdriverToDevToolsLine n = inr (n - 1).
Proof.
  unfold stackdriverToDevToolsLine. intros Hn.
  destruct (Z.ltb_spec n 1); [lia|].
  rewrite nearest_exact; [done|]. unfold JS.MAX_SAFE_INTEGER in *. lia.
Qed.

(** ** The request router *)

(** The property list stored for an identifier is what [getProperties]
    answers; the adapter is left as it was. *)
Lemma processRequest_getProperties s id objectId :
  processRequest
    {| rq_id := id; rq_method := "Runtime.getProperties";
       rq_params := Some (GetPropertiesParams objectId) |} s
  = match propertyDescriptorListMap s !! objectId with
    | Some l => (s, inr (GetPropertiesReturn l))
    | None => (s, inl (ObjectNotFound (Some objectId)))
    end.
Proof.
  unfold processRequest, processRuntime, bind; simpl.
  by destruct (propertyDescriptorListMap s !! objectId).
Qed.

(** C7. [Runtime.getProperties] with an object identifier that is not in
    the property descriptor list map fails with the not-found error, and
    with a registered identifier it returns exactly the stored list. *)
Theorem getProperties_found_or_not s id objectId :
  let request :=
    {| rq_id := id; rq_method := "Runtime.getProperties";
       rq_params := Some (GetPropertiesParams objectId) |} in
  (propertyDescriptorListMap s !! objectId = None →
     processRequest request s = (s, inl (ObjectNotFound (Some objectId))))
  ∧ (∀ l, propertyDescriptorListMap s !! objectId = Some l →
       processRequest request s = (s, inr (GetPropertiesReturn l))).
Proof.
  intros request. unfold request. rewrite processRequest_getProperties.
  split; [by intros ->|by intros l ->].
Qed.

(** C6. Every request whose method is in the unsupported sets fails,
    whatever its parameters, and every request whose method is in the
    no-op sets returns the empty result, whatever its parameters; the
    adapter is left as it was. *)
Theorem unsupported_fail_noops_empty (request : MessageRequest) s :
  (In (rq_method request) unsupportedMethods →
     processRequest request s = (s, inl (NotSupported (rq_method request))))
  ∧ (In (rq_method request) noopMethods →
     processRequest request s = (s, inr EmptyResponse)).
Proof.
  destruct request as [id method params]. simpl. split; intros Hin.
  - repeat (destruct Hin as [<-|Hin]; [reflexivity|]). destruct Hin.
  - repeat (destruct Hin as [<-|Hin]; [reflexivity|]). destruct Hin.
Qed.

(** C5. [setBreakpointByUrl] with [{lineNumber: 1337, url: "/path"}]: when
    the debug proxy answers with a breakpoint at the one-indexed line
    1338, the response carries the identifier of that breakpoint and one
    location, whose script is the path of the breakpoint, whose line is
    the zero-indexed 1337 and whose column is 0. *)
Theorem setBreakpointByUrl_location s id p' (breakpoint : Breakpoint) :
  setBreakpoint
    {| req_action := CAPTURE;
       req_location := {| loc_path := "/path"; loc_line := 1338 |};
       req_condition := None |} (debugProxy s) = (p', inr breakpoint) →
  loc_line (bp_location breakpoint) = 1338 →
  ∃ s',
    processRequest
      {| rq_id := id; rq_method := "Debugger.setBreakpointByUrl";
         rq_params :=
           Some (SetBreakpointByUrlParams 1337 (Some "/path")
                   None None None None) |} s
    = (s', inr (SetBreakpointByUrlReturn (bp_id breakpoint)
                  [ {| scriptId := loc_path (bp_location breakpoint);
                       lineNumber := 1337;
                       columnNumber := Some 0 |} ])).
Proof.
  intros Hset Hline.
  unfold processRequest, processDebugger; simpl.
  unfold bind at 1; simpl. unfold bind at 1.
  unfold callProxy. simpl.
  rewrite (devToolsToStackdriverLine_safe 1337)
    by (unfold JS.isSafeInteger, JS.MAX_SAFE_INTEGER; lia).
  change (1337 + 1) with 1338. rewrite Hset. unfold bind at 1.
  unfold emitUpdateBreakpointList, emit; simpl.
  unfold bind, lift, ret. rewrite Hline.
  rewrite (stackdriverToDevToolsLine_safe 1338)
    by (unfold JS.MAX_SAFE_INTEGER; lia).
  simpl. eauto.
Qed.


(** ** The status logger *)

(** C2, as the code has it. Called on the adapter, the status logger
    writes one record and returns: at severity [silly] for an entry with a
    status of the expected format, at [silly] for an entry without status
    whose name is allow-listed, and at [info] for any other entry without
    status. For an entry whose status does not have the expected format
    it raises an error and logs nothing. *)
Theorem logVariableStatus_outcomes variable s :
  (∀ status, v_status variable = Some status →
     statusWellFormed variable status = true →
     ∃ m, logVariableStatus ThisAdapter variable s
          = (logged s silly m, inr tt))
  ∧ (∀ status, v_status variable = Some status →
       statusWellFormed variable status = false →
       logVariableStatus ThisAdapter variable s
       = (s, inl (UnexpectedStatusFormat variable)))
  ∧ (v_status variable = None → allowListed variable = true →
       ∃ m, logVariableStatus ThisAdapter variable s
            = (logged s silly m, inr tt))
  ∧ (v_status variable = None → allowListed variable = false →
       ∃ m, logVariableStatus ThisAdapter variable s
            = (logged s info m, inr tt)).
Proof.
  unfold logVariableStatus, allowListed.
  repeat split.
  - intros status -> ->. by eexists.
  - by intros status -> ->.
  - intros -> ->. by eexists.
  - intros -> ->. by eexists.
Qed.

(** The logger touches neither the property lists nor the debug proxy. *)
Lemma logVariableStatus_store this variable s s' r :
  logVariableStatus this variable s = (s', r) →
  propertyDescriptorListMap s' = propertyDescriptorListMap s
  ∧ debugProxy s' = debugProxy s.
Proof.
  unfold logVariableStatus, log, throw.
  destruct (v_status variable) as [status|];
    repeat case_match; intros [= <- <-]; done.
Qed.

(** On the adapter, the only error of the logger is the one of line 199. *)
Lemma logVariableStatus_error variable s s' e :
  logVariableStatus ThisAdapter variable s = (s', inl e) →
  e = UnexpectedStatusFormat variable.
Proof.
  unfold logVariableStatus, log, throw.
  destruct (v_status variable) as [status|];
    repeat case_match; intros [= <- <-]; done.
Qed.

(** Called without a receiver, the logger never returns. *)
Lemma logVariableStatus_detached variable s :
  ∃ e, logVariableStatus ThisUndefined variable s = (s, inl e).
Proof.
  unfold logVariableStatus, log, throw.
  destruct (v_status variable) as [status|]; repeat case_match; eauto.
Qed.


(** ** Identifiers *)

Lemma getObjectId_inj id i j : getObjectId id i = getObjectId id j → i = j.
Proof.
  unfold getObjectId. intros Heq%(inj (String.append id)).
  apply (inj (String.append "-object-")) in Heq. by apply (inj pretty) in Heq.
Qed.

Lemma scopeIdOf_inj id i j : scopeIdOf id i = scopeIdOf id j → i = j.
Proof.
  unfold scopeIdOf. intros Heq%(inj (String.append id)).
  apply (inj (String.append "-scope-")) in Heq. by apply (inj pretty) in Heq.
Qed.

Lemma getObjectId_scopeIdOf id i j : getObjectId id i ≠ scopeIdOf id j.
Proof.
  unfold getObjectId, scopeIdOf. intros Heq%(inj (String.append id)).
  discriminate Heq.
Qed.

Lemma getObjectId_emptyObjectId id i j :
  getObjectId id i ≠ emptyObjectId id j.
Proof.
  unfold getObjectId, emptyObjectId. intros Heq%(inj (String.append id)).
  discriminate Heq.
Qed.

(** ** Parsing of members and locals *)

Lemma parseVariable_store map variable s s' r :
  parseVariable map variable s = (s', r) →
  propertyDescriptorListMap s' = propertyDescriptorListMap s.
Proof.
  unfold parseVariable, throw, ret, bind.
  repeat case_match; try (intros [= <- <-]; done).
  all: intros [= <- <-];
    match goal with
    | Hlog : logVariableStatus _ _ _ = _ |- _ =>
        by apply logVariableStatus_store in Hlog as [? ?]
    end.
Qed.

Lemma mapM_store {A B} (f : A → M B) (l : list A) :
  (∀ x s s' r, f x s = (s', r) →
     propertyDescriptorListMap s' = propertyDescriptorListMap s) →
  ∀ s s' r, mapM f l s = (s', r) →
    propertyDescriptorListMap s' = propertyDescriptorListMap s.
Proof.
  intros Hf. induction l as [|x l IH]; intros s s' r; simpl.
  - by intros [= <- <-].
  - unfold bind at 1. destruct (f x s) as [s1 [e|y]] eqn:Hx.
    + intros [= <- <-]. eauto.
    + unfold bind. destruct (mapM f l s1) as [s2 [e|ys]] eqn:Hl.
      * intros [= <- <-]. etrans; [by eapply IH|by eapply Hf].
      * intros [= <- <-]. etrans; [by eapply IH|by eapply Hf].
Qed.

Lemma parseVariableList_store map l s s' r :
  parseVariableList map l s = (s', r) →
  propertyDescriptorListMap s' = propertyDescriptorListMap s.
Proof.
  unfold parseVariableList, bind.
  destruct (mapM (parseVariable map) l s) as [s1 [e|ys]] eqn:Hl.
  - intros [= <- <-]. eapply mapM_store; [|done]. apply parseVariable_store.
  - intros [= <- <-]. eapply mapM_store; [|done]. apply parseVariable_store.
Qed.


(** ** The second pass *)

Lemma listEntry_other id map variable i s s' r k :
  listEntry id map variable i tt s = (s', r) →
  k ≠ getObjectId id i →
  propertyDescriptorListMap s' !! k = propertyDescriptorListMap s !! k.
Proof.
  unfold listEntry, throw, ret, bind, setProperties. intros Hrun Hk.
  destruct (JS.truthyS (v_type variable)
            || JS.truthyN (v_varTableIndex variable));
    [by injection Hrun as <- <-|].
  destruct (JS.truthyS (v_value variable)); [|by injection Hrun as <- <-].
  destruct (v_members variable) as [members|].
  - destruct (parseVariableList map members s) as [s1 [e|l]] eqn:Hl;
      apply parseVariableList_store in Hl; injection Hrun as <- <-;
      simpl; [by rewrite Hl|].
    rewrite lookup_insert_ne by done. by rewrite Hl.
  - injection Hrun as <- <-. simpl. by rewrite lookup_insert_ne.
Qed.

Lemma listEntry_stored id map variable i s s' u :
  listEntry id map variable i tt s = (s', inr u) →
  JS.truthyS (v_value variable) = true →
  ∃ l, propertyDescriptorListMap s' !! getObjectId id i = Some l
       ∧ listOfEntry map variable i l.
Proof.
  unfold listEntry, listOfEntry, parsedFrom, throw, ret, bind, setProperties.
  intros Hrun Hvalue. rewrite Hvalue in Hrun.
  destruct (JS.truthyS (v_type variable)
            || JS.truthyN (v_varTableIndex variable)); [done|].
  destruct (v_members variable) as [members|].
  - destruct (parseVariableList map members s) as [s1 [e|l]] eqn:Hl; [done|].
    injection Hrun as <- <-. exists l. simpl.
    rewrite lookup_insert_eq. eauto.
  - injection Hrun as <- <-. eexists. simpl.
    by rewrite lookup_insert_eq.
Qed.

Lemma secondPass_other id map table : ∀ i s s' r k,
  forEach (listEntry id map) table i tt s = (s', r) →
  (∀ j, (i ≤ j)%nat → k ≠ getObjectId id j) →
  propertyDescriptorListMap s' !! k = propertyDescriptorListMap s !! k.
Proof.
  induction table as [|variable table IH]; intros i s s' r k; simpl.
  - by intros [= <- <-].
  - unfold bind.
    destruct (listEntry id map variable i tt s) as [s1 [e|[]]] eqn:Hx;
      intros Hrun Hk.
    + injection Hrun as <- <-. eapply listEntry_other; eauto.
    + etrans; [eapply IH; [done|]|eapply listEntry_other; eauto].
      intros j Hj. apply Hk. lia.
Qed.

Lemma secondPass_stored id map table : ∀ i s s' u j variable,
  forEach (listEntry id map) table i tt s = (s', inr u) →
  table !! j = Some variable →
  JS.truthyS (v_value variable) = true →
  ∃ l, propertyDescriptorListMap s' !! getObjectId id (i + j) = Some l
       ∧ listOfEntry map variable (i + j) l.
Proof.
  induction table as [|x table IH]; intros i s s' u j variable; simpl;
    [done|].
  unfold bind.
  destruct (listEntry id map x i tt s) as [s1 [e|[]]] eqn:Hx; [done|].
  intros Hrun Hj Hvalue. destruct j as [|j]; simpl in Hj.
  - injection Hj as ->. rewrite Nat.add_0_r.
    destruct (listEntry_stored _ _ _ _ _ _ _ Hx Hvalue) as (l & Hl & Hlist).
    exists l. split; [|done]. rewrite <- Hl.
    eapply secondPass_other; [done|].
    intros j Hj Heq%getObjectId_inj. lia.
  - replace (i + S j)%nat with (S i + j)%nat by lia. eapply IH; eauto.
Qed.

(** ** The call frames *)

Lemma callFrameOf_other id map stackFrame i s s' r k :
  callFrameOf id map stackFrame i s = (s', r) →
  k ≠ scopeIdOf id i →
  propertyDescriptorListMap s' !! k = propertyDescriptorListMap s !! k.
Proof.
  unfold callFrameOf. intros Hrun Hk. unfold bind at 1 in Hrun.
  match type of Hrun with
  | (let (_, _) := ?m s in _) = _ =>
      assert (∀ s1 x, m s = (s1, x) →
        propertyDescriptorListMap s1 = propertyDescriptorListMap s)
        as Hstore; [|destruct (m s) as [s1 [e|[context l]]] eqn:Hm]
  end.
  { intros s1 x. destruct (sf_locals stackFrame) as [locals|];
      [|by intros [= <- <-]].
    destruct (takeContext map locals) as [context rest]. unfold bind, ret.
    destruct (parseVariableList map rest s) as [s2 [e|l]] eqn:Hl;
      intros [= <- <-]; by apply parseVariableList_store in Hl. }
  - injection Hrun as <- <-. by rewrite (Hstore _ _ eq_refl).
  - specialize (Hstore _ _ eq_refl).
    destruct (JS.present (sf_arguments stackFrame)).
    + injection Hrun as <- <-. by rewrite Hstore.
    + unfold bind, setProperties, lift, ret in Hrun. simpl in Hrun.
      destruct (stackdriverToDevToolsLine _) as [e|line];
        injection Hrun as <- <-; simpl;
        rewrite lookup_insert_ne by done; by rewrite Hstore.
Qed.

(** What a translated frame is made of. *)
Lemma callFrameOf_inr id map stackFrame i s s' callFrame :
  callFrameOf id map stackFrame i s = (s', inr callFrame) →
  sf_arguments stackFrame = None
  ∧ ∃ context l,
      match sf_locals stackFrame with
      | Some locals =>
          context = (takeContext map locals).1
          ∧ parsedFrom map (takeContext map locals).2 l
      | None => context = None ∧ l = []
      end
      ∧ propertyDescriptorListMap s' !! scopeIdOf id i = Some l
      ∧ cf_this callFrame = default (plain "undefined") context.
Proof.
  unfold callFrameOf. intros Hrun. unfold bind at 1 in Hrun.
  match type of Hrun with
  | (let (_, _) := ?m s in _) = _ =>
      destruct (m s) as [s1 [e|[context l]]] eqn:Hm; [done|]
  end.
  destruct (sf_arguments stackFrame); [done|]. split; [done|].
  exists context, l. simpl in Hrun.
  unfold bind, setProperties, lift, ret in Hrun. simpl in Hrun.
  destruct (stackdriverToDevToolsLine _) as [e|line]; [done|].
  injection Hrun as <- <-. simpl. rewrite lookup_insert_eq.
  split; [|done].
  destruct (sf_locals stackFrame) as [locals|].
  - destruct (takeContext map locals) as [context' rest]. simpl.
    unfold bind, ret in Hm.
    destruct (parseVariableList map rest s) as [s2 [e|l']] eqn:Hl; [done|].
    injection Hm as <- <- <-. split; [done|]. by exists s, s2.
  - by injection Hm as <- <- <-.
Qed.

Lemma frames_other id map frames : ∀ i s s' r k,
  mapIndexed (callFrameOf id map) frames i s = (s', r) →
  (∀ j, (i ≤ j)%nat → k ≠ scopeIdOf id j) →
  propertyDescriptorListMap s' !! k = propertyDescriptorListMap s !! k.
Proof.
  induction frames as [|x frames IH]; intros i s s' r k; simpl.
  - by intros [= <- <-].
  - unfold bind at 1.
    destruct (callFrameOf id map x i s) as [s1 [e|y]] eqn:Hx; intros Hrun Hk.
    + injection Hrun as <- <-. eapply callFrameOf_other; eauto.
    + unfold bind, ret in Hrun.
      destruct (mapIndexed (callFrameOf id map) frames (S i) s1)
        as [s2 [e|ys]] eqn:Hrest; injection Hrun as <- <-.
      all: etrans; [eapply IH; [done|]|eapply callFrameOf_other; eauto].
      all: intros j Hj; apply Hk; lia.
Qed.

Lemma frames_inr id map frames : ∀ i s s' callFrames j stackFrame,
  mapIndexed (callFrameOf id map) frames i s = (s', inr callFrames) →
  frames !! j = Some stackFrame →
  ∃ sa sb callFrame,
    callFrameOf id map stackFrame (i + j) sa = (sb, inr callFrame)
    ∧ callFrames !! j = Some callFrame
    ∧ propertyDescriptorListMap s' !! scopeIdOf id (i + j)
      = propertyDescriptorListMap sb !! scopeIdOf id (i + j).
Proof.
  induction frames as [|x frames IH];
    intros i s s' callFrames j stackFrame; simpl; [done|].
  unfold bind at 1.
  destruct (callFrameOf id map x i s) as [s1 [e|y]] eqn:Hx; [done|].
  unfold bind, ret.
  destruct (mapIndexed (callFrameOf id map) frames (S i) s1)
    as [s2 [e|ys]] eqn:Hrest; [done|].
  intros [= <- <-] Hj. destruct j as [|j]; simpl in Hj.
  - injection Hj as ->. rewrite Nat.add_0_r. exists s, s1, y.
    split; [done|]. split; [done|].
    eapply frames_other; [done|]. intros j Hj Heq%scopeIdOf_inj. lia.
  - replace (i + S j)%nat with (S i + j)%nat by lia.
    destruct (IH _ _ _ _ _ _ Hrest Hj) as (sa & sb & callFrame & ? & ? & ?).
    by exists sa, sb, callFrame.
Qed.


(** ** The first pass *)

Lemma describeEntry_inr id variable i map s s' map' :
  describeEntry id variable i map s = (s', inr map') →
  (∀ k, k ≠ Z.of_nat i → map' !! k = map !! k)
  ∧ (JS.truthyS (v_value variable) = true →
     ∃ d, map' !! Z.of_nat i = Some d
          ∧ ro_objectId d = assignedId id variable i (ro_className d)).
Proof.
  unfold describeEntry, assignedId, throw. intros Hrun.
  destruct (JS.truthyS (v_name variable) || JS.truthyS (v_type variable)
            || JS.truthyN (v_varTableIndex variable)); [done|].
  destruct (JS.truthyS (v_value variable)).
  - unfold bind at 1, lift in Hrun.
    destruct (shapeOf variable _) as [e|shape]; [done|].
    unfold bind, ret, setProperties in Hrun.
    destruct (JS.present (v_members variable)).
    + injection Hrun as <- <-. split.
      * intros k Hk. by rewrite lookup_insert_ne.
      * intros _. eexists. by rewrite lookup_insert_eq.
    + destruct (bool_decide (sh_className shape = Some "Object")) eqn:Hc;
        injection Hrun as <- <-; (split;
          [intros k Hk; by rewrite lookup_insert_ne
          |intros _; eexists; rewrite lookup_insert_eq; split; [done|];
           simpl; by rewrite Hc]).
  - unfold bind, ret in Hrun.
    destruct (logVariableStatus ThisAdapter variable s) as [s1 [e|[]]];
      [done|].
    by injection Hrun as <- <-.
Qed.

(** The first pass raises data-shape errors only. *)
Lemma describeEntry_inl id variable i map s s' e :
  describeEntry id variable i map s = (s', inl e) → dataShape e = true.
Proof.
  unfold describeEntry, throw. intros Hrun.
  destruct (JS.truthyS (v_name variable) || JS.truthyS (v_type variable)
            || JS.truthyN (v_varTableIndex variable));
    [by injection Hrun as <- <-|].
  destruct (JS.truthyS (v_value variable)).
  - unfold bind at 1, lift in Hrun.
    destruct (shapeOf variable _) as [e'|shape] eqn:Hshape.
    + injection Hrun as <- <-. revert Hshape. unfold shapeOf.
      repeat case_match; by intros [= <-].
    + unfold bind, ret, setProperties in Hrun. by repeat case_match.
  - unfold bind, ret in Hrun.
    destruct (logVariableStatus ThisAdapter variable s) as [s1 [e'|[]]] eqn:Hl;
      [|done].
    injection Hrun as <- <-.
    by rewrite (logVariableStatus_error _ _ _ _ Hl).
Qed.

(** A value that starts with [Error] is not empty and is not of the form
    [#<...>]. *)
Lemma startsWith_Error value :
  JS.startsWith "Error" value = true →
  JS.truthyS (Some value) = true ∧ JS.startsWith "#<" value = false.
Proof.
  unfold JS.startsWith. destruct value as [|c value]; [discriminate|].
  change (String.prefix "Error" (String c value))
    with (if ascii_dec "E" c then String.prefix "rror" value else false).
  destruct (ascii_dec "E" c) as [<-|]; [|discriminate].
  intros _. split; reflexivity.
Qed.

Lemma describeEntry_Error id variable i map s value :
  v_value variable = Some value →
  JS.startsWith "Error" value = true →
  v_members variable = None →
  ∃ e, describeEntry id variable i map s = (s, inl e) ∧ dataShape e = true.
Proof.
  intros Hvalue Hstarts Hmembers.
  destruct (startsWith_Error _ Hstarts) as [Htruthy Hwrapped].
  unfold describeEntry, throw.
  destruct (JS.truthyS (v_name variable) || JS.truthyS (v_type variable)
            || JS.truthyN (v_varTableIndex variable)); [by eexists|].
  rewrite Hvalue, Htruthy. unfold bind at 1, lift, shapeOf. simpl.
  rewrite Hwrapped, Hstarts, Hmembers. simpl. by eexists.
Qed.

Lemma firstPass_inl id table : ∀ i map s s' e,
  forEach (describeEntry id) table i map s = (s', inl e) →
  dataShape e = true.
Proof.
  induction table as [|x table IH]; intros i map s s' e; simpl; [done|].
  unfold bind.
  destruct (describeEntry id x i map s) as [s1 [e'|map1]] eqn:Hx.
  - intros [= <- <-]. by eapply describeEntry_inl.
  - apply IH.
Qed.

Lemma firstPass_Error id table : ∀ i map s j variable value,
  table !! j = Some variable →
  v_value variable = Some value →
  JS.startsWith "Error" value = true →
  v_members variable = None →
  ∃ s' e, forEach (describeEntry id) table i map s = (s', inl e).
Proof.
  induction table as [|x table IH]; intros i map s j variable value Hj;
    simpl; [done|].
  intros Hvalue Hstarts Hmembers. unfold bind. destruct j as [|j].
  - injection Hj as ->.
    destruct (describeEntry_Error id variable i map s value)
      as (e & -> & _); eauto.
  - destruct (describeEntry id x i map s) as [s1 [e|map1]]; [eauto|].
    eapply IH; eauto.
Qed.

Lemma firstPass_other id table : ∀ i map s s' map' k,
  forEach (describeEntry id) table i map s = (s', inr map') →
  k < Z.of_nat i →
  map' !! k = map !! k.
Proof.
  induction table as [|x table IH]; intros i map s s' map' k; simpl.
  - by intros [= <- <-].
  - unfold bind.
    destruct (describeEntry id x i map s) as [s1 [e|map1]] eqn:Hx; [done|].
    intros Hrun Hk. apply describeEntry_inr in Hx as [Hother _].
    rewrite (IH _ _ _ _ _ _ Hrun) by lia. apply Hother. lia.
Qed.

Lemma firstPass_assigned id table : ∀ i map s s' map' j variable,
  forEach (describeEntry id) table i map s = (s', inr map') →
  table !! j = Some variable →
  JS.truthyS (v_value variable) = true →
  ∃ d, map' !! Z.of_nat (i + j) = Some d
       ∧ ro_objectId d = assignedId id variable (i + j) (ro_className d).
Proof.
  induction table as [|x table IH]; intros i map s s' map' j variable;
    simpl; [done|].
  unfold bind.
  destruct (describeEntry id x i map s) as [s1 [e|map1]] eqn:Hx; [done|].
  intros Hrun Hj Hvalue. destruct j as [|j]; simpl in Hj.
  - injection Hj as ->. rewrite Nat.add_0_r.
    apply describeEntry_inr in Hx as [_ Hthis].
    destruct (Hthis Hvalue) as (d & Hd & Hid). exists d. split; [|done].
    rewrite <- Hd. eapply firstPass_other; [done|lia].
  - replace (i + S j)%nat with (S i + j)%nat by lia. eapply IH; eauto.
Qed.


(** ** Frames with arguments *)





(** ** Snapshot translation *)

Lemma loadSnapshot_fetched snapshotId s p snapshot :
  getBreakpoint snapshotId (debugProxy s) = (p, inr snapshot) →
  loadSnapshot snapshotId s = translateSnapshot snapshot (fetched s p).
Proof.
  intros Hget. unfold loadSnapshot, bind, callProxy. by rewrite Hget.
Qed.

(** The stages of a translation that returns. *)
Lemma translateSnapshot_inr snapshot s s' event :
  translateSnapshot snapshot s = (s', inr event) →
  JS.truthyB (bp_isFinalState snapshot) = true
  ∧ ∃ s1 map s2,
    firstPass snapshot s = (s1, inr map)
    ∧ forEach (listEntry (bp_id snapshot) map) (tableOf snapshot) 0%nat tt s1
      = (s2, inr tt)
    ∧ mapIndexed (callFrameOf (bp_id snapshot) map) (framesOf snapshot)
        0%nat s2 = (s', inr (callFrames event)).
Proof.
  unfold translateSnapshot, firstPass, tableOf, framesOf.
  destruct (JS.truthyB (bp_isFinalState snapshot)); [simpl|done].
  intros (s1 & map & Hfirst & Hrun)%bind_inr.
  apply bind_inr in Hrun as (s2 & [] & Hsecond & Hrun).
  apply bind_inr in Hrun as (s3 & frames & Hframes & Hrun).
  injection Hrun as <- <-. split; [done|]. by exists s1, map, s2.
Qed.

(** C1, as the code has it. When [loadSnapshot] returns, the property
    list that the second pass computed for a table entry with a value is
    stored under the key [<snapshot id>-object-<index>]. That key is the
    identifier the first pass assigned to the entry exactly when the entry
    has a members list; for an entry without members the singleton list
    is stored under that key as well, while the first pass assigned the
    [-empty-] identifier or none. *)
Theorem secondPass_stores_under_object_key
  snapshotId s p snapshot s' event i variable :
  getBreakpoint snapshotId (debugProxy s) = (p, inr snapshot) →
  loadSnapshot snapshotId s = (s', inr event) →
  tableOf snapshot !! i = Some variable →
  JS.truthyS (v_value variable) = true →
  ∃ s1 map l d,
    firstPass snapshot (fetched s p) = (s1, inr map)
    ∧ propertyDescriptorListMap s' !! getObjectId (bp_id snapshot) i = Some l
    ∧ listOfEntry map variable i l
    ∧ map !! Z.of_nat i = Some d
    ∧ ro_objectId d
      = assignedId (bp_id snapshot) variable i (ro_className d)
    ∧ (ro_objectId d = Some (getObjectId (bp_id snapshot) i)
       ↔ is_Some (v_members variable)).
Proof.
  intros Hget Hload Hi Hvalue.
  rewrite (loadSnapshot_fetched _ _ _ _ Hget) in Hload.
  apply translateSnapshot_inr in Hload
    as (_ & s1 & map & s2 & H1 & H2 & H3).
  destruct (secondPass_stored _ _ _ _ _ _ _ _ _ H2 Hi Hvalue)
    as (l & Hl & Hlist).
  destruct (firstPass_assigned _ _ _ _ _ _ _ _ _ H1 Hi Hvalue)
    as (d & Hd & Hid).
  simpl in Hl, Hlist, Hd, Hid.
  exists s1, map, l, d. repeat split; try done.
  - rewrite <- Hl. eapply frames_other; [done|].
    intros j _. apply getObjectId_scopeIdOf.
  - rewrite Hid. unfold assignedId.
    destruct (v_members variable); simpl; [by eauto|].
    case_bool_decide; [|done].
    intros [= Heq]. symmetry in Heq. by apply getObjectId_emptyObjectId in Heq.
  - rewrite Hid. unfold assignedId. by intros [members ->].
Qed.

(** C3, as the code has it. A table entry whose value starts with
    [Error] and that has no members list makes the translation of a
    captured snapshot fail with a data-shape error. With a members list
    that has no member named [stack], the entry is described as an
    [Error] with the description [Error], without an error. *)
Theorem error_entry_without_members
  snapshotId s p snapshot variable value :
  JS.startsWith "Error" value = true →
  v_value variable = Some value →
  (v_members variable = None →
   getBreakpoint snapshotId (debugProxy s) = (p, inr snapshot) →
   bp_isFinalState snapshot = Some true →
   variable ∈ tableOf snapshot →
   ∃ s' e, loadSnapshot snapshotId s = (s', inl e) ∧ dataShape e = true)
  ∧ (∀ members, v_members variable = Some members →
       Forall (λ member, v_name member ≠ Some "stack") members →
       shapeOf variable value
       = inr {| sh_className := Some "Error"; sh_subtype := Some "error";
                sh_description := Some "Error" |}).
Proof.
  intros Hstarts Hvalue. split.
  - intros Hmembers Hget Hfinal [i Hi]%list_elem_of_lookup.
    rewrite (loadSnapshot_fetched _ _ _ _ Hget).
    unfold translateSnapshot. rewrite Hfinal. simpl.
    destruct (firstPass_Error (bp_id snapshot) _ 0%nat ∅ (fetched s p)
                _ _ _ Hi Hvalue Hstarts Hmembers) as (s' & e & Hfirst).
    exists s', e. split.
    + by apply bind_inl.
    + by eapply firstPass_inl.
  - intros members Hmembers Hnone.
    destruct (startsWith_Error _ Hstarts) as [_ Hwrapped].
    unfold shapeOf. rewrite Hwrapped, Hstarts, Hmembers. simpl.
    replace (List.find _ members) with (@None Var); [done|].
    symmetry. clear Hmembers.
    induction Hnone as [|member members Hname _ IH]; [done|].
    cbn [List.find]. unfold named at 1.
    rewrite bool_decide_false by done. exact IH.
Qed.

(** C4, as the code has it. When [loadSnapshot] returns and the last
    local of a frame is named [context] and carries a back-reference
    [k] other than 0, the [this] of the call frame is the descriptor of
    the first pass at index [k] (the [undefined] object when there is
    none), and the property list stored for the scope of the frame is
    parsed from the locals without that last entry. *)
Theorem context_local_is_this
  snapshotId s p snapshot s' event j stackFrame locals contextVariable k :
  getBreakpoint snapshotId (debugProxy s) = (p, inr snapshot) →
  loadSnapshot snapshotId s = (s', inr event) →
  framesOf snapshot !! j = Some stackFrame →
  sf_locals stackFrame = Some locals →
  last locals = Some contextVariable →
  v_name contextVariable = Some "context" →
  v_varTableIndex contextVariable = Some k →
  k ≠ 0 →
  ∃ s1 map callFrame l,
    firstPass snapshot (fetched s p) = (s1, inr map)
    ∧ callFrames event !! j = Some callFrame
    ∧ cf_this callFrame = default (plain "undefined") (map !! k)
    ∧ propertyDescriptorListMap s' !! scopeIdOf (bp_id snapshot) j = Some l
    ∧ parsedFrom map (removelast locals) l.
Proof.
  intros Hget Hload Hj Hlocals Hlast Hname Hindex Hk.
  rewrite (loadSnapshot_fetched _ _ _ _ Hget) in Hload.
  apply translateSnapshot_inr in Hload
    as (_ & s1 & map & s2 & H1 & H2 & H3).
  destruct (frames_inr _ _ _ _ _ _ _ _ _ H3 Hj)
    as (sa & sb & callFrame & Hframe & Hcf & Hkept).
  apply callFrameOf_inr in Hframe as (_ & context & l & Hparts & Hl & Hthis).
  rewrite Hlocals in Hparts. unfold takeContext in Hparts.
  rewrite Hlast, Hname, Hindex in Hparts. simpl in Hparts, Hkept, Hl.
  destruct (Z.eqb_spec k 0) as [|_]; [done|]. simpl in Hparts.
  destruct Hparts as [-> Hparsed].
  exists s1, map, callFrame, l. repeat split; try done.
  by rewrite Hkept.
Qed.



(** ** Members without a value and with the back-reference 0 *)

(** For a member or local without a value whose back-reference is 0,
    [parseVariable] does not look the reference up: it reaches the status
    logger, or one of the guards before it. As the logger is called
    without a receiver, no property descriptor and no [null] is
    returned. *)
Lemma parseVariable_index_zero map variable s :
  JS.truthyS (v_value variable) = false →
  v_varTableIndex variable = Some 0 →
  ∃ e, parseVariable map variable s = (s, inl e).
Proof.
  intros Hvalue Hindex. unfold parseVariable, throw.
  rewrite Hvalue, Hindex. simpl.
  destruct (JS.truthyS (v_type variable) || JS.present (v_members variable));
    [eauto|].
  destruct (logVariableStatus_detached variable s) as (e & Hlog).
  exists e. by apply bind_inl.
Qed.

(** Had the logger been called on the adapter, as the first pass does,
    such a member without status would have been skipped. *)
Lemma logVariableStatus_without_status variable s :
  v_status variable = None →
  ∃ s', logVariableStatus ThisAdapter variable s = (s', inr tt).
Proof.
  intros Hstatus. unfold logVariableStatus, log. rewrite Hstatus.
  case_match; eauto.
Qed.

(** C9 fails on the code. A member or local without a value whose
    back-reference is 0 (and that is otherwise well formed: no type, no
    members, no status of an unexpected format) is not resolved to the
    descriptor at index 0 and reaches the status logger; but the logger is
    called without its receiver, so reading [this.logger] raises a
    [TypeError]: [parseVariable] does not return [null], and the list of
    members or locals that holds the entry is not built. Called on the
    adapter, as in the first pass, the logger returns. *)
Theorem back_reference_zero_raises map variable s :
  JS.truthyS (v_value variable) = false →
  v_varTableIndex variable = Some 0 →
  JS.truthyS (v_type variable) = false →
  v_members variable = None →
  (∀ status, v_status variable = Some status →
     statusWellFormed variable status = true) →
  parseVariable map variable s
  = (s, inl (TypeError "Cannot read property 'logger' of undefined"))
  ∧ (∀ rest, parseVariableList map (variable :: rest) s
       = (s, inl (TypeError "Cannot read property 'logger' of undefined")))
  ∧ ∃ s', logVariableStatus ThisAdapter variable s = (s', inr tt).
Proof.
  intros Hvalue Hindex Htype Hmembers Hstatus.
  assert (logVariableStatus ThisUndefined variable s
          = (s, inl (TypeError "Cannot read property 'logger' of undefined")))
    as Hlog.
  { unfold logVariableStatus, log, throw.
    destruct (v_status variable) as [status|]; [|by case_match].
    by rewrite (Hstatus status eq_refl). }
  assert (parseVariable map variable s
          = (s, inl (TypeError "Cannot read property 'logger' of undefined")))
    as Hparse.
  { unfold parseVariable. rewrite Hvalue, Hindex, Htype, Hmembers. simpl.
    by apply bind_inl. }
  split; [done|]. split.
  - intros rest. unfold parseVariableList. simpl.
    apply bind_inl. by apply bind_inl.
  - unfold logVariableStatus, log.
    destruct (v_status variable) as [status|]; [|case_match; eauto].
    rewrite (Hstatus status eq_refl). eauto.
Qed.

End Properties.

(** * The theorems on the in-memory service *)

Import Example.

Local Abbreviation state := (@Adapter host service).

(** ** C8 *)

Lemma line_translations_inverse_witness :
  ((∃ z, stackdriverToDevToolsLine 1338 = inr z
         ∧ devToolsToStackdriverLine z = 1338)
   ∧ stackdriverToDevToolsLine (devToolsToStackdriverLine 1338) = inr 1338)
  ∧ stackdriverToDevToolsLine 0 = inl (InvalidLineNumber 0).
Proof.
  split.
  - apply (proj1 (line_translations_inverse 1338)).
    unfold JS.MAX_SAFE_INTEGER. lia.
  - apply (proj2 (line_translations_inverse 0)). lia.
Defined.

(** The line number [2^53] is a number and at least 1, but one more is
    not a number: the sum rounds back to [2^53], and translating to
    one-indexed and back gives [2^53 - 1]. *)
Lemma line_round_trip_lost :
  JS.nearest 9007199254740992 = 9007199254740992
  ∧ 1 ≤ 9007199254740992
  ∧ devToolsToStackdriverLine 9007199254740992 = 9007199254740992
  ∧ stackdriverToDevToolsLine (devToolsToStackdriverLine 9007199254740992)
    = inr 9007199254740991
  ∧ stackdriverToDevToolsLine (devToolsToStackdriverLine 9007199254740992)
    ≠ inr 9007199254740992.
Proof.
  split; [reflexivity|]. split; [lia|]. split; [reflexivity|].
  split; [reflexivity|]. vm_compute. discriminate.
Qed.

(** ** C7 *)

Lemma getProperties_found_or_not_witness :
  processRequest
    {| rq_id := 1; rq_method := "Runtime.getProperties";
       rq_params := Some (GetPropertiesParams "s-scope-1") |} withScope
  = (withScope, inl (ObjectNotFound (Some "s-scope-1")))
  ∧ processRequest
      {| rq_id := 2; rq_method := "Runtime.getProperties";
         rq_params := Some (GetPropertiesParams "s-scope-0") |} withScope
    = (withScope, inr (GetPropertiesReturn [])).
Proof.
  split.
  - apply (proj1 (getProperties_found_or_not withScope 1 "s-scope-1")).
    reflexivity.
  - apply (proj2 (getProperties_found_or_not withScope 2 "s-scope-0")).
    reflexivity.
Defined.

(** ** C6 *)

Lemma unsupported_fail_noops_empty_witness :
  processRequest
    {| rq_id := 1; rq_method := "Debugger.stepInto"; rq_params := None |}
    (adapter [])
  = (adapter [], inl (NotSupported "Debugger.stepInto"))
  ∧ processRequest
      {| rq_id := 2; rq_method := "Runtime.releaseObject";
         rq_params := Some (GetPropertiesParams "s-object-0") |}
      (adapter [])
    = (adapter [], inr EmptyResponse).
Proof.
  split.
  - apply (proj1 (unsupported_fail_noops_empty
                    {| rq_id := 1; rq_method := "Debugger.stepInto";
                       rq_params := None |} (adapter []))).
    simpl. tauto.
  - apply (proj2 (unsupported_fail_noops_empty
                    {| rq_id := 2; rq_method := "Runtime.releaseObject";
                       rq_params := Some (GetPropertiesParams "s-object-0") |}
                    (adapter []))).
    simpl. tauto.
Defined.

(** ** C5 *)

Lemma setBreakpointByUrl_location_witness :
  ∃ s',
    processRequest
      {| rq_id := 0; rq_method := "Debugger.setBreakpointByUrl";
         rq_params :=
           Some (SetBreakpointByUrlParams 1337 (Some "/path")
                   None None None None) |} (adapter [])
    = (s', inr (SetBreakpointByUrlReturn "breakpoint-0"
                  [ {| scriptId := "/path"; lineNumber := 1337;
                       columnNumber := Some 0 |} ])).
Proof.
  apply (setBreakpointByUrl_location (adapter []) 0 [atLine1338] atLine1338);
    reflexivity.
Defined.


(** ** C2 *)

Lemma logVariableStatus_outcomes_witness :
  (∃ m, logVariableStatus ThisAdapter (statusEntry None (errorStatus true))
          (adapter [])
        = (logged (adapter []) silly m, inr tt))
  ∧ logVariableStatus ThisAdapter (statusEntry None (errorStatus false))
      (adapter [])
    = (adapter [],
       inl (UnexpectedStatusFormat (statusEntry None (errorStatus false))))
  ∧ (∃ m, logVariableStatus ThisAdapter (note "baseUrl") (adapter [])
          = (logged (adapter []) silly m, inr tt))
  ∧ (∃ m, logVariableStatus ThisAdapter (note "message") (adapter [])
          = (logged (adapter []) info m, inr tt)).
Proof.
  split; [|split; [|split]].
  - eapply (proj1 (logVariableStatus_outcomes
                     (statusEntry None (errorStatus true)) (adapter [])));
      reflexivity.
  - eapply (proj1 (proj2 (logVariableStatus_outcomes
                     (statusEntry None (errorStatus false)) (adapter []))));
      reflexivity.
  - eapply (proj1 (proj2 (proj2 (logVariableStatus_outcomes
                     (note "baseUrl") (adapter [])))));
      reflexivity.
  - eapply (proj2 (proj2 (proj2 (logVariableStatus_outcomes
                     (note "message") (adapter [])))));
      reflexivity.
Defined.

(** C2 as stated fails: a table entry without a value is routed to the
    status logger, and when its status says [isError: false] the logger
    raises, and so does [loadSnapshot]. *)
Lemma logVariableStatus_raises :
  let variable := statusEntry None (errorStatus false) in
  JS.truthyS (v_value variable) = false
  ∧ logVariableStatus ThisAdapter variable (adapter [badStatus])
    = (adapter [badStatus], inl (UnexpectedStatusFormat variable))
  ∧ loadSnapshot "s" (adapter [badStatus])
    = (adapter [badStatus], inl (UnexpectedStatusFormat variable)).
Proof. split; [|split; [|try split]]; vm_compute; reflexivity. Qed.

(** ** C1 *)

Lemma secondPass_stores_under_object_key_witness :
  ∃ (s' : state) s1 map l d,
    firstPass twoObjects (fetched (adapter [twoObjects]) [twoObjects])
    = (s1, inr map)
    ∧ propertyDescriptorListMap s' !! getObjectId "s" 0 = Some l
    ∧ listOfEntry (P:=service) map
        (entry "#<Object>" (Some [reference "next" 1])) 0 l
    ∧ map !! 0 = Some d
    ∧ ro_objectId d
      = assignedId "s" (entry "#<Object>" (Some [reference "next" 1])) 0
          (ro_className d)
    ∧ (ro_objectId d = Some (getObjectId "s" 0)
       ↔ is_Some (Some [reference "next" 1])).
Proof.
  assert (∃ s' event,
    loadSnapshot "s" (adapter [twoObjects]) = (s', inr event))
    as (s' & event & Hload) by (vm_compute; eauto).
  exists s'.
  apply (secondPass_stores_under_object_key "s" (adapter [twoObjects])
           [twoObjects] twoObjects s' event 0%nat
           (entry "#<Object>" (Some [reference "next" 1])));
    [reflexivity|exact Hload|reflexivity|reflexivity].
Defined.

(** C1 as stated fails: for the object without members the first pass
    assigns the identifier [s-empty-0], and what [loadSnapshot] leaves
    under that identifier is not the singleton list of the second pass,
    which is stored under [s-object-0]. *)
Lemma secondPass_key_not_assigned :
  let variable := entry "#<Object>" None in
  ∃ s1 map d (s' : state) event,
    firstPass plainObject (adapter [plainObject]) = (s1, inr map)
    ∧ map !! 0 = Some d
    ∧ ro_objectId d = Some "s-empty-0"
    ∧ loadSnapshot "s" (adapter [plainObject]) = (s', inr event)
    ∧ propertyDescriptorListMap s' !! "s-empty-0"
      ≠ Some [selfProperty map variable 0]
    ∧ propertyDescriptorListMap s' !! "s-object-0"
      = Some [selfProperty map variable 0].
Proof.
  intros variable.
  destruct (firstPass plainObject (adapter [plainObject]))
    as [s1 [e|map]] eqn:Hfirst; [by vm_compute in Hfirst|].
  destruct (loadSnapshot "s" (adapter [plainObject]))
    as [s' [e|event]] eqn:Hload; [by vm_compute in Hload|].
  vm_compute in Hfirst. vm_compute in Hload.
  injection Hfirst as <- <-. injection Hload as <- <-.
  eexists _, _, _, _, _.
  split; [reflexivity|]. split; [vm_compute; reflexivity|].
  split; [reflexivity|]. split; [reflexivity|].
  split; [vm_compute; discriminate|vm_compute; reflexivity].
Qed.

(** ** C3 *)

Lemma error_entry_without_members_witness :
  (∃ s' e, loadSnapshot "s" (adapter [errorWithoutMembers]) = (s', inl e)
           ∧ dataShape e = true)
  ∧ shapeOf (entry "Error: boom" (Some [field "message" "boom"])) "Error: boom"
    = inr {| sh_className := Some "Error"; sh_subtype := Some "error";
             sh_description := Some "Error" |}.
Proof.
  split.
  - apply (proj1 (error_entry_without_members "s"
                    (adapter [errorWithoutMembers]) [errorWithoutMembers]
                    errorWithoutMembers (entry "Error: boom" None)
                    "Error: boom" eq_refl eq_refl));
      [reflexivity|reflexivity|reflexivity|apply list_elem_of_here].
  - apply (proj2 (error_entry_without_members "s"
                    (adapter [errorWithoutStack]) [errorWithoutStack]
                    errorWithoutStack
                    (entry "Error: boom" (Some [field "message" "boom"]))
                    "Error: boom" eq_refl eq_refl) [field "message" "boom"]);
      [reflexivity|].
    repeat constructor. discriminate.
Defined.

(** C3 as stated fails: an entry whose value starts with [Error] and
    whose members have no [stack] is translated without an error. *)
Lemma error_entry_without_stack_accepted :
  let variable := entry "Error: boom" (Some [field "message" "boom"]) in
  tableOf errorWithoutStack = [variable]
  ∧ JS.startsWith "Error" "Error: boom" = true
  ∧ List.find (named "stack") [field "message" "boom"] = None
  ∧ ∃ s' event,
      loadSnapshot "s" (adapter [errorWithoutStack]) = (s', inr event).
Proof.
  intros variable.
  split; [reflexivity|]. split; [reflexivity|]. split; [reflexivity|].
  vm_compute. do 2 eexists. reflexivity.
Qed.

(** ** C4 *)

Lemma context_local_is_this_witness :
  ∃ (s' : state) event s1 map callFrame l,
    firstPass twoObjects (fetched (adapter [twoObjects]) [twoObjects])
    = (s1, inr map)
    ∧ callFrames event !! 0%nat = Some callFrame
    ∧ cf_this callFrame = default (plain "undefined") (map !! 1)
    ∧ propertyDescriptorListMap s' !! scopeIdOf "s" 0 = Some l
    ∧ parsedFrom (P:=service) map
        (removelast [reference "first" 1; reference "context" 1]) l.
Proof.
  assert (∃ s' event,
    loadSnapshot "s" (adapter [twoObjects]) = (s', inr event))
    as (s' & event & Hload) by (vm_compute; eauto).
  exists s', event.
  apply (context_local_is_this "s" (adapter [twoObjects]) [twoObjects]
           twoObjects s' event 0%nat
           (frame (Some [reference "first" 1; reference "context" 1]) None)
           [reference "first" 1; reference "context" 1]
           (reference "context" 1) 1);
    [reflexivity|exact Hload|reflexivity|reflexivity|reflexivity
    |reflexivity|reflexivity|lia].
Defined.

(** C4 as stated fails for the back-reference 0: the context local is
    not taken from the locals, and [loadSnapshot] returns no call frame
    whose [this] is the descriptor of the first pass at index 0. *)
Lemma context_local_at_index_zero :
  ∃ s1 map d,
    firstPass contextAtZero (adapter [contextAtZero]) = (s1, inr map)
    ∧ map !! 0 = Some d
    ∧ takeContext map [reference "context" 0]
      = (None, [reference "context" 0])
    ∧ ¬ ∃ (s' : state) event callFrame,
          loadSnapshot "s" (adapter [contextAtZero]) = (s', inr event)
          ∧ callFrames event !! 0%nat = Some callFrame
          ∧ cf_this callFrame = d.
Proof.
  destruct (firstPass contextAtZero (adapter [contextAtZero]))
    as [s1 [e|map]] eqn:Hfirst; [by vm_compute in Hfirst|].
  vm_compute in Hfirst. injection Hfirst as <- <-.
  eexists _, _, _. split; [reflexivity|]. split; [vm_compute; reflexivity|].
  split; [reflexivity|].
  intros (s' & event & callFrame & Hload & _). vm_compute in Hload.
  discriminate Hload.
Qed.

(** ** C9 *)

Lemma back_reference_zero_raises_witness :
  let member := reference "first" 0 in
  let s := adapter [memberAtZero] in
  (parseVariable ∅ member s
   = (s, inl (TypeError "Cannot read property 'logger' of undefined"))
   ∧ (∀ rest, parseVariableList ∅ (member :: rest) s
        = (s, inl (TypeError "Cannot read property 'logger' of undefined")))
   ∧ ∃ s', logVariableStatus ThisAdapter member s = (s', inr tt))
  ∧ loadSnapshot "s" s
    = (fetched
         {| propertyDescriptorListMap := ∅; logger := []; emitted := [];
            debugProxy := [memberAtZero] |} [memberAtZero],
       inl (TypeError "Cannot read property 'logger' of undefined")).
Proof.
  intros member s. split.
  - apply (back_reference_zero_raises ∅ member s);
      [reflexivity|reflexivity|reflexivity|reflexivity|discriminate].
  - vm_compute. reflexivity.
Defined.

(** ** C10 *)



(** * Further properties of the adapter *)

Section MoreProperties.
Context `{H : Host} {P : Type} `{DP : !DebugProxy P}.

Implicit Types (s : @Adapter H P) (variable : Var)
  (map : gmap Z RemoteObject).

Local Abbreviation parsedFrom := (parsedFrom (P:=P)).
Local Abbreviation listOfEntry := (listOfEntry (P:=P)).

(** ** The request router *)

(** Runs a straight-line body to its outcomes. *)
Ltac outcomes :=
  unfold paramsOf, emitUpdateBreakpointList, callProxy, bind, lift, emit,
    ret, throw;
  repeat (case_match; simplify_eq/=);
  try (intros ?; simplify_eq/=).

Lemma processDebugger_keeps_store (request : MessageRequest) method s s' r :
  processDebugger request method s = (s', r) →
  propertyDescriptorListMap s' = propertyDescriptorListMap s
  ∧ logger s' = logger s.
Proof.
  unfold processDebugger.
  destruct (selectCase DebuggerMethod.names method) as [[]|];
    outcomes; done.
Qed.

Lemma processRuntime_keeps_store (request : MessageRequest) method s s' r :
  processRuntime request method s = (s', r) →
  propertyDescriptorListMap s' = propertyDescriptorListMap s
  ∧ logger s' = logger s.
Proof.
  unfold processRuntime.
  destruct (selectCase RuntimeMethod.names method) as [[]|];
    outcomes; done.
Qed.

(** X1. No request changes the property descriptor lists or writes to
    the logger, whether it is answered or fails: the lists change only
    when a snapshot is loaded. *)
Theorem processRequest_keeps_store (request : MessageRequest) s s' r :
  processRequest request s = (s', r) →
  propertyDescriptorListMap s' = propertyDescriptorListMap s
  ∧ logger s' = logger s.
Proof.
  unfold processRequest.
  destruct (bool_decide _); [apply processDebugger_keeps_store|].
  destruct (bool_decide _); [apply processRuntime_keeps_store|].
  by intros [= <- <-].
Qed.


(** X2. [setBreakpointByUrl] without parameters, without [url] or with an
    empty [url] (also when [urlRegex] is given) fails before the debug
    proxy is called: the adapter is left as it was. *)
Theorem setBreakpointByUrl_requires_url s id :
  processRequest
    {| rq_id := id; rq_method := "Debugger.setBreakpointByUrl";
       rq_params := None |} s
  = (s, inl (TypeError "Cannot read property of undefined"))
  ∧ ∀ p, JS.truthyS (p_url p) = false →
      processRequest
        {| rq_id := id; rq_method := "Debugger.setBreakpointByUrl";
           rq_params := Some p |} s
      = (s, inl MissingUrl).
Proof.
  split; [reflexivity|]. intros p Hurl.
  unfold processRequest, processDebugger; simpl.
  unfold bind at 1; simpl. by rewrite Hurl.
Qed.

(** X3. [setBreakpointByUrl] with a non-empty [url] and a line number
    that is a safe integer asks the debug proxy for a capture breakpoint
    at that path, one line further, with the given condition;
    [urlRegex], [scriptHash] and [columnNumber] are not used. When the
    proxy rejects, the request fails with the error of the proxy and
    nothing is announced. When the proxy answers, the change of the
    breakpoint list is announced once, and the response carries the
    identifier, path and line of the breakpoint of the proxy, the line
    (at most [Number.MAX_SAFE_INTEGER]) one less; if that line is below 1
    the request fails although the breakpoint is set and announced. *)
Theorem setBreakpointByUrl_outcome
  s id lineNumber url urlRegex scriptHash columnNumber condition p' outcome :
  url ≠ "" →
  JS.isSafeInteger lineNumber →
  setBreakpoint (captureAt url (lineNumber + 1) condition) (debugProxy s)
  = (p', outcome) →
  (∀ breakpoint, outcome = inr breakpoint →
     loc_line (bp_location breakpoint) ≤ JS.MAX_SAFE_INTEGER) →
  processRequest
    {| rq_id := id; rq_method := "Debugger.setBreakpointByUrl";
       rq_params :=
         Some (SetBreakpointByUrlParams lineNumber (Some url) urlRegex
                 scriptHash columnNumber condition) |} s
  = match outcome with
    | inl e => (fetched s p', inl e)
    | inr breakpoint =>
        (announced s p',
         if loc_line (bp_location breakpoint) <? 1
         then inl (InvalidLineNumber (loc_line (bp_location breakpoint)))
         else inr (SetBreakpointByUrlReturn (bp_id breakpoint)
                     [ {| scriptId := loc_path (bp_location breakpoint);
                          lineNumber :=
                            loc_line (bp_location breakpoint) - 1;
                          columnNumber := Some 0 |} ]))
    end.
Proof.
  intros Hurl Hsafe Hset Hline.
  unfold processRequest, processDebugger; simpl.
  unfold bind at 1; simpl.
  destruct (String.eqb_spec url "") as [|_]; [done|]. simpl.
  unfold bind at 1, callProxy. unfold captureAt in Hset.
  rewrite (devToolsToStackdriverLine_safe _ Hsafe), Hset.
  destruct outcome as [e|breakpoint]; [done|].
  specialize (Hline _ eq_refl).
  unfold bind at 1, emitUpdateBreakpointList, emit. simpl.
  unfold bind, lift, ret, stackdriverToDevToolsLine, announced.
  destruct (Z.ltb_spec (loc_line (bp_location breakpoint)) 1); [done|].
  rewrite nearest_exact; [done|]. unfold JS.MAX_SAFE_INTEGER in *. lia.
Qed.

(** ** Dispatch on the method string *)

Lemma pieces_dotless d : dotless d = true → JS.pieces "." d = [d].
Proof.
  induction d as [|c d IH]; [done|]. simpl.
  destruct (Ascii.eqb c "."); [done|]. simpl. intros Hd. by rewrite IH.
Qed.

Lemma pieces_segment d rest :
  dotless d = true →
  JS.pieces "." (d +:+ "." +:+ rest) = d :: JS.pieces "." rest.
Proof.
  induction d as [|c d IH]; [done|]. simpl.
  change (String c d +:+ "." +:+ rest) with (String c (d +:+ "." +:+ rest)).
  simpl. destruct (Ascii.eqb c "."); [done|]. simpl. intros Hd.
  by rewrite IH.
Qed.

Lemma split_two_segments domain method :
  dotless domain = true → dotless method = true →
  JS.split "." 2 (domain +:+ "." +:+ method) = [domain; method].
Proof.
  intros Hd Hm. unfold JS.split.
  by rewrite (pieces_segment _ _ Hd), (pieces_dotless _ Hm).
Qed.

Lemma split_more_segments domain method rest :
  dotless domain = true → dotless method = true →
  JS.split "." 2 (domain +:+ "." +:+ method +:+ "." +:+ rest)
  = [domain; method].
Proof.
  intros Hd Hm. unfold JS.split.
  by rewrite (pieces_segment _ _ Hd), (pieces_segment _ _ Hm).
Qed.

Lemma selectCase_None {T} (names : list (string * T)) method :
  method ∉ names.*1 → selectCase names (Some method) = None.
Proof.
  induction names as [|[n c] names IH]; [done|]. simpl.
  intros Hnot. destruct (String.eqb_spec method n) as [->|_].
  - destruct Hnot. apply list_elem_of_here.
  - apply IH. intros Hin. apply Hnot. by apply list_elem_of_further.
Qed.

(** X4. A request for any domain other than [Debugger] and [Runtime] is
    answered with the empty result, whatever its method and parameters,
    and leaves the adapter as it was; so is a method string without a
    dot. *)
Theorem other_domains_answer_empty s id domain rest params :
  dotless domain = true →
  domain ≠ "Debugger" → domain ≠ "Runtime" →
  processRequest {| rq_id := id; rq_method := domain; rq_params := params |} s
  = (s, inr EmptyResponse)
  ∧ processRequest
      {| rq_id := id; rq_method := domain +:+ "." +:+ rest;
         rq_params := params |} s
    = (s, inr EmptyResponse).
Proof.
  intros Hd Hdebugger Hruntime.
  unfold processRequest, JS.split. cbn [rq_method].
  rewrite (pieces_dotless _ Hd), (pieces_segment _ _ Hd).
  assert (∀ l, take 2 (domain :: l) !! 0%nat = Some domain) as Hhead
    by (by intros [|? ?]).
  rewrite Hhead. simpl.
  rewrite !bool_decide_false by congruence. done.
Qed.

(** X5. In the [Debugger] and [Runtime] domains a method name that is not
    one of the enumerated ones, in any spelling, fails as unrecognized,
    and so does the bare domain name; the adapter is left as it was. *)
Theorem unrecognized_methods_fail s id method params :
  dotless method = true →
  (method ∉ DebuggerMethod.names.*1 →
     processRequest
       {| rq_id := id; rq_method := "Debugger." +:+ method;
          rq_params := params |} s
     = (s, inl (UnrecognizedDebuggerMethod (Some method))))
  ∧ (method ∉ RuntimeMethod.names.*1 →
     processRequest
       {| rq_id := id; rq_method := "Runtime." +:+ method;
          rq_params := params |} s
     = (s, inl (UnrecognizedRuntimeMethod (Some method))))
  ∧ processRequest
      {| rq_id := id; rq_method := "Debugger"; rq_params := params |} s
    = (s, inl (UnrecognizedDebuggerMethod None))
  ∧ processRequest
      {| rq_id := id; rq_method := "Runtime"; rq_params := params |} s
    = (s, inl (UnrecognizedRuntimeMethod None)).
Proof.
  intros Hm. split; [|split; [|split; reflexivity]]; intros Hnot.
  - unfold processRequest. cbn [rq_method].
    change ("Debugger." +:+ method) with ("Debugger" +:+ "." +:+ method).
    rewrite split_two_segments by done. simpl.
    unfold processDebugger. by rewrite selectCase_None.
  - unfold processRequest. cbn [rq_method].
    change ("Runtime." +:+ method) with ("Runtime" +:+ "." +:+ method).
    rewrite split_two_segments by done. simpl.
    unfold processRuntime. by rewrite selectCase_None.
Qed.

Lemma processDebugger_answer id method' params method s s' response :
  processDebugger
    {| rq_id := id; rq_method := method'; rq_params := params |} method s
  = (s', inr response) →
  ∀ other,
    processDebugger
      {| rq_id := id; rq_method := other; rq_params := params |} method s
    = (s', inr response).
Proof.
  unfold processDebugger.
  destruct (selectCase DebuggerMethod.names method) as [[]|]; done.
Qed.

Lemma processRuntime_answer id method' params method s s' response :
  processRuntime
    {| rq_id := id; rq_method := method'; rq_params := params |} method s
  = (s', inr response) →
  ∀ other,
    processRuntime
      {| rq_id := id; rq_method := other; rq_params := params |} method s
    = (s', inr response).
Proof.
  unfold processRuntime.
  destruct (selectCase RuntimeMethod.names method) as [[]|]; done.
Qed.

(** X6. Only the first two segments of the method string are looked at:
    a request that is answered is answered in the same way when more
    segments follow its method name. *)
Theorem trailing_segments_ignored
  s id domain method rest params s' response :
  dotless domain = true → dotless method = true →
  processRequest
    {| rq_id := id; rq_method := domain +:+ "." +:+ method;
       rq_params := params |} s
  = (s', inr response) →
  processRequest
    {| rq_id := id;
       rq_method := domain +:+ "." +:+ method +:+ "." +:+ rest;
       rq_params := params |} s
  = (s', inr response).
Proof.
  intros Hd Hm. unfold processRequest. cbn [rq_method].
  rewrite split_two_segments, split_more_segments by done. simpl.
  destruct (bool_decide _).
  - intros Hrun. by eapply processDebugger_answer.
  - destruct (bool_decide _); [|done].
    intros Hrun. by eapply processRuntime_answer.
Qed.


(** ** Loops *)

Lemma forEach_fails {A T} (f : A → nat → T → M T) (l : list A) j x :
  l !! j = Some x →
  (∀ i acc s, ∃ s' e, f x i acc s = (s', inl e)) →
  ∀ i acc s, ∃ s' e, forEach f l i acc s = (s', inl e).
Proof.
  intros Hj Hx. revert j Hj.
  induction l as [|y l IH]; intros j Hj i acc s; [done|]. simpl.
  destruct j as [|j]; simpl in Hj.
  - injection Hj as ->. destruct (Hx i acc s) as (s' & e & Hfail).
    exists s', e. by apply bind_inl.
  - unfold bind. destruct (f y i acc s) as [s1 [e|acc']]; eauto.
Qed.

Lemma mapIndexed_fails {A B} (f : A → nat → M B) (l : list A) j x :
  l !! j = Some x →
  (∀ i s, ∃ s' e, f x i s = (s', inl e)) →
  ∀ i s, ∃ s' e, mapIndexed f l i s = (s', inl e).
Proof.
  intros Hj Hx. revert j Hj.
  induction l as [|y l IH]; intros j Hj i s; [done|]. simpl.
  destruct j as [|j]; simpl in Hj.
  - injection Hj as ->. destruct (Hx i s) as (s' & e & Hfail).
    exists s', e. by apply bind_inl.
  - unfold bind at 1. destruct (f y i s) as [s1 [e|b]]; [eauto|].
    destruct (IH j Hj (S i) s1) as (s' & e & Hrest).
    exists s', e. by apply bind_inl.
Qed.

Lemma mapM_fails {A B} (f : A → M B) (l : list A) x :
  x ∈ l →
  (∀ s, ∃ s' e, f x s = (s', inl e)) →
  ∀ s, ∃ s' e, mapM f l s = (s', inl e).
Proof.
  intros Hin Hx. induction Hin as [x l|x y l Hin IH]; intros s; simpl.
  - destruct (Hx s) as (s' & e & Hfail). exists s', e. by apply bind_inl.
  - unfold bind at 1. destruct (f y s) as [s1 [e|b]]; [eauto|].
    destruct (IH Hx s1) as (s' & e & Hrest).
    exists s', e. by apply bind_inl.
Qed.

Section Related.
Context (R : relation (@Adapter H P)) `{!PreOrder R}.

Lemma forEach_related {A T} (f : A → nat → T → M T) :
  (∀ x i acc s s' r, f x i acc s = (s', r) → R s s') →
  ∀ l i acc s s' r, forEach f l i acc s = (s', r) → R s s'.
Proof.
  intros Hf. induction l as [|x l IH]; intros i acc s s' r; simpl.
  - by intros [= <- <-].
  - unfold bind. destruct (f x i acc s) as [s1 [e|acc']] eqn:Hx.
    + intros [= <- <-]. eauto.
    + intros Hrest. etrans; eauto.
Qed.

Lemma mapIndexed_related {A B} (f : A → nat → M B) :
  (∀ x i s s' r, f x i s = (s', r) → R s s') →
  ∀ l i s s' r, mapIndexed f l i s = (s', r) → R s s'.
Proof.
  intros Hf. induction l as [|x l IH]; intros i s s' r; simpl.
  - by intros [= <- <-].
  - unfold bind at 1. destruct (f x i s) as [s1 [e|y]] eqn:Hx.
    + intros [= <- <-]. eauto.
    + unfold bind, ret.
      destruct (mapIndexed f l (S i) s1) as [s2 [e|ys]] eqn:Hrest;
        intros [= <- <-]; etrans; eauto.
Qed.

Lemma mapM_related {A B} (f : A → M B) :
  (∀ x s s' r, f x s = (s', r) → R s s') →
  ∀ l s s' r, mapM f l s = (s', r) → R s s'.
Proof.
  intros Hf. induction l as [|x l IH]; intros s s' r; simpl.
  - by intros [= <- <-].
  - unfold bind at 1. destruct (f x s) as [s1 [e|y]] eqn:Hx.
    + intros [= <- <-]. eauto.
    + unfold bind, ret.
      destruct (mapM f l s1) as [s2 [e|ys]] eqn:Hrest;
        intros [= <- <-]; etrans; eauto.
Qed.

End Related.

(** ** What a translation leaves in the adapter *)

#[local] Instance grows_preorder : PreOrder (grows (P:=P)).
Proof.
  split.
  - by intros s.
  - intros s1 s2 s3 (Hp1 & He1 & Hk1) (Hp2 & He2 & Hk2).
    split; [congruence|]. split; [congruence|]. auto.
Qed.

Lemma setProperties_grows key l s :
  grows s (setProperties key l s).1.
Proof.
  split; [done|]. split; [done|]. intros k Hk. simpl.
  destruct (decide (key = k)) as [->|Hne].
  - rewrite lookup_insert_eq. eauto.
  - by rewrite lookup_insert_ne.
Qed.

Lemma logVariableStatus_grows this variable s s' r :
  logVariableStatus this variable s = (s', r) → grows s s'.
Proof.
  unfold logVariableStatus, log, throw.
  repeat case_match; intros [= <- <-]; done.
Qed.

Lemma parseVariable_grows map variable s s' r :
  parseVariable map variable s = (s', r) → grows s s'.
Proof.
  unfold parseVariable, throw, ret, bind.
  repeat case_match; try (intros [= <- <-]; done).
  all: intros [= <- <-];
    match goal with
    | Hlog : logVariableStatus _ _ _ = _ |- _ =>
        by apply logVariableStatus_grows in Hlog
    end.
Qed.

Lemma parseVariableList_grows map l s s' r :
  parseVariableList map l s = (s', r) → grows s s'.
Proof.
  unfold parseVariableList, bind.
  destruct (mapM (parseVariable map) l s) as [s1 [e|ys]] eqn:Hl;
    intros [= <- <-];
    (eapply (mapM_related grows); [|done]); apply parseVariable_grows.
Qed.

Lemma describeEntry_grows id variable i map s s' r :
  describeEntry id variable i map s = (s', r) → grows s s'.
Proof.
  unfold describeEntry, throw. intros Hrun.
  destruct (JS.truthyS (v_name variable) || JS.truthyS (v_type variable)
            || JS.truthyN (v_varTableIndex variable));
    [by injection Hrun as <- <-|].
  destruct (JS.truthyS (v_value variable)).
  - unfold bind at 1, lift in Hrun.
    destruct (shapeOf variable _) as [e|shape]; [by injection Hrun as <- <-|].
    unfold bind, ret in Hrun.
    destruct (JS.present (v_members variable));
      [by injection Hrun as <- <-|].
    destruct (bool_decide _); injection Hrun as <- <-; [|done].
    apply setProperties_grows.
  - unfold bind, ret in Hrun.
    destruct (logVariableStatus ThisAdapter variable s) as [s1 [e|[]]] eqn:Hl;
      injection Hrun as <- <-; by apply logVariableStatus_grows in Hl.
Qed.

Lemma listEntry_grows id map variable i u s s' r :
  listEntry id map variable i u s = (s', r) → grows s s'.
Proof.
  unfold listEntry, throw, ret, bind. intros Hrun.
  destruct (JS.truthyS (v_type variable)
            || JS.truthyN (v_varTableIndex variable));
    [by injection Hrun as <- <-|].
  destruct (JS.truthyS (v_value variable)); [|by injection Hrun as <- <-].
  destruct (v_members variable) as [members|].
  - destruct (parseVariableList map members s) as [s1 [e|l]] eqn:Hl;
      apply parseVariableList_grows in Hl; injection Hrun as <- <-; [done|].
    etrans; [done|]. apply setProperties_grows.
  - injection Hrun as <- <-. apply setProperties_grows.
Qed.

Lemma callFrameOf_grows id map stackFrame i s s' r :
  callFrameOf id map stackFrame i s = (s', r) → grows s s'.
Proof.
  unfold callFrameOf. intros Hrun. unfold bind at 1 in Hrun.
  match type of Hrun with
  | (let (_, _) := ?m s in _) = _ =>
      assert (∀ s1 x, m s = (s1, x) → grows s s1) as Hgrows;
        [|destruct (m s) as [s1 [e|[context l]]] eqn:Hm]
  end.
  { intros s1 x. destruct (sf_locals stackFrame) as [locals|];
      [|by intros [= <- <-]].
    destruct (takeContext map locals) as [context rest]. unfold bind, ret.
    destruct (parseVariableList map rest s) as [s2 [e|l]] eqn:Hl;
      intros [= <- <-]; by apply parseVariableList_grows in Hl. }
  - injection Hrun as <- <-. eauto.
  - specialize (Hgrows _ _ eq_refl).
    destruct (JS.present (sf_arguments stackFrame)).
    + by injection Hrun as <- <-.
    + unfold bind, lift, ret in Hrun. simpl in Hrun.
      destruct (stackdriverToDevToolsLine _) as [e|line];
        injection Hrun as <- <-;
        (etrans; [done|apply setProperties_grows]).
Qed.

Lemma translateSnapshot_grows snapshot s s' r :
  translateSnapshot snapshot s = (s', r) → grows s s'.
Proof.
  unfold translateSnapshot, throw.
  destruct (negb _); [by intros [= <- <-]|].
  unfold bind at 1.
  destruct (forEach (describeEntry _) _ _ _ _) as [s1 [e|map]] eqn:H1;
    apply (forEach_related grows) in H1;
    try (intros; by eapply describeEntry_grows).
  { by intros [= <- <-]. }
  unfold bind at 1.
  destruct (forEach (listEntry _ _) _ _ _ _) as [s2 [e|[]]] eqn:H2;
    apply (forEach_related grows) in H2;
    try (intros; by eapply listEntry_grows).
  { intros [= <- <-]. by etrans. }
  unfold bind, ret.
  destruct (mapIndexed _ _ _ _) as [s3 [e|frames]] eqn:H3;
    apply (mapIndexed_related grows) in H3;
    try (intros; by eapply callFrameOf_grows).
  all: intros [= <- <-]; etrans; [done|]; by etrans.
Qed.

(** X7. Whatever its outcome, [loadSnapshot] calls the debug proxy once,
    emits no event and removes no property list: every key of the
    property descriptor list map is still there afterwards. *)
Theorem loadSnapshot_keeps_lists snapshotId s p outcome s' r :
  getBreakpoint snapshotId (debugProxy s) = (p, outcome) →
  loadSnapshot snapshotId s = (s', r) →
  debugProxy s' = p
  ∧ emitted s' = emitted s
  ∧ ∀ k, is_Some (propertyDescriptorListMap s !! k) →
         is_Some (propertyDescriptorListMap s' !! k).
Proof.
  intros Hget. unfold loadSnapshot, bind, callProxy. rewrite Hget.
  destruct outcome as [e|snapshot]; [by intros [= <- <-]|].
  intros (Hp & He & Hk)%translateSnapshot_grows. done.
Qed.

(** X8. A breakpoint that the debug proxy cannot give, or one that is
    not in its final state, is not translated: [loadSnapshot] fails with
    the error of the proxy, or with the not-a-snapshot error (which
    shows the breakpoint with its missing lists made empty), and the
    property descriptor lists and the logger are as before. *)
Theorem loadSnapshot_needs_captured_snapshot snapshotId s p :
  (∀ e, getBreakpoint snapshotId (debugProxy s) = (p, inl e) →
     loadSnapshot snapshotId s = (fetched s p, inl e))
  ∧ (∀ breakpoint,
       getBreakpoint snapshotId (debugProxy s) = (p, inr breakpoint) →
       JS.truthyB (bp_isFinalState breakpoint) = false →
       loadSnapshot snapshotId s
       = (fetched s p, inl (NotCapturedSnapshot (defaulted breakpoint)))).
Proof.
  split.
  - intros e Hget. unfold loadSnapshot, bind, callProxy. by rewrite Hget.
  - intros breakpoint Hget Hfinal.
    rewrite (loadSnapshot_fetched _ _ _ _ Hget).
    unfold translateSnapshot. by rewrite Hfinal.
Qed.


(** ** Strings *)

Lemma length_append a b :
  String.length (a +:+ b) = (String.length a + String.length b)%nat.
Proof. induction a as [|c a IH]; [done|]. simpl. by rewrite <- IH. Qed.

Lemma substring_whole b c :
  String.substring 0 (String.length b) (b +:+ c) = b.
Proof.
  induction b as [|x b IH]; [by destruct c|].
  change (String x b +:+ c) with (String x (b +:+ c)). simpl.
  by rewrite IH.
Qed.

Lemma substring_skip a n b :
  String.substring (String.length a) n (a +:+ b) = String.substring 0 n b.
Proof. induction a as [|x a IH]; [done|]. exact IH. Qed.

Lemma prefix_empty (x : string) : String.prefix "" x = true.
Proof. by destruct x. Qed.

Lemma prefix_same c a b :
  String.prefix (String c a) (String c b) = String.prefix a b.
Proof.
  change (String.prefix (String c a) (String c b))
    with (if ascii_dec c c then String.prefix a b else false).
  by destruct (ascii_dec c c).
Qed.

Lemma wrapped_startsWith className :
  JS.startsWith "#<" (wrapped className) = true.
Proof.
  unfold JS.startsWith, wrapped.
  change ("#<" +:+ className +:+ ">")
    with (String "#" (String "<" (className +:+ ">"))).
  by rewrite !prefix_same, prefix_empty.
Qed.

Lemma wrapped_endsWith className :
  JS.endsWith ">" (wrapped className) = true.
Proof.
  unfold JS.endsWith, wrapped.
  change ("#<" +:+ className +:+ ">")
    with (String "#" (String "<" (className +:+ ">"))).
  cbn [String.length]. rewrite length_append. cbn [String.length].
  replace (S (S (String.length className + 1)) - 1)%nat
    with (S (S (String.length className))) by lia.
  cbn [String.substring].
  rewrite (substring_skip className 1 ">"). reflexivity.
Qed.

Lemma wrapped_className className :
  JS.substr 2 (String.length (wrapped className) - 3) (wrapped className)
  = className.
Proof.
  unfold JS.substr, wrapped.
  change ("#<" +:+ className +:+ ">")
    with (String "#" (String "<" (className +:+ ">"))).
  cbn [String.length]. rewrite length_append. cbn [String.length].
  replace (S (S (String.length className + 1)) - 3)%nat
    with (String.length className) by lia.
  cbn [String.substring]. apply substring_whole.
Qed.

(** ** Snapshots that are not translated *)

Lemma loadSnapshot_entry_rejected snapshotId s p snapshot variable :
  getBreakpoint snapshotId (debugProxy s) = (p, inr snapshot) →
  JS.truthyB (bp_isFinalState snapshot) = true →
  variable ∈ tableOf snapshot →
  (∀ i map s0, ∃ s' e,
     describeEntry (bp_id snapshot) variable i map s0 = (s', inl e)) →
  ∃ s' e, loadSnapshot snapshotId s = (s', inl e) ∧ dataShape e = true.
Proof.
  intros Hget Hfinal [j Hj]%list_elem_of_lookup Hfails.
  rewrite (loadSnapshot_fetched _ _ _ _ Hget).
  unfold translateSnapshot. rewrite Hfinal. simpl.
  destruct (forEach_fails (describeEntry (bp_id snapshot)) _ _ _ Hj Hfails
              0%nat ∅ (fetched s p)) as (s' & e & Hfirst).
  exists s', e. split; [by apply bind_inl|by eapply firstPass_inl].
Qed.

Lemma loadSnapshot_list_rejected snapshotId s p snapshot variable :
  getBreakpoint snapshotId (debugProxy s) = (p, inr snapshot) →
  variable ∈ tableOf snapshot →
  (∀ i map s0, ∃ s' e,
     listEntry (bp_id snapshot) map variable i tt s0 = (s', inl e)) →
  ∃ s' e, loadSnapshot snapshotId s = (s', inl e).
Proof.
  intros Hget [j Hj]%list_elem_of_lookup Hfails.
  rewrite (loadSnapshot_fetched _ _ _ _ Hget).
  unfold translateSnapshot, throw. destruct (negb _); [eauto|].
  unfold bind at 1.
  destruct (forEach (describeEntry _) _ _ _ _) as [s1 [e|map]]; [eauto|].
  destruct (forEach_fails (listEntry (bp_id snapshot) map) _ _ _ Hj
              (λ i _ s0, Hfails i map s0) 0%nat tt s1) as (s' & e & Hsecond).
  exists s', e. by apply bind_inl.
Qed.

Lemma loadSnapshot_frame_rejected snapshotId s p snapshot stackFrame :
  getBreakpoint snapshotId (debugProxy s) = (p, inr snapshot) →
  stackFrame ∈ framesOf snapshot →
  (∀ i map s0, ∃ s' e,
     callFrameOf (bp_id snapshot) map stackFrame i s0 = (s', inl e)) →
  ∃ s' e, loadSnapshot snapshotId s = (s', inl e).
Proof.
  intros Hget [j Hj]%list_elem_of_lookup Hfails.
  rewrite (loadSnapshot_fetched _ _ _ _ Hget).
  unfold translateSnapshot, throw. destruct (negb _); [eauto|].
  unfold bind at 1.
  destruct (forEach (describeEntry _) _ _ _ _) as [s1 [e|map]]; [eauto|].
  unfold bind at 1.
  destruct (forEach (listEntry _ _) _ _ _ _) as [s2 [e|[]]]; [eauto|].
  destruct (mapIndexed_fails (callFrameOf (bp_id snapshot) map) _ _ _ Hj
              (λ i s0, Hfails i map s0) 0%nat s2) as (s' & e & Hframes).
  exists s', e. by apply bind_inl.
Qed.

(** X9. A stack frame whose line is below 1 makes [loadSnapshot] fail:
    no paused event is produced for a snapshot with such a frame. *)
Theorem frame_line_below_one_rejected snapshotId s p snapshot stackFrame :
  getBreakpoint snapshotId (debugProxy s) = (p, inr snapshot) →
  stackFrame ∈ framesOf snapshot →
  loc_line (sf_location stackFrame) < 1 →
  ∃ s' e, loadSnapshot snapshotId s = (s', inl e).
Proof.
  intros Hget Hin Hline.
  eapply loadSnapshot_frame_rejected; [done..|].
  intros i map s0. unfold callFrameOf. unfold bind at 1.
  match goal with
  | |- ∃ _ _, (let (_, _) := ?m s0 in _) = _ =>
      destruct (m s0) as [s1 [e|[context l]]]
  end; [eauto|].
  destruct (JS.present _); [unfold throw; eauto|].
  unfold bind, lift, ret, setProperties, stackdriverToDevToolsLine. simpl.
  destruct (Z.ltb_spec (loc_line (sf_location stackFrame)) 1); [eauto|lia].
Qed.

(** X10. A table entry with a truthy name, type or back-reference of its
    own makes the translation of a captured snapshot fail with a
    data-shape error. *)
Theorem table_entry_with_name_rejected snapshotId s p snapshot variable :
  getBreakpoint snapshotId (debugProxy s) = (p, inr snapshot) →
  JS.truthyB (bp_isFinalState snapshot) = true →
  variable ∈ tableOf snapshot →
  rejectedEntry variable = true →
  ∃ s' e, loadSnapshot snapshotId s = (s', inl e) ∧ dataShape e = true.
Proof.
  intros Hget Hfinal Hin Hrejected.
  eapply loadSnapshot_entry_rejected; [done..|].
  intros i map s0. unfold describeEntry.
  unfold rejectedEntry in Hrejected. rewrite Hrejected.
  unfold throw. eauto.
Qed.

Lemma shapeOf_wrapped variable className :
  shapeOf variable (wrapped className)
  = if has REMOTE_OBJECT_SUBTYPE_SET (JS.toLowerCase className) then
      if String.eqb (JS.toLowerCase className) "array" then
        match List.find (named "length") (default [] (v_members variable))
        with
        | Some member =>
            inr {| sh_className := Some className;
                   sh_subtype := Some (JS.toLowerCase className);
                   sh_description :=
                     Some ("Array(" +:+ JS.show (v_value member) +:+ ")") |}
        | None => inl (ArrayWithoutLength variable)
        end
      else
        inr {| sh_className := Some className;
               sh_subtype := Some (JS.toLowerCase className);
               sh_description := Some className |}
    else
      inr {| sh_className := Some className;
             sh_subtype :=
               if has TYPED_ARRAY_SET className then Some "typedarray"
               else None;
             sh_description := Some className |}.
Proof.
  unfold shapeOf.
  rewrite wrapped_startsWith, wrapped_endsWith, wrapped_className. done.
Qed.

Lemma wrapped_truthy className : JS.truthyS (Some (wrapped className)) = true.
Proof.
  unfold wrapped.
  change ("#<" +:+ className +:+ ">")
    with (String "#" (String "<" (className +:+ ">"))).
  reflexivity.
Qed.

(** X11. An array entry, [#<Array>] in any capitalization: with a member
    named [length], it is described with the subtype [array] and the
    description [Array(n)], [n] the value of the first such member
    ([undefined] when that member has no value); without one, with or
    without a members list, the translation of a captured snapshot fails
    with a data-shape error. *)
Theorem array_entry_needs_length variable className :
  JS.toLowerCase className = "array" →
  v_value variable = Some (wrapped className) →
  (∀ member,
     List.find (named "length") (default [] (v_members variable))
     = Some member →
     shapeOf variable (wrapped className)
     = inr {| sh_className := Some className;
              sh_subtype := Some "array";
              sh_description :=
                Some ("Array(" +:+ JS.show (v_value member) +:+ ")") |})
  ∧ (List.find (named "length") (default [] (v_members variable)) = None →
     ∀ snapshotId s p snapshot,
       getBreakpoint snapshotId (debugProxy s) = (p, inr snapshot) →
       JS.truthyB (bp_isFinalState snapshot) = true →
       variable ∈ tableOf snapshot →
       ∃ s' e, loadSnapshot snapshotId s = (s', inl e)
               ∧ dataShape e = true).
Proof.
  intros Harray Hvalue. split.
  - intros member Hfind. rewrite shapeOf_wrapped, Harray, Hfind. done.
  - intros Hfind snapshotId s p snapshot Hget Hfinal Hin.
    eapply loadSnapshot_entry_rejected; [done..|].
    intros i map s0. unfold describeEntry, throw.
    destruct (_ || _); [eauto|].
    rewrite Hvalue, wrapped_truthy. unfold bind at 1, lift. simpl.
    rewrite shapeOf_wrapped, Harray, Hfind. simpl. eauto.
Qed.

(** X12. A table entry whose value is not of the form [#<...>], does not
    start with [Error] and is not the ISO form of the date it parses to,
    makes the translation of a captured snapshot fail with a data-shape
    error. *)
Theorem unexpected_value_rejected
  snapshotId s p snapshot variable value :
  getBreakpoint snapshotId (debugProxy s) = (p, inr snapshot) →
  JS.truthyB (bp_isFinalState snapshot) = true →
  variable ∈ tableOf snapshot →
  v_value variable = Some value →
  value ≠ "" →
  JS.startsWith "#<" value && JS.endsWith ">" value = false →
  JS.startsWith "Error" value = false →
  (∀ ms, Date_parse value = Some ms → Date_toISOString ms ≠ value) →
  ∃ s' e, loadSnapshot snapshotId s = (s', inl e) ∧ dataShape e = true.
Proof.
  intros Hget Hfinal Hin Hvalue Hne Hwrapped Herror Hdate.
  eapply loadSnapshot_entry_rejected; [done..|].
  intros i map s0. unfold describeEntry, throw.
  destruct (_ || _); [eauto|].
  rewrite Hvalue. simpl. destruct (String.eqb_spec value "") as [|_]; [done|].
  simpl. unfold bind at 1, lift, shapeOf. rewrite Hwrapped, Herror.
  destruct (Date_parse value) as [ms|] eqn:Hparse; [|eauto].
  destruct (String.eqb_spec value (Date_toISOString ms)) as [Heq|_]; [|eauto].
  by destruct (Hdate ms eq_refl).
Qed.

Lemma parseVariable_malformed map member s :
  malformedMember member = true →
  ∃ e, parseVariable map member s = (s, inl e).
Proof.
  unfold malformedMember, parseVariable, throw.
  destruct (JS.truthyS (v_type member) || JS.present (v_members member));
    [eauto|].
  destruct (JS.truthyS (v_value member));
    destruct (JS.truthyN (v_varTableIndex member)); simpl; [eauto| | |done].
  all: destruct (JS.truthyS (v_name member)); simpl; [done|eauto].
Qed.

(** X13. A member that has a type or members of its own, both a value
    and a back-reference, or a value or back-reference without a name,
    makes [loadSnapshot] fail for the snapshot whose table entry (one
    with a value) lists it: there is no partial translation. *)
Theorem malformed_member_rejected
  snapshotId s p snapshot variable members member :
  getBreakpoint snapshotId (debugProxy s) = (p, inr snapshot) →
  variable ∈ tableOf snapshot →
  JS.truthyS (v_value variable) = true →
  v_members variable = Some members →
  member ∈ members →
  malformedMember member = true →
  ∃ s' e, loadSnapshot snapshotId s = (s', inl e).
Proof.
  intros Hget Hin Hvalue Hmembers Hmember Hbad.
  eapply loadSnapshot_list_rejected; [done..|].
  intros i map s0. unfold listEntry, throw.
  destruct (_ || _); [eauto|]. rewrite Hvalue, Hmembers.
  destruct (mapM_fails (parseVariable map) members member Hmember
              (λ s1, ex_intro _ s1
                 (parseVariable_malformed map member s1 Hbad))
              s0) as (s' & e & Hfail).
  exists s', e. apply bind_inl. unfold parseVariableList. by apply bind_inl.
Qed.


(** ** The paused event *)

Lemma callFrameOf_fields id map stackFrame i s s' callFrame :
  callFrameOf id map stackFrame i s = (s', inr callFrame) →
  callFrameId callFrame = id +:+ "-frame-" +:+ pretty i
  ∧ functionName callFrame = sf_function stackFrame
  ∧ 1 ≤ loc_line (sf_location stackFrame)
  ∧ cf_location callFrame
    = {| scriptId :=
           path_resolve (sourceDirectory (debugProxy s))
             (loc_path (sf_location stackFrame));
         lineNumber := JS.nearest (loc_line (sf_location stackFrame) - 1);
         columnNumber := None |}
  ∧ scopeChain callFrame
    = [ {| scope_type := "local";
           scope_object :=
             {| ro_type := "object"; ro_subtype := None;
                ro_className := None; ro_description := None;
                ro_objectId := Some (scopeIdOf id i); ro_value := None;
                ro_unserializableValue := None |} |} ].
Proof.
  unfold callFrameOf. intros Hrun. unfold bind at 1 in Hrun.
  match type of Hrun with
  | (let (_, _) := ?m s in _) = _ =>
      assert (∀ s1 x, m s = (s1, x) → grows s s1) as Hgrows;
        [|destruct (m s) as [s1 [e|[context l]]] eqn:Hm; [done|]]
  end.
  { intros s1 x. destruct (sf_locals stackFrame) as [locals|];
      [|by intros [= <- <-]].
    destruct (takeContext map locals) as [context rest]. unfold bind, ret.
    destruct (parseVariableList map rest s) as [s2 [e|l]] eqn:Hl;
      intros [= <- <-]; by apply parseVariableList_grows in Hl. }
  destruct (Hgrows _ _ eq_refl) as (Hproxy & _).
  destruct (JS.present (sf_arguments stackFrame)); [done|].
  unfold bind, lift, ret, setProperties, stackdriverToDevToolsLine in Hrun.
  simpl in Hrun.
  destruct (Z.ltb_spec (loc_line (sf_location stackFrame)) 1); [done|].
  injection Hrun as <- <-. simpl. rewrite Hproxy. repeat split; [lia..|done].
Qed.

Lemma frames_each id map frames : ∀ i s s' callFrames,
  mapIndexed (callFrameOf id map) frames i s = (s', inr callFrames) →
  length callFrames = length frames
  ∧ ∀ j stackFrame, frames !! j = Some stackFrame →
      ∃ sa sb callFrame,
        callFrameOf id map stackFrame (i + j) sa = (sb, inr callFrame)
        ∧ callFrames !! j = Some callFrame
        ∧ grows s sa.
Proof.
  induction frames as [|x frames IH]; intros i s s' callFrames; simpl.
  { intros [= <- <-]. done. }
  intros (s1 & y & Hx & Hrun)%bind_inr.
  apply bind_inr in Hrun as (s2 & ys & Hrest & Hrun).
  injection Hrun as <- <-.
  destruct (IH _ _ _ _ Hrest) as [Hlength Heach]. split.
  - simpl. by rewrite Hlength.
  - intros [|j] stackFrame Hj; simpl in Hj.
    + injection Hj as ->. rewrite Nat.add_0_r. by exists s, s1, y.
    + replace (i + S j)%nat with (S i + j)%nat by lia.
      destruct (Heach _ _ Hj) as (sa & sb & callFrame & ? & ? & ?).
      exists sa, sb, callFrame. split; [done|]. split; [done|].
      etrans; [by eapply callFrameOf_grows|done].
Qed.

(** X14. The paused event of a loaded snapshot has the reason [other]
    and the snapshot as its only hit breakpoint, and its call frames
    mirror the stack frames, in their order: frame [j] has the
    identifier [<id>-frame-<j>], the function name of the stack frame,
    its path resolved against the source directory, no column, its line,
    which is at least 1, less one when it is at most
    [Number.MAX_SAFE_INTEGER], and one local scope, with the identifier
    [<id>-scope-<j>]. *)
Theorem callFrames_mirror_stackFrames snapshotId s p snapshot s' event :
  getBreakpoint snapshotId (debugProxy s) = (p, inr snapshot) →
  loadSnapshot snapshotId s = (s', inr event) →
  reason event = "other"
  ∧ hitBreakpoints event = [bp_id snapshot]
  ∧ length (callFrames event) = length (framesOf snapshot)
  ∧ ∀ j stackFrame, framesOf snapshot !! j = Some stackFrame →
      ∃ callFrame,
        callFrames event !! j = Some callFrame
        ∧ callFrameId callFrame = bp_id snapshot +:+ "-frame-" +:+ pretty j
        ∧ functionName callFrame = sf_function stackFrame
        ∧ 1 ≤ loc_line (sf_location stackFrame)
        ∧ scriptId (cf_location callFrame)
          = path_resolve (sourceDirectory p)
              (loc_path (sf_location stackFrame))
        ∧ columnNumber (cf_location callFrame) = None
        ∧ (loc_line (sf_location stackFrame) ≤ JS.MAX_SAFE_INTEGER →
           lineNumber (cf_location callFrame)
           = loc_line (sf_location stackFrame) - 1)
        ∧ scopeChain callFrame
          = [ {| scope_type := "local";
                 scope_object :=
                   {| ro_type := "object"; ro_subtype := None;
                      ro_className := None; ro_description := None;
                      ro_objectId := Some (scopeIdOf (bp_id snapshot) j);
                      ro_value := None;
                      ro_unserializableValue := None |} |} ].
Proof.
  intros Hget Hload.
  rewrite (loadSnapshot_fetched _ _ _ _ Hget) in Hload.
  assert (reason event = "other" ∧ hitBreakpoints event = [bp_id snapshot])
    as [Hreason Hhit].
  { revert Hload. unfold translateSnapshot.
    destruct (negb _); [done|].
    intros (s1 & map & _ & Hrun)%bind_inr.
    apply bind_inr in Hrun as (s2 & [] & _ & Hrun).
    apply bind_inr in Hrun as (s3 & frames & _ & Hrun).
    by injection Hrun as <- <-. }
  pose proof (translateSnapshot_grows _ _ _ _ Hload) as _.
  apply translateSnapshot_inr in Hload
    as (_ & s1 & map & s2 & H1 & H2 & H3).
  assert (grows (fetched s p) s2) as (Hproxy & _).
  { etrans.
    - eapply (forEach_related grows); [|exact H1].
      intros; by eapply describeEntry_grows.
    - eapply (forEach_related grows); [|exact H2].
      intros; by eapply listEntry_grows. }
  destruct (frames_each _ _ _ _ _ _ _ H3) as [Hlength Heach].
  split; [done|]. split; [done|]. split; [done|].
  intros j stackFrame Hj.
  destruct (Heach _ _ Hj) as (sa & sb & callFrame & Hframe & Hcf & Hsa).
  destruct Hsa as (Hproxy' & _).
  apply callFrameOf_fields in Hframe as (? & ? & Hline & Hlocation & ?).
  rewrite Hproxy', Hproxy in Hlocation. simpl in *.
  exists callFrame. rewrite Hlocation. simpl.
  repeat (split; [done|]). split; [|done].
  intros Hsafe. apply nearest_exact.
  unfold JS.MAX_SAFE_INTEGER in *. lia.
Qed.

(** ** Members and locals *)

(** What [parseVariable] returns for a well-formed member. *)
Lemma parseVariable_wellFormed map member s :
  wellFormedMember member = true →
  ∃ pd, parseVariable map member s = (s, inr (Some pd))
        ∧ v_name member = Some (pd_name pd)
        ∧ pd_configurable pd = false
        ∧ pd_enumerable pd = true
        ∧ pd_value pd
          = if JS.truthyS (v_value member)
            then parseVariableValue <$> v_value member
            else lookupRemoteObject map (v_varTableIndex member).
Proof.
  unfold wellFormedMember, parseVariable.
  destruct (JS.truthyS (v_type member)); [done|].
  destruct (JS.present (v_members member)); [done|].
  destruct (v_name member) as [name|] eqn:Hname; [|done]. simpl.
  destruct (String.eqb_spec name "") as [|_]; [done|]. simpl.
  destruct (JS.truthyS (v_value member)) eqn:Hvalue;
    destruct (JS.truthyN (v_varTableIndex member)); try done; simpl.
  - intros _. eexists. split; [done|]. simpl.
    destruct (v_value member); done.
  - intros _. eexists. split; [done|]. done.
Qed.

(** X15. For members or locals that each have a name and either a value
    or a back-reference other than 0 (and no type or members),
    [parseVariableList] returns one property descriptor per entry, in
    their order, enumerable and not configurable, with the name of the
    entry and as value the parsed value, or the descriptor of the first
    pass at the back-reference (none when the first pass has none there);
    the adapter is left as it was. *)
Theorem parseVariableList_wellFormed map (l : list Var) s :
  Forall (λ member, wellFormedMember member = true) l →
  ∃ result,
    parseVariableList map l s = (s, inr result)
    ∧ length result = length l
    ∧ ∀ j member, l !! j = Some member →
        ∃ pd, result !! j = Some pd
              ∧ v_name member = Some (pd_name pd)
              ∧ pd_configurable pd = false
              ∧ pd_enumerable pd = true
              ∧ pd_value pd
                = if JS.truthyS (v_value member)
                  then parseVariableValue <$> v_value member
                  else lookupRemoteObject map (v_varTableIndex member).
Proof.
  intros Hall.
  assert (∃ result,
    mapM (parseVariable map) l s = (s, inr (Some <$> result))
    ∧ length result = length l
    ∧ ∀ j member, l !! j = Some member →
        ∃ pd, result !! j = Some pd
              ∧ v_name member = Some (pd_name pd)
              ∧ pd_configurable pd = false
              ∧ pd_enumerable pd = true
              ∧ pd_value pd
                = if JS.truthyS (v_value member)
                  then parseVariableValue <$> v_value member
                  else lookupRemoteObject map (v_varTableIndex member))
    as (result & Hrun & Hlength & Heach).
  { induction Hall as [|member l Hmember _ IH].
    - exists []. done.
    - destruct IH as (result & Hrun & Hlength & Heach).
      destruct (parseVariable_wellFormed map member s Hmember)
        as (pd & Hpd & Hfacts).
      exists (pd :: result). simpl. split; [|split].
      + erewrite bind_step by exact Hpd.
        erewrite bind_step by exact Hrun. done.
      + by rewrite Hlength.
      + intros [|j] member' Hj; simpl in Hj.
        * injection Hj as <-. by exists pd.
        * by apply Heach. }
  exists result. split; [|done].
  unfold parseVariableList. erewrite bind_step by exact Hrun.
  unfold ret. do 2 f_equal.
  clear. induction result as [|pd result IH]; [done|].
  csimpl. by f_equal.
Qed.


(** ** The first pass, entry by entry *)

Lemma describeEntry_cases id variable i map s s' map' :
  describeEntry id variable i map s = (s', inr map') →
  if JS.truthyS (v_value variable) then
    ∃ d, map' = <[Z.of_nat i := d]> map
         ∧ ro_type d = "object" ∧ ro_value d = None
         ∧ ro_objectId d = assignedId id variable i (ro_className d)
         ∧ propertyDescriptorListMap s'
           = if JS.present (v_members variable)
             then propertyDescriptorListMap s
             else if bool_decide (ro_className d = Some "Object")
             then <[emptyObjectId id i := []]> (propertyDescriptorListMap s)
             else propertyDescriptorListMap s
  else
    map' = map
    ∧ propertyDescriptorListMap s' = propertyDescriptorListMap s.
Proof.
  unfold describeEntry, assignedId, throw. intros Hrun.
  destruct (JS.truthyS (v_name variable) || JS.truthyS (v_type variable)
            || JS.truthyN (v_varTableIndex variable)); [done|].
  destruct (JS.truthyS (v_value variable)).
  - unfold bind at 1, lift in Hrun.
    destruct (shapeOf variable _) as [e|shape]; [done|].
    unfold bind, ret, setProperties in Hrun.
    destruct (JS.present (v_members variable)).
    + injection Hrun as <- <-. eexists. split; [reflexivity|]. done.
    + destruct (bool_decide (sh_className shape = Some "Object")) eqn:Hc;
        injection Hrun as <- <-; (eexists; split; [reflexivity|]);
        simpl; rewrite Hc; done.
  - unfold bind, ret in Hrun.
    destruct (logVariableStatus ThisAdapter variable s) as [s1 [e|[]]] eqn:Hl;
      [done|].
    injection Hrun as <- <-. split; [done|].
    by apply logVariableStatus_store in Hl as [? ?].
Qed.

Lemma emptyObjectId_inj id i j :
  emptyObjectId id i = emptyObjectId id j → i = j.
Proof.
  unfold emptyObjectId. intros Heq%(inj (String.append id)).
  apply (inj (String.append "-empty-")) in Heq. by apply (inj pretty) in Heq.
Qed.

Lemma emptyObjectId_scopeIdOf id i j : emptyObjectId id i ≠ scopeIdOf id j.
Proof.
  unfold emptyObjectId, scopeIdOf. intros Heq%(inj (String.append id)).
  discriminate Heq.
Qed.

Lemma describeEntry_store_other id variable i map s s' r k :
  describeEntry id variable i map s = (s', r) →
  k ≠ emptyObjectId id i →
  propertyDescriptorListMap s' !! k = propertyDescriptorListMap s !! k.
Proof.
  intros Hrun Hk. destruct r as [e|map'].
  - revert Hrun. unfold describeEntry, throw.
    destruct (_ || _); [by intros [= <- <-]|].
    destruct (JS.truthyS (v_value variable)).
    + unfold bind at 1, lift.
      destruct (shapeOf variable _) as [e'|shape]; [by intros [= <- <-]|].
      unfold bind, ret, setProperties. by repeat case_match.
    + unfold bind, ret.
      destruct (logVariableStatus ThisAdapter variable s)
        as [s1 [e'|[]]] eqn:Hl; [|done].
      intros [= <- <-]. by apply logVariableStatus_store in Hl as [-> ?].
  - apply describeEntry_cases in Hrun.
    destruct (JS.truthyS (v_value variable)).
    + destruct Hrun as (d & _ & _ & _ & _ & ->).
      repeat case_match; [done| |done]. by rewrite lookup_insert_ne.
    + by destruct Hrun as [_ ->].
Qed.

Lemma firstPass_store_other id table : ∀ i map s s' r k,
  forEach (describeEntry id) table i map s = (s', r) →
  (∀ j, (i ≤ j)%nat → k ≠ emptyObjectId id j) →
  propertyDescriptorListMap s' !! k = propertyDescriptorListMap s !! k.
Proof.
  induction table as [|x table IH]; intros i map s s' r k; simpl.
  - by intros [= <- <-].
  - unfold bind.
    destruct (describeEntry id x i map s) as [s1 [e|map1]] eqn:Hx;
      intros Hrun Hk.
    + injection Hrun as <- <-. eapply describeEntry_store_other; eauto.
    + etrans; [eapply IH; [done|]|eapply describeEntry_store_other; eauto].
      intros j Hj. apply Hk. lia.
Qed.

Lemma firstPass_above id table : ∀ i map s s' map' k,
  forEach (describeEntry id) table i map s = (s', inr map') →
  Z.of_nat (i + length table) ≤ k →
  map' !! k = map !! k.
Proof.
  induction table as [|x table IH]; intros i map s s' map' k; simpl.
  - by intros [= <- <-].
  - unfold bind.
    destruct (describeEntry id x i map s) as [s1 [e|map1]] eqn:Hx; [done|].
    intros Hrun Hk. apply describeEntry_inr in Hx as [Hother _].
    rewrite (IH _ _ _ _ _ _ Hrun) by lia. apply Hother. lia.
Qed.

Lemma firstPass_each id table : ∀ i map s s' map' j variable,
  forEach (describeEntry id) table i map s = (s', inr map') →
  table !! j = Some variable →
  if JS.truthyS (v_value variable) then
    ∃ d, map' !! Z.of_nat (i + j) = Some d
         ∧ ro_type d = "object" ∧ ro_value d = None
         ∧ ro_objectId d = assignedId id variable (i + j) (ro_className d)
         ∧ (v_members variable = None →
            ro_className d = Some "Object" →
            propertyDescriptorListMap s' !! emptyObjectId id (i + j)
            = Some [])
  else map' !! Z.of_nat (i + j) = map !! Z.of_nat (i + j).
Proof.
  induction table as [|x table IH]; intros i map s s' map' j variable;
    simpl; [done|].
  unfold bind.
  destruct (describeEntry id x i map s) as [s1 [e|map1]] eqn:Hx; [done|].
  intros Hrun Hj. destruct j as [|j]; simpl in Hj.
  - injection Hj as ->. rewrite Nat.add_0_r.
    apply describeEntry_cases in Hx.
    destruct (JS.truthyS (v_value variable)).
    + destruct Hx as (d & -> & Htype & Hvalue & Hid & Hstore).
      exists d. split.
      { rewrite (firstPass_other _ _ _ _ _ _ _ _ Hrun) by lia.
        by rewrite lookup_insert_eq. }
      repeat split; try done.
      intros Hmembers Hclass. rewrite Hmembers, Hclass in Hstore.
      simpl in Hstore.
      erewrite firstPass_store_other; [|done|].
      * rewrite Hstore. by rewrite lookup_insert_eq.
      * intros j Hj Heq%emptyObjectId_inj. lia.
    + destruct Hx as [-> _]. eapply firstPass_other; [done|lia].
  - replace (i + S j)%nat with (S i + j)%nat by lia.
    specialize (IH _ _ _ _ _ _ _ Hrun Hj).
    destruct (JS.truthyS (v_value variable)); [done|].
    rewrite IH. apply describeEntry_inr in Hx as [Hother _].
    apply Hother. lia.
Qed.

(** X16. The first pass describes exactly the table entries that have a
    value, each as an object without a primitive value: an entry without
    a value, and any index outside the table, has no descriptor, so that
    a back-reference to it gives a property without a value. *)
Theorem firstPass_describes_valued_entries snapshot s s1 map :
  firstPass snapshot s = (s1, inr map) →
  (∀ i variable, tableOf snapshot !! i = Some variable →
     if JS.truthyS (v_value variable)
     then ∃ d, map !! Z.of_nat i = Some d
               ∧ ro_type d = "object" ∧ ro_value d = None
     else lookupRemoteObject map (Some (Z.of_nat i)) = None)
  ∧ (∀ k, k < 0 ∨ Z.of_nat (length (tableOf snapshot)) ≤ k →
          lookupRemoteObject map (Some k) = None).
Proof.
  unfold firstPass. intros Hfirst. split.
  - intros i variable Hi.
    pose proof (firstPass_each _ _ _ _ _ _ _ _ _ Hfirst Hi) as Heach.
    simpl in Heach. destruct (JS.truthyS (v_value variable)).
    + destruct Heach as (d & ? & ? & ? & _). by exists d.
    + simpl. by rewrite Heach.
  - intros k [Hk|Hk]; simpl.
    + by rewrite (firstPass_other _ _ _ _ _ _ _ _ Hfirst) by lia.
    + by rewrite (firstPass_above _ _ _ _ _ _ _ _ Hfirst) by (simpl; lia).
Qed.

(** X17. After [loadSnapshot] has returned, the identifier that the
    first pass gave to an [#<Object>] entry without members,
    [<id>-empty-<index>], holds the empty property list: no later step
    of the translation writes under it. *)
Theorem empty_object_has_no_properties
  snapshotId s p snapshot s' event i variable :
  getBreakpoint snapshotId (debugProxy s) = (p, inr snapshot) →
  loadSnapshot snapshotId s = (s', inr event) →
  tableOf snapshot !! i = Some variable →
  v_value variable = Some (wrapped "Object") →
  v_members variable = None →
  ∃ s1 map d,
    firstPass snapshot (fetched s p) = (s1, inr map)
    ∧ map !! Z.of_nat i = Some d
    ∧ ro_className d = Some "Object"
    ∧ ro_objectId d = Some (emptyObjectId (bp_id snapshot) i)
    ∧ propertyDescriptorListMap s' !! emptyObjectId (bp_id snapshot) i
      = Some [].
Proof.
  intros Hget Hload Hi Hvalue Hmembers.
  rewrite (loadSnapshot_fetched _ _ _ _ Hget) in Hload.
  apply translateSnapshot_inr in Hload
    as (_ & s1 & map & s2 & H1 & H2 & H3).
  assert (∃ d, map !! Z.of_nat i = Some d ∧ ro_className d = Some "Object")
    as (d & Hd & Hclass).
  { clear H2 H3. unfold firstPass in H1. revert H1.
    generalize (∅ : gmap Z RemoteObject) (fetched s p).
    assert (∃ n, n = 0%nat ∧ Z.of_nat i = Z.of_nat (n + i))
      as (n & Hn & ->) by (by exists 0%nat).
    rewrite <- Hn. clear Hn. revert i n Hi.
    induction (tableOf snapshot) as [|x table IH]; intros i n Hi map0 s0;
      [done|].
    simpl. intros (s3 & map3 & Hx & Hrest)%bind_inr.
    destruct i as [|i]; simpl in Hi.
    - injection Hi as ->. rewrite Nat.add_0_r.
      rewrite (firstPass_other _ _ _ _ _ _ _ _ Hrest) by lia.
      revert Hx. unfold describeEntry.
      destruct (_ || _); [done|]. rewrite Hvalue, wrapped_truthy.
      unfold bind at 1, lift. simpl. rewrite shapeOf_wrapped.
      replace (has REMOTE_OBJECT_SUBTYPE_SET (JS.toLowerCase "Object"))
        with false by (by vm_compute).
      unfold bind, ret. rewrite Hmembers. simpl.
      intros [= <- <-]. rewrite lookup_insert_eq. by eexists.
    - replace (n + S i)%nat with (S n + i)%nat by lia. eauto. }
  pose proof (firstPass_each _ _ _ _ _ _ _ _ _ H1 Hi) as Heach.
  rewrite Hvalue, wrapped_truthy in Heach. simpl in Heach.
  destruct Heach as (d' & Hd' & _ & _ & Hid & Hstore).
  rewrite Hd in Hd'. injection Hd' as <-.
  exists s1, map, d. split; [done|]. split; [done|]. split; [done|].
  split.
  - rewrite Hid. unfold assignedId. by rewrite Hmembers, Hclass.
  - rewrite <- (Hstore Hmembers Hclass).
    etrans; [eapply frames_other; [done|]|eapply secondPass_other; [done|]].
    + intros j _. apply emptyObjectId_scopeIdOf.
    + intros j _ Heq. symmetry in Heq.
      by apply getObjectId_emptyObjectId in Heq.
Qed.


(** ** Object identifiers resolve *)

Lemma parseVariableValue_objectId value :
  ro_objectId (parseVariableValue value) = None.
Proof. unfold parseVariableValue. by repeat case_match. Qed.

Lemma parseVariable_fromMap map variable s s' pd object :
  parseVariable map variable s = (s', inr (Some pd)) →
  pd_value pd = Some object →
  ro_objectId object = None ∨ ∃ k, map !! k = Some object.
Proof.
  unfold parseVariable, throw, ret.
  destruct (_ || _); [done|]. destruct (_ && _); [done|].
  destruct (_ || _).
  - destruct (negb _); [done|]. intros [= <- <-]. simpl.
    destruct (JS.truthyS (v_value variable)).
    + intros [= <-]. left. apply parseVariableValue_objectId.
    + unfold lookupRemoteObject.
      destruct (v_varTableIndex variable) as [k|]; [|done]. simpl. eauto.
  - intros (s1 & [] & _ & Hret)%bind_inr. done.
Qed.

Lemma mapM_elements {A B} (f : A → M B) (l : list A) : ∀ s s' ys y,
  mapM f l s = (s', inr ys) → y ∈ ys →
  ∃ x s1 s2, f x s1 = (s2, inr y).
Proof.
  induction l as [|x l IH]; intros s s' ys y; simpl.
  - intros [= <- <-] Hin. by apply elem_of_nil in Hin.
  - intros (s1 & y' & Hx & Hrun)%bind_inr.
    apply bind_inr in Hrun as (s2 & ys' & Hrest & Hrun).
    injection Hrun as <- <-. intros [->|Hin]%elem_of_cons; eauto.
Qed.

Lemma parseVariableList_fromMap map l s s' result :
  parseVariableList map l s = (s', inr result) → fromMap map result.
Proof.
  unfold parseVariableList.
  intros (s1 & parsed & Hparsed & Hret)%bind_inr. injection Hret as <- <-.
  intros pd object Hpd Hvalue.
  apply list_elem_of_omap in Hpd as (o & Ho & Hsome). simpl in Hsome.
  subst o.
  destruct (mapM_elements _ _ _ _ _ _ Hparsed Ho) as (x & sa & sb & Hx).
  by eapply parseVariable_fromMap.
Qed.

Lemma listsFrom_insert lists0 map lists key l :
  listsFrom lists0 map lists → fromMap map l →
  listsFrom lists0 map (<[key := l]> lists).
Proof.
  intros Hlists Hl key' l'. destruct (decide (key = key')) as [->|Hne].
  - rewrite lookup_insert_eq. intros [= <-]. by right.
  - rewrite lookup_insert_ne by done. apply Hlists.
Qed.

Lemma fromMap_nil map : fromMap map [].
Proof. intros pd object Hin. by apply elem_of_nil in Hin. Qed.

Lemma describeEntry_listsFrom lists0 map0 id variable i map s s' map' :
  describeEntry id variable i map s = (s', inr map') →
  listsFrom lists0 map0 (propertyDescriptorListMap s) →
  listsFrom lists0 map0 (propertyDescriptorListMap s').
Proof.
  intros Hrun%describeEntry_cases Hlists.
  destruct (JS.truthyS (v_value variable)).
  - destruct Hrun as (d & _ & _ & _ & _ & ->).
    repeat case_match; try done.
    apply listsFrom_insert; [done|apply fromMap_nil].
  - by destruct Hrun as [_ ->].
Qed.

Lemma listEntry_listsFrom lists0 id map variable i s s' u :
  listEntry id map variable i tt s = (s', inr u) →
  listsFrom lists0 map (propertyDescriptorListMap s) →
  listsFrom lists0 map (propertyDescriptorListMap s').
Proof.
  unfold listEntry, throw, ret, bind, setProperties. intros Hrun Hlists.
  destruct (_ || _); [done|].
  destruct (JS.truthyS (v_value variable)); [|by injection Hrun as <- <-].
  destruct (v_members variable) as [members|].
  - destruct (parseVariableList map members s) as [s1 [e|l]] eqn:Hl; [done|].
    injection Hrun as <- <-. simpl.
    rewrite (parseVariableList_store _ _ _ _ _ Hl).
    apply listsFrom_insert; [done|]. by eapply parseVariableList_fromMap.
  - injection Hrun as <- <-. simpl. apply listsFrom_insert; [done|].
    intros pd object ->%list_elem_of_singleton. simpl.
    destruct (map !! Z.of_nat i) eqn:Hd; [|done]. intros [= <-]. eauto.
Qed.

Lemma callFrameOf_listsFrom lists0 id map stackFrame i s s' callFrame :
  callFrameOf id map stackFrame i s = (s', inr callFrame) →
  listsFrom lists0 map (propertyDescriptorListMap s) →
  listsFrom lists0 map (propertyDescriptorListMap s').
Proof.
  unfold callFrameOf. intros (s1 & [context l] & Hm & Hrun)%bind_inr Hlists.
  assert (propertyDescriptorListMap s1 = propertyDescriptorListMap s
          ∧ fromMap map l) as [Hstore Hl].
  { destruct (sf_locals stackFrame) as [locals|].
    - destruct (takeContext map locals) as [context' rest].
      apply bind_inr in Hm as (s2 & parsed & Hparsed & Hret).
      injection Hret as <- <- <-. split.
      + by eapply parseVariableList_store.
      + by eapply parseVariableList_fromMap.
    - injection Hm as <- <- <-. split; [done|apply fromMap_nil]. }
  destruct (JS.present _); [done|].
  unfold bind, lift, ret, setProperties in Hrun. simpl in Hrun.
  destruct (stackdriverToDevToolsLine _); [done|].
  injection Hrun as <- <-. simpl. rewrite Hstore.
  by apply listsFrom_insert.
Qed.

Lemma forEach_preserves {A T} (I : @Adapter H P → Prop)
  (f : A → nat → T → M T) :
  (∀ x i acc s s' acc', f x i acc s = (s', inr acc') → I s → I s') →
  ∀ l i acc s s' r, forEach f l i acc s = (s', inr r) → I s → I s'.
Proof.
  intros Hf. induction l as [|x l IH]; intros i acc s s' r; simpl.
  - by intros [= <- <-].
  - intros (s1 & acc' & Hx & Hrest)%bind_inr Hs. eauto.
Qed.

Lemma mapIndexed_preserves {A B} (I : @Adapter H P → Prop)
  (f : A → nat → M B) :
  (∀ x i s s' y, f x i s = (s', inr y) → I s → I s') →
  ∀ l i s s' r, mapIndexed f l i s = (s', inr r) → I s → I s'.
Proof.
  intros Hf. induction l as [|x l IH]; intros i s s' r; simpl.
  - by intros [= <- <-].
  - intros (s1 & y & Hx & Hrun)%bind_inr Hs.
    apply bind_inr in Hrun as (s2 & ys & Hrest & Hrun).
    injection Hrun as <- <-. eauto.
Qed.

Lemma takeContext_fromMap map locals object :
  (takeContext map locals).1 = Some object → ∃ k, map !! k = Some object.
Proof.
  unfold takeContext. destruct (last locals) as [contextVariable|]; [|done].
  destruct (_ && _); [|done]. simpl. unfold lookupRemoteObject.
  destruct (v_varTableIndex contextVariable) as [k|]; [|done]. simpl. eauto.
Qed.

(** After both passes every descriptor of the first pass resolves. *)
Lemma passes_describe id table s s1 map s2 :
  forEach (describeEntry id) table 0%nat ∅ s = (s1, inr map) →
  forEach (listEntry id map) table 0%nat tt s1 = (s2, inr tt) →
  ∀ k d, map !! k = Some d → resolves (propertyDescriptorListMap s2) d.
Proof.
  intros H1 H2 k d Hd key Hkey.
  destruct (decide (0 ≤ k < Z.of_nat (length table))) as [Hk|Hk].
  - destruct (lookup_lt_is_Some_2 table (Z.to_nat k)) as [variable Hi];
      [lia|].
    pose proof (firstPass_each _ _ _ _ _ _ _ _ _ H1 Hi) as Heach.
    simpl in Heach. rewrite Z2Nat.id in Heach by lia.
    destruct (JS.truthyS (v_value variable)) eqn:Hvalue.
    + destruct Heach as (d' & Hd' & _ & _ & Hid & Hempty).
      rewrite Hd in Hd'. injection Hd' as <-.
      rewrite Hkey in Hid. unfold assignedId in Hid.
      destruct (v_members variable) as [members|] eqn:Hmembers;
        simpl in Hid.
      * injection Hid as ->.
        destruct (secondPass_stored _ _ _ _ _ _ _ _ _ H2 Hi Hvalue)
          as (l & Hl & _). simpl in Hl. by rewrite Hl.
      * case_bool_decide as Hclass; [|done]. injection Hid as ->.
        assert (grows s1 s2) as (_ & _ & Hkeys).
        { eapply (forEach_related grows); [|exact H2].
          intros; by eapply listEntry_grows. }
        apply Hkeys. by rewrite (Hempty eq_refl Hclass).
    + rewrite Heach, lookup_empty in Hd. done.
  - assert (map !! k = None) as Hnone; [|by rewrite Hnone in Hd].
    destruct (decide (k < 0)).
    + by rewrite (firstPass_other _ _ _ _ _ _ _ _ H1) by lia.
    + by rewrite (firstPass_above _ _ _ _ _ _ _ _ H1) by (simpl; lia).
Qed.

(** X18. Loading a snapshot keeps the property lists closed: if every
    object in the lists had an identifier that is a key of the lists
    before, then after [loadSnapshot] has returned this is so again, and
    the [this] object and the scope objects of every call frame of the
    paused event have identifiers that are keys of the lists, which
    is where a [getProperties] request looks an identifier up. *)
Theorem loadSnapshot_identifiers_resolve snapshotId s p snapshot s' event :
  getBreakpoint snapshotId (debugProxy s) = (p, inr snapshot) →
  loadSnapshot snapshotId s = (s', inr event) →
  closed (propertyDescriptorListMap s) →
  closed (propertyDescriptorListMap s')
  ∧ ∀ callFrame, callFrame ∈ callFrames event →
      resolves (propertyDescriptorListMap s') (cf_this callFrame)
      ∧ ∀ scope, scope ∈ scopeChain callFrame →
          resolves (propertyDescriptorListMap s') (scope_object scope).
Proof.
  intros Hget Hload Hclosed.
  rewrite (loadSnapshot_fetched _ _ _ _ Hget) in Hload.
  pose proof (translateSnapshot_grows _ _ _ _ Hload) as (_ & _ & Hkeys).
  apply translateSnapshot_inr in Hload
    as (_ & s1 & map & s2 & H1 & H2 & H3).
  unfold firstPass in H1.
  pose proof (passes_describe _ _ _ _ _ _ H1 H2) as Hdescribed.
  assert (grows s2 s') as (_ & _ & Hkeys2).
  { eapply (mapIndexed_related grows); [|exact H3].
    intros; by eapply callFrameOf_grows. }
  assert (listsFrom (propertyDescriptorListMap s) map
            (propertyDescriptorListMap s')) as Hlists.
  { eapply (mapIndexed_preserves
              (λ st, listsFrom _ map (propertyDescriptorListMap st)));
      [|exact H3|].
    { intros; by eapply callFrameOf_listsFrom. }
    eapply (forEach_preserves
              (λ st, listsFrom _ map (propertyDescriptorListMap st)));
      [|exact H2|].
    { intros ? ? [] ? ? ? ? ?; by eapply listEntry_listsFrom. }
    eapply (forEach_preserves
              (λ st, listsFrom _ map (propertyDescriptorListMap st)));
      [|exact H1|].
    { intros; by eapply describeEntry_listsFrom. }
    intros key l Hkey. by left. }
  split.
  - intros key l pd object Hkey Hpd Hvalue key' Hid.
    destruct (Hlists key l Hkey) as [Hold|Hnew].
    + apply Hkeys. simpl. by eapply Hclosed.
    + destruct (Hnew pd object Hpd Hvalue) as [Hnone|[k Hk]];
        [congruence|].
      apply Hkeys2. by eapply Hdescribed.
  - intros callFrame [j Hj]%list_elem_of_lookup.
    destruct (frames_each _ _ _ _ _ _ _ H3) as [Hlength _].
    destruct (lookup_lt_is_Some_2 (framesOf snapshot) j) as [stackFrame Hf].
    { rewrite <- Hlength. by eapply lookup_lt_Some. }
    destruct (frames_inr _ _ _ _ _ _ _ _ _ H3 Hf)
      as (sa & sb & callFrame' & Hframe & Hcf & Hkept).
    rewrite Hj in Hcf. injection Hcf as <-. simpl in Hkept.
    pose proof (callFrameOf_fields _ _ _ _ _ _ _ Hframe)
      as (_ & _ & _ & _ & Hchain).
    apply callFrameOf_inr in Hframe
      as (_ & context & l & Hparts & Hl & Hthis).
    split.
    + intros key Hid. rewrite Hthis in Hid.
      destruct context as [object|]; [|done]. simpl in Hid.
      assert (∃ k, map !! k = Some object) as [k Hk].
      { destruct (sf_locals stackFrame) as [locals|].
        - destruct Hparts as [Hcontext _]. by eapply takeContext_fromMap.
        - by destruct Hparts. }
      apply Hkeys2. by eapply Hdescribed.
    + intros scope. rewrite Hchain.
      intros ->%list_elem_of_singleton key [= <-].
      simpl in Hl. rewrite Hkept, Hl. eauto.
Qed.


(** X19. Once a snapshot is loaded, DevTools can open the scope of every
    call frame: the [getProperties] request for [<id>-scope-<j>] is
    answered with the list parsed from the locals of stack frame [j]
    (without the context local, where that was taken as [this]; the empty
    list for a frame without locals), and leaves the adapter as it is. *)
Theorem scope_properties_after_load
  snapshotId s p snapshot s' event j stackFrame requestId :
  getBreakpoint snapshotId (debugProxy s) = (p, inr snapshot) →
  loadSnapshot snapshotId s = (s', inr event) →
  framesOf snapshot !! j = Some stackFrame →
  ∃ s1 map l,
    firstPass snapshot (fetched s p) = (s1, inr map)
    ∧ processRequest
        {| rq_id := requestId; rq_method := "Runtime.getProperties";
           rq_params :=
             Some (GetPropertiesParams (scopeIdOf (bp_id snapshot) j)) |} s'
      = (s', inr (GetPropertiesReturn l))
    ∧ match sf_locals stackFrame with
      | Some locals => parsedFrom map (takeContext map locals).2 l
      | None => l = []
      end.
Proof.
  intros Hget Hload Hj.
  rewrite (loadSnapshot_fetched _ _ _ _ Hget) in Hload.
  apply translateSnapshot_inr in Hload
    as (_ & s1 & map & s2 & H1 & H2 & H3).
  destruct (frames_inr _ _ _ _ _ _ _ _ _ H3 Hj)
    as (sa & sb & callFrame & Hframe & _ & Hkept).
  apply callFrameOf_inr in Hframe as (_ & context & l & Hparts & Hl & _).
  simpl in Hkept, Hl. exists s1, map, l. split; [done|]. split.
  - rewrite processRequest_getProperties, Hkept, Hl. done.
  - destruct (sf_locals stackFrame); by destruct Hparts.
Qed.

(** ** Identifiers of different snapshots *)

Lemma chars_append a b :
  list_ascii_of_string (a +:+ b)
  = list_ascii_of_string a ++ list_ascii_of_string b.
Proof.
  induction a as [|c a IH]; [done|].
  change (String c a +:+ b) with (String c (a +:+ b)). simpl.
  by rewrite IH.
Qed.

Lemma chars_inj a b :
  list_ascii_of_string a = list_ascii_of_string b → a = b.
Proof.
  intros Heq. rewrite <- (string_of_list_ascii_of_string a),
    <- (string_of_list_ascii_of_string b). by rewrite Heq.
Qed.

Lemma pretty_N_go_digits x : ∀ text,
  Forall (λ c, c ≠ "-"%char) (list_ascii_of_string text) →
  Forall (λ c, c ≠ "-"%char) (list_ascii_of_string (pretty_N_go x text)).
Proof.
  induction (N.lt_wf_0 x) as [x _ IH]. intros text Htext.
  assert (x = 0 ∨ 0 < x)%N as [->|Hx] by lia.
  - by rewrite pretty_N_go_0.
  - rewrite pretty_N_go_step by done. apply IH.
    + apply N.div_lt; lia.
    + simpl. constructor; [|done].
      unfold pretty_N_char. by repeat case_match.
Qed.

Lemma pretty_digits (n : nat) :
  Forall (λ c, c ≠ "-"%char) (list_ascii_of_string (pretty n)).
Proof.
  unfold pretty, pretty_nat, pretty, pretty_N.
  case_decide.
  - simpl. repeat constructor. discriminate.
  - apply pretty_N_go_digits. constructor.
Qed.

(** A text that ends in a dash and digits splits in one way only. *)
Lemma split_at_last_dash (a1 : list ascii) : ∀ a2 d1 d2,
  Forall (λ c, c ≠ "-"%char) d1 →
  Forall (λ c, c ≠ "-"%char) d2 →
  a1 ++ "-"%char :: d1 = a2 ++ "-"%char :: d2 →
  a1 = a2 ∧ d1 = d2.
Proof.
  induction a1 as [|c a1 IH]; intros [|c' a2] d1 d2 Hd1 Hd2; simpl.
  - by intros [= <-].
  - intros [= <- ->]. apply Forall_app in Hd1 as [_ Hd1].
    by apply Forall_cons in Hd1 as [? _].
  - intros [= -> <-]. apply Forall_app in Hd2 as [_ Hd2].
    by apply Forall_cons in Hd2 as [? _].
  - intros [= <- Heq]. destruct (IH _ _ _ Hd1 Hd2 Heq) as [-> ->]. done.
Qed.

(** The shape of an identifier: a snapshot, a role and an index. *)
Lemma identifier_inv id1 id2 role1 role2 (i j : nat) :
  id1 +:+ role1 +:+ "-" +:+ pretty i = id2 +:+ role2 +:+ "-" +:+ pretty j →
  list_ascii_of_string id1 ++ list_ascii_of_string role1
  = list_ascii_of_string id2 ++ list_ascii_of_string role2
  ∧ i = j.
Proof.
  intros Heq%(f_equal list_ascii_of_string).
  rewrite !chars_append in Heq. simpl in Heq.
  rewrite !(assoc_L (++)) in Heq.
  apply split_at_last_dash in Heq as [Hhead Hdigits];
    [|apply pretty_digits..].
  split; [done|]. apply chars_inj in Hdigits. by apply (inj pretty).
Qed.

(** X20. The identifiers under which property lists are stored tell the
    snapshot, the role and the index apart: two of them are equal only
    when they are built for the same snapshot identifier, the same role
    ([object], [empty] or [scope]) and the same index. Lists of
    different snapshots, entries or frames never overwrite each other. *)
Theorem identifiers_unique id1 id2 (i j : nat) :
  (getObjectId id1 i = getObjectId id2 j → id1 = id2 ∧ i = j)
  ∧ (emptyObjectId id1 i = emptyObjectId id2 j → id1 = id2 ∧ i = j)
  ∧ (scopeIdOf id1 i = scopeIdOf id2 j → id1 = id2 ∧ i = j)
  ∧ getObjectId id1 i ≠ emptyObjectId id2 j
  ∧ getObjectId id1 i ≠ scopeIdOf id2 j
  ∧ emptyObjectId id1 i ≠ scopeIdOf id2 j.
Proof.
  unfold getObjectId, emptyObjectId, scopeIdOf.
  change "-object-" with ("-object" +:+ "-").
  change "-empty-" with ("-empty" +:+ "-").
  change "-scope-" with ("-scope" +:+ "-").
  assert (∀ a b c, a +:+ (b +:+ "-") +:+ c = a +:+ b +:+ "-" +:+ c)
    as Hassoc.
  { intros a b c. apply chars_inj. rewrite !chars_append.
    by rewrite <- !(assoc_L (++)). }
  rewrite !Hassoc.
  split; [|split; [|split; [|split; [|split]]]].
  1-3: intros [Hhead ->]%identifier_inv; split; [|done];
    apply app_inv_tail in Hhead; by apply chars_inj.
  all: intros [Hhead _]%identifier_inv;
    apply (f_equal reverse) in Hhead;
    rewrite !reverse_app in Hhead; discriminate Hhead.
Qed.


(** ** The value parser *)

Lemma prefix_inv c pattern (text : string) :
  String.prefix (String c pattern) text = true →
  ∃ rest, text = String c rest ∧ String.prefix pattern rest = true.
Proof.
  destruct text as [|c' rest]; [done|].
  change (String.prefix (String c pattern) (String c' rest))
    with (if ascii_dec c c' then String.prefix pattern rest else false).
  destruct (ascii_dec c c') as [<-|]; [eauto|done].
Qed.

Lemma prefix_other c c' pattern (rest : string) :
  c ≠ c' → String.prefix (String c pattern) (String c' rest) = false.
Proof.
  intros Hne.
  change (String.prefix (String c pattern) (String c' rest))
    with (if ascii_dec c c' then String.prefix pattern rest else false).
  by destruct (ascii_dec c c').
Qed.

(** X21. The value parser goes by the shape of the text alone, before it
    tries a number: every value of the form [Symbol(...)] is a symbol
    described by the text, every value of the form [function ...()] is a
    function described by the text with an empty body, and every value
    that begins and ends with a slash (a lone slash and a directory path
    such as [/tmp/] too) is a regular expression. *)
Theorem parseVariableValue_by_shape value :
  (JS.startsWith "Symbol(" value = true → JS.endsWith ")" value = true →
     parseVariableValue value
     = {| ro_type := "symbol"; ro_subtype := None; ro_className := None;
          ro_description := Some value; ro_objectId := None;
          ro_value := None; ro_unserializableValue := None |})
  ∧ (JS.startsWith "function " value = true →
     JS.endsWith "()" value = true →
     parseVariableValue value
     = {| ro_type := "function"; ro_subtype := None;
          ro_className := Some "Function";
          ro_description := Some (value +:+ "{}"); ro_objectId := None;
          ro_value := None; ro_unserializableValue := None |})
  ∧ (JS.startsWith "/" value = true → JS.endsWith "/" value = true →
     parseVariableValue value
     = {| ro_type := "object"; ro_subtype := Some "regexp";
          ro_className := Some "RegExp"; ro_description := Some value;
          ro_objectId := None; ro_value := None;
          ro_unserializableValue := None |}).
Proof.
  unfold JS.startsWith. split; [|split].
  - intros Hstarts Hends. pose proof Hstarts as Hprefix.
    apply prefix_inv in Hprefix as (rest & -> & _).
    unfold parseVariableValue, JS.startsWith. rewrite Hstarts, Hends. done.
  - intros Hstarts Hends. pose proof Hstarts as Hprefix.
    apply prefix_inv in Hprefix as (rest & -> & Hprefix).
    apply prefix_inv in Hprefix as (rest' & -> & _).
    unfold parseVariableValue, JS.startsWith. rewrite Hstarts, Hends.
    rewrite (prefix_other "S" "f") by done. done.
  - intros Hstarts Hends. pose proof Hstarts as Hprefix.
    apply prefix_inv in Hprefix as (rest & -> & _).
    unfold parseVariableValue, JS.startsWith. rewrite Hstarts, Hends.
    rewrite (prefix_other "S" "/"), (prefix_other "f" "/") by done. done.
Qed.


(** ** Events of a request *)

Lemma processDebugger_emits (request : MessageRequest) method s s' r :
  processDebugger request method s = (s', r) →
  emitted s' = emitted s
  ∨ (emitted s' = emitted s ++ [EmitResume] ∧ r = inr EmptyResponse
     ∧ debugProxy s' = debugProxy s)
  ∨ emitted s'
    = emitted s
      ++ [ EmitUpdateBreakpointList
             (breakpointToBreakpointInfo
                <$> getBreakpointList false (debugProxy s'))
             (breakpointToBreakpointInfo
                <$> getBreakpointList true (debugProxy s')) ].
Proof.
  unfold processDebugger.
  destruct (selectCase DebuggerMethod.names method) as [[]|];
    outcomes; auto.
Qed.

(** X22. A request makes the adapter emit at most one event: the resume
    event for [Debugger.resume], which is always answered, and the change
    of the breakpoint list, computed from the debug proxy as the request
    leaves it, for a [setBreakpointByUrl] that reached the proxy. No
    other request emits; [removeBreakpoint] in particular does not
    announce the change of the list. *)
Theorem processRequest_emits_at_most_once (request : MessageRequest) s s' r :
  processRequest request s = (s', r) →
  emitted s' = emitted s
  ∨ (emitted s' = emitted s ++ [EmitResume] ∧ r = inr EmptyResponse
     ∧ debugProxy s' = debugProxy s)
  ∨ emitted s'
    = emitted s
      ++ [ EmitUpdateBreakpointList
             (breakpointToBreakpointInfo
                <$> getBreakpointList false (debugProxy s'))
             (breakpointToBreakpointInfo
                <$> getBreakpointList true (debugProxy s')) ].
Proof.
  unfold processRequest.
  destruct (bool_decide _); [apply processDebugger_emits|].
  destruct (bool_decide _).
  - unfold processRuntime.
    destruct (selectCase RuntimeMethod.names _) as [[]|]; outcomes; auto.
  - intros [= <- <-]. auto.
Qed.

(** ** Frames without a context *)

(** X23. When the locals of a frame do not end in a local named
    [context] with a back-reference other than 0, or the frame has no
    locals, the [this] of its call frame is the [undefined] object, and
    the property list of its scope is parsed from all the locals. *)
Theorem this_undefined_without_context
  snapshotId s p snapshot s' event j stackFrame :
  getBreakpoint snapshotId (debugProxy s) = (p, inr snapshot) →
  loadSnapshot snapshotId s = (s', inr event) →
  framesOf snapshot !! j = Some stackFrame →
  contextLocal (default [] (sf_locals stackFrame)) = false →
  ∃ s1 map callFrame l,
    firstPass snapshot (fetched s p) = (s1, inr map)
    ∧ callFrames event !! j = Some callFrame
    ∧ cf_this callFrame = plain "undefined"
    ∧ propertyDescriptorListMap s' !! scopeIdOf (bp_id snapshot) j = Some l
    ∧ parsedFrom map (default [] (sf_locals stackFrame)) l.
Proof.
  intros Hget Hload Hj Hcontext.
  rewrite (loadSnapshot_fetched _ _ _ _ Hget) in Hload.
  apply translateSnapshot_inr in Hload
    as (_ & s1 & map & s2 & H1 & H2 & H3).
  destruct (frames_inr _ _ _ _ _ _ _ _ _ H3 Hj)
    as (sa & sb & callFrame & Hframe & Hcf & Hkept).
  apply callFrameOf_inr in Hframe as (_ & context & l & Hparts & Hl & Hthis).
  simpl in Hkept, Hl. exists s1, map, callFrame, l.
  split; [done|]. split; [done|].
  destruct (sf_locals stackFrame) as [locals|]; simpl in Hcontext.
  - assert (takeContext map locals = (None, locals)) as Htake.
    { unfold takeContext. unfold contextLocal in Hcontext.
      destruct (last locals); [|done]. by rewrite Hcontext. }
    rewrite Htake in Hparts. destruct Hparts as [-> Hparsed].
    split; [done|]. split; [by rewrite Hkept|done].
  - destruct Hparts as [-> ->]. split; [done|]. split; [by rewrite Hkept|].
    by exists s, s.
Qed.

(** ** Entries of the form #<ClassName> *)

(** X24. An entry [#<C>] whose class [C] is not an array, in any
    capitalization, is always classified, never rejected: its class name
    and its description are the text [C] between the brackets, taken as
    it is, and its subtype is the lower-case [C] when that is a subtype of
    the protocol, [typedarray] when [C] is the name of a typed array, and
    none otherwise. *)
Theorem wrapped_entry_classified variable className :
  JS.toLowerCase className ≠ "array" →
  shapeOf variable (wrapped className)
  = inr {| sh_className := Some className;
           sh_subtype :=
             if has REMOTE_OBJECT_SUBTYPE_SET (JS.toLowerCase className)
             then Some (JS.toLowerCase className)
             else if has TYPED_ARRAY_SET className then Some "typedarray"
             else None;
           sh_description := Some className |}.
Proof.
  intros Harray. rewrite shapeOf_wrapped.
  destruct (has REMOTE_OBJECT_SUBTYPE_SET _); [|done].
  by destruct (String.eqb_spec (JS.toLowerCase className) "array").
Qed.

(** ** Names of breakpoints *)

Lemma pretty_N_go_colon x : ∀ text,
  Forall (λ c, c ≠ ":"%char) (list_ascii_of_string text) →
  Forall (λ c, c ≠ ":"%char) (list_ascii_of_string (pretty_N_go x text)).
Proof.
  induction (N.lt_wf_0 x) as [x _ IH]. intros text Htext.
  assert (x = 0 ∨ 0 < x)%N as [->|Hx] by lia.
  - by rewrite pretty_N_go_0.
  - rewrite pretty_N_go_step by done. apply IH.
    + apply N.div_lt; lia.
    + simpl. constructor; [|done].
      unfold pretty_N_char. by repeat case_match.
Qed.

Lemma pretty_Z_colon (z : Z) :
  Forall (λ c, c ≠ ":"%char) (list_ascii_of_string (pretty z)).
Proof.
  assert (∀ q : positive,
    Forall (λ c, c ≠ ":"%char) (list_ascii_of_string (pretty q))) as Hq.
  { intros q. unfold pretty, pretty_positive, pretty, pretty_N.
    case_decide; [done|]. apply pretty_N_go_colon. constructor. }
  destruct z as [|q|q]; unfold pretty, pretty_Z.
  - simpl. repeat constructor. discriminate.
  - apply Hq.
  - rewrite chars_append. simpl. constructor; [discriminate|apply Hq].
Qed.

Lemma split_at_last_colon (a1 : list ascii) : ∀ a2 d1 d2,
  Forall (λ c, c ≠ ":"%char) d1 →
  Forall (λ c, c ≠ ":"%char) d2 →
  a1 ++ ":"%char :: d1 = a2 ++ ":"%char :: d2 →
  a1 = a2 ∧ d1 = d2.
Proof.
  induction a1 as [|c a1 IH]; intros [|c' a2] d1 d2 Hd1 Hd2; simpl.
  - by intros [= <-].
  - intros [= <- ->]. apply Forall_app in Hd1 as [_ Hd1].
    by apply Forall_cons in Hd1 as [? _].
  - intros [= -> <-]. apply Forall_app in Hd2 as [_ Hd2].
    by apply Forall_cons in Hd2 as [? _].
  - intros [= <- Heq]. destruct (IH _ _ _ Hd1 Hd2 Heq) as [-> ->]. done.
Qed.

(** X25. The name under which a breakpoint is listed, [path:line], tells
    its location: two breakpoints with the same name are at the same path
    and line, also when a path has colons of its own. *)
Theorem breakpoint_names_tell_locations (b1 b2 : Breakpoint) :
  bi_name (breakpointToBreakpointInfo b1)
  = bi_name (breakpointToBreakpointInfo b2) →
  bp_location b1 = bp_location b2.
Proof.
  unfold breakpointToBreakpointInfo. simpl.
  destruct (bp_location b1) as [path1 line1].
  destruct (bp_location b2) as [path2 line2]. simpl.
  intros Heq%(f_equal list_ascii_of_string).
  rewrite !chars_append in Heq. simpl in Heq.
  apply split_at_last_colon in Heq as [Hpath Hline];
    [|apply pretty_Z_colon..].
  apply chars_inj in Hpath, Hline. apply (inj pretty) in Hline.
  by subst.
Qed.

(** ** The errors of a translation *)

Lemma logVariableStatus_translationError this variable s s' e :
  logVariableStatus this variable s = (s', inl e) →
  translationError e = true.
Proof.
  unfold logVariableStatus, log, throw.
  repeat case_match; by intros [= <- <-].
Qed.

Lemma parseVariable_translationError map variable s s' e :
  parseVariable map variable s = (s', inl e) → translationError e = true.
Proof.
  unfold parseVariable, throw, ret.
  repeat case_match; try by intros [= <- <-].
  unfold bind.
  destruct (logVariableStatus _ _ _) as [s1 [e'|[]]] eqn:Hlog; [|done].
  intros [= <- <-]. by eapply logVariableStatus_translationError.
Qed.

Lemma mapM_error {A B} (Q : Error → Prop) (f : A → M B) :
  (∀ x s s' e, f x s = (s', inl e) → Q e) →
  ∀ l s s' e, mapM f l s = (s', inl e) → Q e.
Proof.
  intros Hf. induction l as [|x l IH]; intros s s' e; simpl; [done|].
  unfold bind at 1. destruct (f x s) as [s1 [e'|y]] eqn:Hx.
  - intros [= <- <-]. eauto.
  - unfold bind, ret. destruct (mapM f l s1) as [s2 [e'|ys]] eqn:Hl; [|done].
    intros [= <- <-]. eauto.
Qed.

Lemma parseVariableList_translationError map l s s' e :
  parseVariableList map l s = (s', inl e) → translationError e = true.
Proof.
  unfold parseVariableList, bind, ret.
  destruct (mapM _ _ _) as [s1 [e'|ys]] eqn:Hl; [|done].
  intros [= <- <-]. eapply (mapM_error (λ e, translationError e = true));
    [|done].
  apply parseVariable_translationError.
Qed.

Lemma describeEntry_translationError id variable i map s s' e :
  describeEntry id variable i map s = (s', inl e) →
  translationError e = true.
Proof.
  unfold describeEntry, throw. intros Hrun.
  destruct (_ || _); [by injection Hrun as <- <-|].
  destruct (JS.truthyS (v_value variable)).
  - unfold bind at 1, lift in Hrun.
    destruct (shapeOf variable _) as [e'|shape] eqn:Hshape.
    + injection Hrun as <- <-. revert Hshape. unfold shapeOf.
      repeat case_match; by intros [= <-].
    + unfold bind, ret, setProperties in Hrun. by repeat case_match.
  - unfold bind, ret in Hrun.
    destruct (logVariableStatus ThisAdapter variable s) as [s1 [e'|[]]] eqn:Hl;
      [|done].
    injection Hrun as <- <-. by eapply logVariableStatus_translationError.
Qed.

Lemma describeEntry_accepts id variable i map s s' map' :
  describeEntry id variable i map s = (s', inr map') →
  rejectedEntry variable = false.
Proof.
  unfold describeEntry, rejectedEntry, throw. by destruct (_ || _).
Qed.

Lemma listEntry_translationError id map variable i s s' e :
  rejectedEntry variable = false →
  listEntry id map variable i tt s = (s', inl e) →
  translationError e = true.
Proof.
  unfold rejectedEntry, listEntry, throw, ret.
  intros Haccepted.
  assert (JS.truthyS (v_type variable)
          || JS.truthyN (v_varTableIndex variable) = false) as ->.
  { destruct (JS.truthyS (v_name variable)),
      (JS.truthyS (v_type variable)),
      (JS.truthyN (v_varTableIndex variable)); done. }
  destruct (JS.truthyS (v_value variable)); [|done].
  destruct (v_members variable) as [members|]; [|done].
  unfold bind, setProperties.
  destruct (parseVariableList map members s) as [s1 [e'|l]] eqn:Hl; [|done].
  intros [= <- <-]. by eapply parseVariableList_translationError.
Qed.

Lemma callFrameOf_translationError id map stackFrame i s s' e :
  callFrameOf id map stackFrame i s = (s', inl e) →
  translationError e = true.
Proof.
  unfold callFrameOf. intros Hrun. unfold bind at 1 in Hrun.
  match type of Hrun with
  | (let (_, _) := ?m s in _) = _ =>
      destruct (m s) as [s1 [e'|[context l]]] eqn:Hm
  end.
  - injection Hrun as <- <-.
    destruct (sf_locals stackFrame) as [locals|]; [|done].
    destruct (takeContext map locals) as [context rest].
    unfold bind, ret in Hm.
    destruct (parseVariableList map rest s) as [s2 [e2|l]] eqn:Hl; [|done].
    injection Hm as <- <-. by eapply parseVariableList_translationError.
  - destruct (JS.present _); [by injection Hrun as <- <-|].
    unfold bind, lift, ret, setProperties, stackdriverToDevToolsLine in Hrun.
    simpl in Hrun. destruct (_ <? 1); [|done]. by injection Hrun as <- <-.
Qed.

Lemma firstPass_accepts id table : ∀ i map s s' map',
  forEach (describeEntry id) table i map s = (s', inr map') →
  Forall (λ variable, rejectedEntry variable = false) table.
Proof.
  induction table as [|x table IH]; intros i map s s' map'; simpl;
    [done|].
  intros (s1 & map1 & Hx & Hrest)%bind_inr. constructor.
  - by eapply describeEntry_accepts.
  - by eapply IH.
Qed.

Lemma firstPass_translationError id table : ∀ i map s s' e,
  forEach (describeEntry id) table i map s = (s', inl e) →
  translationError e = true.
Proof.
  induction table as [|x table IH]; intros i map s s' e; simpl; [done|].
  unfold bind.
  destruct (describeEntry id x i map s) as [s1 [e'|map1]] eqn:Hx.
  - intros [= <- <-]. by eapply describeEntry_translationError.
  - apply IH.
Qed.

Lemma secondPass_translationError id map table :
  Forall (λ variable, rejectedEntry variable = false) table →
  ∀ i s s' e,
    forEach (listEntry id map) table i tt s = (s', inl e) →
    translationError e = true.
Proof.
  induction 1 as [|x table Hx _ IH]; intros i s s' e; simpl; [done|].
  unfold bind.
  destruct (listEntry id map x i tt s) as [s1 [e'|[]]] eqn:Hrun.
  - intros [= <- <-]. by eapply listEntry_translationError.
  - apply IH.
Qed.

Lemma frames_translationError id map frames : ∀ i s s' e,
  mapIndexed (callFrameOf id map) frames i s = (s', inl e) →
  translationError e = true.
Proof.
  induction frames as [|x frames IH]; intros i s s' e; simpl; [done|].
  unfold bind at 1.
  destruct (callFrameOf id map x i s) as [s1 [e'|y]] eqn:Hx.
  - intros [= <- <-]. by eapply callFrameOf_translationError.
  - unfold bind, ret.
    destruct (mapIndexed _ _ _ _) as [s2 [e'|ys]] eqn:Hrest; [|done].
    intros [= <- <-]. by eapply IH.
Qed.

(** X28. A snapshot that the debug proxy has delivered fails to load
    only with the not-a-snapshot error, a data-shape error of the first
    pass, of the members and locals or of the frames, the invalid-line
    error, or the [TypeError] of the status logger: never with an error
    of a request, and never with the error of the guard of the second
    pass, which no entry that passed the first pass can trigger. *)
Theorem loadSnapshot_errors snapshotId s p snapshot s' e :
  getBreakpoint snapshotId (debugProxy s) = (p, inr snapshot) →
  loadSnapshot snapshotId s = (s', inl e) →
  translationError e = true.
Proof.
  intros Hget. rewrite (loadSnapshot_fetched _ _ _ _ Hget).
  unfold translateSnapshot, throw.
  destruct (negb _); [by intros [= <- <-]|].
  unfold bind at 1.
  destruct (forEach (describeEntry _) _ _ _ _) as [s1 [e'|map]] eqn:H1.
  { intros [= <- <-]. by eapply firstPass_translationError. }
  apply firstPass_accepts in H1.
  unfold bind at 1.
  destruct (forEach (listEntry _ _) _ _ _ _) as [s2 [e'|[]]] eqn:H2.
  { intros [= <- <-]. by eapply secondPass_translationError. }
  unfold bind, ret.
  destruct (mapIndexed _ _ _ _) as [s3 [e'|frames]] eqn:H3; [|done].
  intros [= <- <-]. by eapply frames_translationError.
Qed.

End MoreProperties.

(** * The command line and the log lines *)

(** X26. The start-up test on the flags [keyfile], [project] and
    [default] holds exactly when more than one of the three is given (a
    flag with the empty text, or [default] set to false, is not given):
    it is the test that its message, at most one of the three, words. *)
Theorem conflictingCredentials_more_than_one
  (keyfile project : option string) (default_ : option bool) :
  conflictingCredentials keyfile project default_ = true
  ↔ (2 ≤ length (filter (λ given, given = true)
                   [ JS.truthyS keyfile; JS.truthyS project;
                     JS.truthyB default_ ]))%nat.
Proof.
  unfold conflictingCredentials.
  destruct (JS.truthyS keyfile), (JS.truthyS project),
    (JS.truthyB default_); simpl; split; (done || lia).
Qed.

Lemma replaceFirst_skip c d (a b : string) :
  Forall (λ x, x ≠ c) (list_ascii_of_string a) →
  replaceFirst c d (a +:+ String c b) = a +:+ String d b.
Proof.
  induction a as [|x a IH]; intros Ha.
  - simpl. by rewrite Ascii.eqb_refl.
  - change (String x a +:+ String c b) with (String x (a +:+ String c b)).
    simpl in Ha. apply Forall_cons in Ha as [Hx Ha]. simpl.
    destruct (Ascii.eqb_spec x c) as [|_]; [done|].
    rewrite IH by done. done.
Qed.

Lemma substring_front (a b : string) :
  String.substring 0 (String.length a) (a +:+ b) = a.
Proof.
  induction a as [|x a IH]; [by destruct b|].
  change (String x a +:+ b) with (String x (a +:+ b)). simpl.
  by rewrite IH.
Qed.

(** X27. A log line starts with the date and the time of day of its ISO
    timestamp, separated by a blank: of [<date>T<time>...], with a date of
    10 and a time of 8 characters, it keeps [<date> <time>], and then
    gives the origin and the level in brackets and the message. *)
Theorem logLine_of_iso_timestamp
  (date time rest origin level message : string) :
  String.length date = 10%nat →
  String.length time = 8%nat →
  Forall (λ x, x ≠ "T"%char) (list_ascii_of_string date) →
  logLine (date +:+ "T" +:+ time +:+ rest) origin level message
  = date +:+ " " +:+ time +:+ " [" +:+ origin +:+ ", " +:+ level +:+ "] "
    +:+ message.
Proof.
  intros Hdate Htime HnoT. unfold logLine, logTime.
  assert (date +:+ "T" +:+ time +:+ rest
          = (date +:+ String "T" time) +:+ rest) as ->.
  { clear. induction date as [|x date IH]; [done|].
    change (String x date +:+ "T" +:+ time +:+ rest)
      with (String x (date +:+ "T" +:+ time +:+ rest)).
    by rewrite IH. }
  replace 19%nat with (String.length (date +:+ String "T" time)).
  2:{ clear HnoT. revert Hdate.
      generalize 10%nat. induction date as [|x date IH]; intros n.
      - simpl. intros <-. simpl. by rewrite Htime.
      - destruct n as [|n]; [done|]. simpl. intros [= Hn].
        change (String x date +:+ String "T" time)
          with (String x (date +:+ String "T" time)).
        simpl. by rewrite (IH n). }
  rewrite substring_front, replaceFirst_skip by done.
  clear. induction date as [|x date IH]; [done|].
  change (String x date +:+ String " " time)
    with (String x (date +:+ String " " time)).
  change (String x date +:+ " " +:+ time +:+ " [" +:+ origin +:+ ", "
          +:+ level +:+ "] " +:+ message)
    with (String x (date +:+ " " +:+ time +:+ " [" +:+ origin +:+ ", "
                    +:+ level +:+ "] " +:+ message)).
  change (String x (date +:+ String " " time) +:+ " [" +:+ origin +:+ ", "
          +:+ level +:+ "] " +:+ message)
    with (String x ((date +:+ String " " time) +:+ " [" +:+ origin +:+ ", "
                    +:+ level +:+ "] " +:+ message)).
  by rewrite IH.
Qed.

(** * The further properties on the in-memory service *)

Import Sample.

Lemma processRequest_keeps_store_witness :
  ∃ (s' : state) r,
    processRequest
      {| rq_id := 1; rq_method := "Debugger.resume"; rq_params := None |}
      withScope = (s', r)
    ∧ propertyDescriptorListMap s' = propertyDescriptorListMap withScope
    ∧ logger s' = logger withScope.
Proof.
  assert (∃ (s' : state) r,
            processRequest
              {| rq_id := 1; rq_method := "Debugger.resume";
                 rq_params := None |} withScope = (s', r))
    as (s' & r & Hrun) by (eexists _, _; reflexivity).
  exists s', r. split; [exact Hrun|].
  apply (processRequest_keeps_store _ withScope s' r Hrun).
Defined.

Lemma setBreakpointByUrl_requires_url_witness :
  processRequest
    {| rq_id := 0; rq_method := "Debugger.setBreakpointByUrl";
       rq_params :=
         Some (SetBreakpointByUrlParams 0 None (Some "") (Some "")
                 (Some 0) (Some "")) |} (adapter [])
  = (adapter [], inl MissingUrl).
Proof.
  apply (proj2 (setBreakpointByUrl_requires_url (adapter []) 0)).
  reflexivity.
Defined.

Lemma setBreakpointByUrl_outcome_witness :
  processRequest
    {| rq_id := 0; rq_method := "Debugger.setBreakpointByUrl";
       rq_params :=
         Some (SetBreakpointByUrlParams 1337 (Some "/path") (Some "*")
                 (Some "#") (Some 42) (Some "false")) |} (adapter [])
  = (announced (adapter [])
       [created (captureAt "/path" 1338 (Some "false")) []],
     inr (SetBreakpointByUrlReturn "breakpoint-0"
            [ {| scriptId := "/path"; lineNumber := 1337;
                 columnNumber := Some 0 |} ])).
Proof.
  apply (setBreakpointByUrl_outcome (adapter []) 0 1337 "/path" (Some "*")
           (Some "#") (Some 42) (Some "false")
           [created (captureAt "/path" 1338 (Some "false")) []]
           (inr (created (captureAt "/path" 1338 (Some "false")) [])));
    [discriminate
    |unfold JS.isSafeInteger, JS.MAX_SAFE_INTEGER; lia
    |reflexivity
    |intros breakpoint [= <-]; unfold JS.MAX_SAFE_INTEGER; simpl; lia].
Defined.

Lemma other_domains_answer_empty_witness :
  processRequest
    {| rq_id := 0; rq_method := "Profiler"; rq_params := None |} (adapter [])
  = (adapter [], inr EmptyResponse)
  ∧ processRequest
      {| rq_id := 0; rq_method := "Profiler" +:+ "." +:+ "start";
         rq_params := None |} (adapter [])
    = (adapter [], inr EmptyResponse).
Proof.
  apply (other_domains_answer_empty (adapter []) 0 "Profiler" "start" None);
    [reflexivity|discriminate|discriminate].
Defined.

Lemma unrecognized_methods_fail_witness :
  processRequest
    {| rq_id := 0; rq_method := "Debugger." +:+ "Enable";
       rq_params := None |} (adapter [])
  = (adapter [], inl (UnrecognizedDebuggerMethod (Some "Enable")))
  ∧ processRequest
      {| rq_id := 0; rq_method := "Runtime." +:+ "getproperties";
         rq_params := None |} (adapter [])
    = (adapter [], inl (UnrecognizedRuntimeMethod (Some "getproperties"))).
Proof.
  split.
  - apply (proj1 (unrecognized_methods_fail (adapter []) 0 "Enable" None
                    eq_refl)).
    by apply (bool_decide_unpack _).
  - apply (proj1 (proj2 (unrecognized_methods_fail (adapter []) 0
                           "getproperties" None eq_refl))).
    by apply (bool_decide_unpack _).
Defined.

Lemma trailing_segments_ignored_witness :
  processRequest
    {| rq_id := 0;
       rq_method := "Debugger" +:+ "." +:+ "enable" +:+ "." +:+ "now";
       rq_params := None |} (adapter [])
  = (adapter [], inr (EnableReturn "debugger")).
Proof.
  apply (trailing_segments_ignored (adapter []) 0 "Debugger" "enable" "now"
           None (adapter []) (EnableReturn "debugger"));
    reflexivity.
Defined.

Lemma loadSnapshot_keeps_lists_witness :
  ∃ (s' : state) r,
    loadSnapshot "missing" withScope = (s', r)
    ∧ debugProxy s' = []
    ∧ emitted s' = emitted withScope
    ∧ ∀ k, is_Some (propertyDescriptorListMap withScope !! k) →
           is_Some (propertyDescriptorListMap s' !! k).
Proof.
  assert (∃ (s' : state) r, loadSnapshot "missing" withScope = (s', r))
    as (s' & r & Hload) by (eexists _, _; reflexivity).
  exists s', r. split; [exact Hload|].
  apply (loadSnapshot_keeps_lists (DP:=memory) "missing" withScope []
           (inl (External "breakpoint not found")) s' r eq_refl Hload).
Defined.

Lemma loadSnapshot_needs_captured_snapshot_witness :
  loadSnapshot "s" (adapter [])
  = (fetched (adapter []) [], inl (External "breakpoint not found"))
  ∧ loadSnapshot "breakpoint-0" (adapter [atLine1338])
    = (fetched (adapter [atLine1338]) [atLine1338],
       inl (NotCapturedSnapshot (defaulted atLine1338))).
Proof.
  split.
  - apply (proj1 (loadSnapshot_needs_captured_snapshot "s" (adapter []) [])).
    reflexivity.
  - apply (proj2 (loadSnapshot_needs_captured_snapshot "breakpoint-0"
                    (adapter [atLine1338]) [atLine1338]));
      reflexivity.
Defined.

Lemma frame_line_below_one_rejected_witness :
  ∃ (s' : state) e, loadSnapshot "s" (adapter [lineZero]) = (s', inl e).
Proof.
  apply (frame_line_below_one_rejected "s" (adapter [lineZero]) [lineZero]
           lineZero (frameAtLine 0 None));
    [reflexivity|apply list_elem_of_here|reflexivity].
Defined.

Lemma table_entry_with_name_rejected_witness :
  ∃ (s' : state) e,
    loadSnapshot "s" (adapter [withNamedEntry]) = (s', inl e)
    ∧ dataShape e = true.
Proof.
  apply (table_entry_with_name_rejected "s" (adapter [withNamedEntry])
           [withNamedEntry] withNamedEntry namedEntry);
    [reflexivity|reflexivity|apply list_elem_of_here|reflexivity].
Defined.

Lemma array_entry_needs_length_witness :
  shapeOf (entry "#<Array>" (Some [field "0" "first"; field "length" "1"]))
    (wrapped "Array")
  = inr {| sh_className := Some "Array"; sh_subtype := Some "array";
           sh_description := Some ("Array(" +:+ "1" +:+ ")") |}
  ∧ ∃ (s' : state) e,
      loadSnapshot "s" (adapter [arrayWithoutLength]) = (s', inl e)
      ∧ dataShape e = true.
Proof.
  split.
  - apply (proj1 (array_entry_needs_length
                    (entry "#<Array>"
                       (Some [field "0" "first"; field "length" "1"]))
                    "Array" eq_refl eq_refl) (field "length" "1")).
    reflexivity.
  - apply (proj2 (array_entry_needs_length (P:=service)
                    (entry "#<Array>" (Some [field "0" "first"]))
                    "Array" eq_refl eq_refl) eq_refl
             "s" (adapter [arrayWithoutLength]) [arrayWithoutLength]
             arrayWithoutLength);
      [reflexivity|reflexivity|apply list_elem_of_here].
Defined.

Lemma unexpected_value_rejected_witness :
  ∃ (s' : state) e,
    loadSnapshot "s" (adapter [plainText]) = (s', inl e)
    ∧ dataShape e = true.
Proof.
  apply (unexpected_value_rejected "s" (adapter [plainText]) [plainText]
           plainText (entry "hello" None) "hello");
    [reflexivity|reflexivity|apply list_elem_of_here|reflexivity
    |discriminate|reflexivity|reflexivity|discriminate].
Defined.

Lemma malformed_member_rejected_witness :
  ∃ (s' : state) e,
    loadSnapshot "s" (adapter [withCollision]) = (s', inl e).
Proof.
  apply (malformed_member_rejected "s" (adapter [withCollision])
           [withCollision] withCollision
           (entry "#<Object>" (Some [collidingMember]))
           [collidingMember] collidingMember);
    [reflexivity|apply list_elem_of_here|reflexivity|reflexivity
    |apply list_elem_of_here|reflexivity].
Defined.

Lemma callFrames_mirror_stackFrames_witness :
  ∃ (s' : state) event callFrame,
    loadSnapshot "s" (adapter [twoObjects]) = (s', inr event)
    ∧ reason event = "other"
    ∧ hitBreakpoints event = ["s"]
    ∧ length (callFrames event) = 1%nat
    ∧ callFrames event !! 0%nat = Some callFrame
    ∧ lineNumber (cf_location callFrame) = 2.
Proof.
  assert (∃ (s' : state) event,
            loadSnapshot "s" (adapter [twoObjects]) = (s', inr event))
    as (s' & event & Hload) by (vm_compute; eauto).
  destruct (callFrames_mirror_stackFrames (DP:=memory) "s"
              (adapter [twoObjects])
              [twoObjects] twoObjects s' event eq_refl Hload)
    as (Hreason & Hhit & Hlength & Heach).
  destruct (Heach 0%nat
              (frame (Some [reference "first" 1; reference "context" 1])
                 None) eq_refl)
    as (callFrame & Hframe & _ & _ & _ & _ & _ & Hline & _).
  exists s', event, callFrame.
  split; [exact Hload|]. split; [exact Hreason|]. split; [exact Hhit|].
  split; [exact Hlength|]. split; [exact Hframe|].
  apply Hline. unfold JS.MAX_SAFE_INTEGER. simpl. lia.
Defined.

Lemma parseVariableList_wellFormed_witness :
  ∃ result,
    parseVariableList ∅ [field "a" "1"; reference "b" 1] (adapter [])
    = (adapter [], inr result)
    ∧ length result = 2%nat.
Proof.
  destruct (parseVariableList_wellFormed ∅
              [field "a" "1"; reference "b" 1] (adapter []))
    as (result & Hrun & Hlength & _).
  - repeat constructor.
  - exists result. split; [exact Hrun|exact Hlength].
Defined.

Lemma firstPass_describes_valued_entries_witness :
  ∃ (s1 : state) map,
    firstPass twoObjects (adapter [twoObjects]) = (s1, inr map)
    ∧ ∀ k, k < 0 ∨ 2 ≤ k → lookupRemoteObject map (Some k) = None.
Proof.
  assert (∃ (s1 : state) map,
            firstPass twoObjects (adapter [twoObjects]) = (s1, inr map))
    as (s1 & map & Hpass) by (vm_compute; eauto).
  exists s1, map. split; [exact Hpass|].
  exact (proj2 (firstPass_describes_valued_entries twoObjects
                  (adapter [twoObjects]) s1 map Hpass)).
Defined.

Lemma empty_object_has_no_properties_witness :
  ∃ (s' : state) event,
    loadSnapshot "s" (adapter [plainObject]) = (s', inr event)
    ∧ propertyDescriptorListMap s' !! emptyObjectId "s" 0 = Some [].
Proof.
  assert (∃ (s' : state) event,
            loadSnapshot "s" (adapter [plainObject]) = (s', inr event))
    as (s' & event & Hload) by (vm_compute; eauto).
  exists s', event. split; [exact Hload|].
  destruct (empty_object_has_no_properties (DP:=memory) "s"
              (adapter [plainObject])
              [plainObject] plainObject s' event 0
              (entry "#<Object>" None) eq_refl Hload eq_refl eq_refl eq_refl)
    as (s1 & map & d & _ & _ & _ & _ & Hlist).
  exact Hlist.
Defined.

Lemma loadSnapshot_identifiers_resolve_witness :
  ∃ (s' : state) event,
    loadSnapshot "s" (adapter [twoObjects]) = (s', inr event)
    ∧ closed (propertyDescriptorListMap s').
Proof.
  assert (∃ (s' : state) event,
            loadSnapshot "s" (adapter [twoObjects]) = (s', inr event))
    as (s' & event & Hload) by (vm_compute; eauto).
  exists s', event. split; [exact Hload|].
  apply (loadSnapshot_identifiers_resolve (DP:=memory) "s"
           (adapter [twoObjects])
           [twoObjects] twoObjects s' event eq_refl Hload).
  intros key l pd object Hl. simpl in Hl. by rewrite lookup_empty in Hl.
Defined.

Lemma scope_properties_after_load_witness :
  ∃ (s' : state) event l,
    loadSnapshot "s" (adapter [twoObjects]) = (s', inr event)
    ∧ processRequest
        {| rq_id := 7; rq_method := "Runtime.getProperties";
           rq_params := Some (GetPropertiesParams (scopeIdOf "s" 0)) |} s'
      = (s', inr (GetPropertiesReturn l)).
Proof.
  assert (∃ (s' : state) event,
            loadSnapshot "s" (adapter [twoObjects]) = (s', inr event))
    as (s' & event & Hload) by (vm_compute; eauto).
  destruct (scope_properties_after_load (DP:=memory) "s"
              (adapter [twoObjects])
              [twoObjects] twoObjects s' event 0
              (frame (Some [reference "first" 1; reference "context" 1])
                 None) 7 eq_refl Hload eq_refl)
    as (s1 & map & l & _ & Hrequest & _).
  exists s', event, l. split; [exact Hload|exact Hrequest].
Defined.

Lemma identifiers_unique_witness :
  ("s" = "s" ∧ 2%nat = 2%nat)
  ∧ getObjectId "s" 2 ≠ emptyObjectId "s" 2.
Proof.
  destruct (identifiers_unique "s" "s" 2 2)
    as (Hobject & _ & _ & Hempty & _).
  split; [apply Hobject; reflexivity|exact Hempty].
Defined.

Lemma parseVariableValue_by_shape_witness :
  parseVariableValue "Symbol(id)"
  = {| ro_type := "symbol"; ro_subtype := None; ro_className := None;
       ro_description := Some "Symbol(id)"; ro_objectId := None;
       ro_value := None; ro_unserializableValue := None |}
  ∧ parseVariableValue "function run()"
    = {| ro_type := "function"; ro_subtype := None;
         ro_className := Some "Function";
         ro_description := Some "function run(){}"; ro_objectId := None;
         ro_value := None; ro_unserializableValue := None |}
  ∧ parseVariableValue "/a+/"
    = {| ro_type := "object"; ro_subtype := Some "regexp";
         ro_className := Some "RegExp"; ro_description := Some "/a+/";
         ro_objectId := None; ro_value := None;
         ro_unserializableValue := None |}.
Proof.
  split; [|split].
  - apply (proj1 (parseVariableValue_by_shape "Symbol(id)")); reflexivity.
  - apply (proj1 (proj2 (parseVariableValue_by_shape "function run()")));
      reflexivity.
  - apply (proj2 (proj2 (parseVariableValue_by_shape "/a+/")));
      reflexivity.
Defined.

Lemma processRequest_emits_at_most_once_witness :
  ∃ (s' : state) r,
    processRequest
      {| rq_id := 1; rq_method := "Debugger.resume"; rq_params := None |}
      (adapter []) = (s', r)
    ∧ (emitted s' = []
       ∨ (emitted s' = [] ++ [EmitResume] ∧ r = inr EmptyResponse
          ∧ debugProxy s' = [])
       ∨ emitted s'
         = [] ++ [ EmitUpdateBreakpointList
                     (breakpointToBreakpointInfo
                        <$> getBreakpointList false (debugProxy s'))
                     (breakpointToBreakpointInfo
                        <$> getBreakpointList true (debugProxy s')) ]).
Proof.
  assert (∃ (s' : state) r,
            processRequest
              {| rq_id := 1; rq_method := "Debugger.resume";
                 rq_params := None |} (adapter []) = (s', r))
    as (s' & r & Hrun) by (eexists _, _; reflexivity).
  exists s', r. split; [exact Hrun|].
  apply (processRequest_emits_at_most_once _ (adapter []) s' r Hrun).
Defined.

Lemma this_undefined_without_context_witness :
  ∃ (s' : state) event callFrame,
    loadSnapshot "s" (adapter [withoutContext]) = (s', inr event)
    ∧ callFrames event !! 0%nat = Some callFrame
    ∧ cf_this callFrame = plain "undefined".
Proof.
  assert (∃ (s' : state) event,
            loadSnapshot "s" (adapter [withoutContext]) = (s', inr event))
    as (s' & event & Hload) by (vm_compute; eauto).
  destruct (this_undefined_without_context (DP:=memory) "s"
              (adapter [withoutContext])
              [withoutContext] withoutContext s' event 0
              (frameAtLine 3 (Some [field "count" "1"]))
              eq_refl Hload eq_refl eq_refl)
    as (s1 & map & callFrame & l & _ & Hframe & Hthis & _).
  exists s', event, callFrame.
  split; [exact Hload|]. split; [exact Hframe|exact Hthis].
Defined.

Lemma wrapped_entry_classified_witness :
  shapeOf (entry "#<Map>" None) (wrapped "Map")
  = inr {| sh_className := Some "Map"; sh_subtype := Some "map";
           sh_description := Some "Map" |}
  ∧ shapeOf (entry "#<Uint8Array>" None) (wrapped "Uint8Array")
    = inr {| sh_className := Some "Uint8Array";
             sh_subtype := Some "typedarray";
             sh_description := Some "Uint8Array" |}.
Proof.
  split.
  - rewrite (wrapped_entry_classified (entry "#<Map>" None) "Map");
      [reflexivity|discriminate].
  - rewrite (wrapped_entry_classified (entry "#<Uint8Array>" None)
               "Uint8Array");
      [reflexivity|discriminate].
Defined.

Lemma breakpoint_names_tell_locations_witness :
  bp_location (created (captureAt "app.js" 3 None) [])
  = bp_location (snapshot [] []).
Proof.
  apply (breakpoint_names_tell_locations
           (created (captureAt "app.js" 3 None) []) (snapshot [] [])).
  reflexivity.
Defined.

Lemma loadSnapshot_errors_witness :
  ∃ (s' : state) e,
    loadSnapshot "s" (adapter [errorWithoutMembers]) = (s', inl e)
    ∧ translationError e = true.
Proof.
  assert (∃ (s' : state) e,
            loadSnapshot "s" (adapter [errorWithoutMembers]) = (s', inl e))
    as (s' & e & Hload) by (vm_compute; eauto).
  exists s', e. split; [exact Hload|].
  apply (loadSnapshot_errors (DP:=memory) "s"
           (adapter [errorWithoutMembers])
           [errorWithoutMembers] errorWithoutMembers s' e eq_refl Hload).
Defined.

Lemma conflictingCredentials_more_than_one_witness :
  conflictingCredentials (Some "key.json") None (Some true) = true.
Proof.
  apply (proj2 (conflictingCredentials_more_than_one (Some "key.json") None
                  (Some true))).
  vm_compute. lia.
Defined.

Lemma logLine_of_iso_timestamp_witness :
  logLine "2018-08-01T12:34:56.789Z" "adapter" "info" "ready"
  = "2018-08-01 12:34:56 [adapter, info] ready".
Proof.
  apply (logLine_of_iso_timestamp "2018-08-01" "12:34:56" ".789Z" "adapter"
           "info" "ready");
    [reflexivity|reflexivity|].
  repeat (constructor; [discriminate|]). constructor.
Defined.
